(** * Gift Castle escrow bot (server.js): ledger and deal state machine

    A shallow embedding of [server.js]: the deal-id generator
    [nextDealId], the callback handlers that create, buy, forward,
    confirm and dispute a deal, the owner's [/givebalance] command, the
    in-memory caches [balances], [deals], [logs] and [users._seq] they
    mutate, and the conversation that leads to them (callback data, the
    price keypad, the text handler).

    The handlers that hold money are described twice.
    - The ledger in decimals.  An amount is the decimal it stands for,
      an exact rational ([Qc]), [Number(x.toFixed(8))] is rounding to
      the nearest multiple of 10^-8, halves away from zero, and a cache
      is a finite map ([gmap string _]) of its own keys, next to which
      [deals[dealId]] finds the members of [Object.prototype].  This
      description carries the statements about the state machine: which
      guards a handler has, which fields it writes, which ids are
      issued.
    - The handlers on the numbers of the machine ([Module Js]).  An
      amount is a binary64 number: [NaN], an infinity, or a finite
      value, given by the rational it is; an operation returns the
      exact result rounded to the nearest number ([rnd]), and a cache
      answers to the names of [Object.prototype] as well as to its own
      keys.  What a balance is after a debit or a credit, and what the
      sum of all amounts is, is stated of this description.
    The two agree on amounts of at most 8 decimals up to 2^49 units of
    10^-8, that is up to 5629499.53421312 ([sim_run]); above that bound
    sums and differences of amounts are no longer those of the
    decimals.

    In both descriptions
    - a numeric Telegram id indexes [balances] through its decimal
      string, as a property key does;
    - [new Date().toISOString()] is an argument of the handler;
    - a handler is one step on the caches: it runs its checks and its
      writes of [balances] and [deals] without an intervening [await],
      and the completion record, written after the two [await]s of
      [saveJson], is taken to be written in the same step.
      Interleavings of handlers, a failing write of a file, the
      messages sent to Telegram and the JSON files are not described. *)

From Stdlib Require Import ZArith QArith Qcanon Qround Lia Ascii String List.
From stdpp Require Import base numbers strings pretty sorting gmap fin_maps.
From Stdlib Require Import Lqa Qabs Qpower.

Local Open Scope Z_scope.

(** ** Numbers *)

Module Num.
Local Open Scope Qc_scope.

Abbreviation Number := Qc (only parsing).

(** [Number.prototype.toFixed]: "let n be an integer for which
    n / 10^f - x is as close to zero as possible; if there are two
    such n, pick the larger n", applied to the absolute value. *)
Definition round_half_away (x : Q) : Z :=
  if Qle_bool 0 x then Qfloor (x + (1 # 2))%Q
  else (- Qfloor (- x + (1 # 2))%Q)%Z.

Definition grid (n : Z) : Number := Q2Qc (n # 100000000).

(** [Number(x.toFixed(8))] *)
Definition toFixed8 (x : Number) : Number :=
  grid (round_half_away (this x * inject_Z 100000000)%Q).

(** A value with at most 8 fractional digits. *)
Definition on_grid (x : Number) : Prop := ∃ n : Z, x = grid n.

(** The decimal literal [m * 10^-digits], e.g. [0.123456789] is
    [of_decimal 123456789 9]. *)
Definition of_decimal (m : Z) (digits : nat) : Number :=
  Q2Qc (m # Z.to_pos (10 ^ Z.of_nat digits)).
End Num.
Export Num.

(** ** Deal identifiers: [users._seq] and [nextDealId] *)

Module Seq.
Record SeqCounter := { letter : ascii; number : Z }.

(** [users._seq = { letter: "A", number: 7342 }] *)
Definition init : SeqCounter := {| letter := "A"%char; number := 7342 |}.

Definition render (c : SeqCounter) : string :=
  "#" +:+ String (letter c) "" +:+ pretty (number c).

Definition nextDealId (c : SeqCounter) : string * SeqCounter :=
  let id := render c in
  let number' := number c + 1 in
  if 9999 <? number' then
    let nextCode := (N_of_ascii (letter c) + 1)%N in
    if (N_of_ascii "Z" <? nextCode)%N
    then (id, {| letter := "A"%char; number := 1000 |})
    else (id, {| letter := ascii_of_N nextCode; number := 1000 |})
  else (id, {| letter := letter c; number := number' |}).

(** The ids returned by [n] successive calls. *)
Fixpoint ids (n : nat) (c : SeqCounter) : list string :=
  match n with
  | O => []
  | S n' => let '(id, c') := nextDealId c in id :: ids n' c'
  end.

Fixpoint after (n : nat) (c : SeqCounter) : SeqCounter :=
  match n with
  | O => c
  | S n' => after n' (nextDealId c).2
  end.
End Seq.
Export Seq.

(** The counters the generator moves through, and their position in the
    cycle A1000, ..., A9999, B1000, ..., Z9999 of 26 * 9000 ids. *)
Definition wf_counter (c : SeqCounter) : Prop :=
  65 ≤ Z.of_N (N_of_ascii (letter c)) ≤ 90 ∧ 1000 ≤ number c ≤ 9999.

Definition idx (c : SeqCounter) : Z :=
  (Z.of_N (N_of_ascii (letter c)) - 65) * 9000 + (number c - 1000).

Definition cycle : Z := 234000.

(** The order of [<] on JavaScript strings, for strings of ASCII
    characters: lexicographic by character code. *)
Definition str_lt (a b : string) : Prop := String.ltb a b = true.

Global Instance str_lt_dec : RelDecision str_lt.
Proof. intros a b. unfold str_lt. apply _. Defined.

(** ** The store *)

Definition Time := string.

(** [deal.status] is one of the strings ["open"], ["in_progress"],
    ["sent_to_support"] and ["done"]; no handler writes another. *)
Definition Status := string.

Record Deal := {
  id : string;
  seller : Z;
  buyer : option Z;
  title : option string;
  desc : option string;
  type : string;
  price : Number;
  status : Status;
  locked : Number;
  created_at : Time;
  locked_at : option Time;
  sent_at : option Time;
  completed_at : option Time
}.

Record LogEntry := {
  log_id : string;
  log_seller : Z;
  log_buyer : Z;
  log_amount : Number;
  log_title : option string;
  log_desc : option string;
  log_completed_at : Time
}.

Record Store := {
  _seq : SeqCounter;
  balances : gmap string Number;
  deals : gmap string Deal;
  logs : gmap string LogEntry
}.

(** The state of a fresh installation: every JSON file holds [{}]. *)
Definition empty_store : Store :=
  {| _seq := Seq.init; balances := ∅; deals := ∅; logs := ∅ |}.

(** What a handler tells its caller, after the alert it raises:
    [NotFound] "deal not found", [InvalidState] "the deal is no longer
    available for purchase", [InsufficientFunds] "not enough TON on the
    balance", [NoBuyer] "no buyer attached", [InvalidPrice] "enter a
    correct amount", [BadAmount] "give a correct amount"; [Ignored] is
    the silent return of [/givebalance] for anyone but the owner. *)
Inductive Outcome :=
| Ok
| Created (dealId : string)
| NotFound
| InvalidState
| InsufficientFunds
| NoBuyer
| InvalidPrice
| BadAmount
| Ignored.

Global Instance Outcome_eq_dec : EqDecision Outcome.
Proof. solve_decision. Defined.

(** The property key of a numeric user id. *)
Definition key (userId : Z) : string := pretty userId.

(** [Number(balances[k] || 0)] *)
Definition balance_of (b : gmap string Number) (k : string) : Number :=
  default 0%Qc (b !! k).

Definition set_balances (s : Store) (b : gmap string Number) : Store :=
  {| _seq := _seq s; balances := b; deals := deals s; logs := logs s |}.

Definition set_deals (s : Store) (d : gmap string Deal) : Store :=
  {| _seq := _seq s; balances := balances s; deals := d; logs := logs s |}.

(** ** Objects used as maps

    [obj[k]] finds an own property of [obj], or else the member of
    [Object.prototype] that [k] names: a function, or an object for
    [__proto__], all of them truthy. *)

(** The names [Object.prototype] answers to. *)
Definition proto_member (k : string) : bool :=
  bool_decide
    (k ∈ ["constructor"; "__proto__"; "toString"; "toLocaleString"; "valueOf";
          "hasOwnProperty"; "isPrototypeOf"; "propertyIsEnumerable";
          "__defineGetter__"; "__defineSetter__"; "__lookupGetter__";
          "__lookupSetter__"]).

(** ** Handlers *)

(** Callback [num_done]: the seller confirms the price typed on the
    keypad; [priceVal] is the parsed buffer, [temp] the title,
    description and type collected before. *)
Definition createDeal (s : Store) (userId : Z)
    (temp_type temp_title temp_desc : option string)
    (priceVal : Number) (now : Time) : Outcome * Store :=
  if bool_decide (priceVal ≤ 0)%Qc then (InvalidPrice, s)
  else
    let '(id, seq') := nextDealId (_seq s) in
    let deal :=
      {| id := id; seller := userId; buyer := None;
         title := temp_title; desc := temp_desc;
         type := match temp_type with
                 | Some t => if decide (t = "") then "NFT" else t
                 | None => "NFT"
                 end;
         price := toFixed8 priceVal;
         status := "open"; locked := 0%Qc;
         created_at := now; locked_at := None; sent_at := None;
         completed_at := None |} in
    (Created id,
     {| _seq := seq'; balances := balances s;
        deals := <[id := deal]> (deals s); logs := logs s |}).

(** Callback [buy_<dealId>]; an inherited [deals[dealId]] has no status
    [open]. *)
Definition buy (s : Store) (dealId : string) (userId : Z) (now : Time)
    : Outcome * Store :=
  match deals s !! dealId with
  | None => if proto_member dealId then (InvalidState, s) else (NotFound, s)
  | Some deal =>
    if decide (status deal ≠ "open") then (InvalidState, s)
    else
      let buyerId := userId in
      let bal := balance_of (balances s) (key buyerId) in
      let price_ := price deal in
      if bool_decide (bal < price_)%Qc then (InsufficientFunds, s)
      else
        let deal' :=
          {| id := id deal; seller := seller deal; buyer := Some buyerId;
             title := title deal; desc := desc deal; type := type deal;
             price := price deal; status := "in_progress"; locked := price_;
             created_at := created_at deal; locked_at := Some now;
             sent_at := sent_at deal; completed_at := completed_at deal |} in
        (Ok,
         {| _seq := _seq s;
            balances := <[key buyerId := toFixed8 (bal - price_)%Qc]> (balances s);
            deals := <[dealId := deal']> (deals s);
            logs := logs s |})
  end.

(** Callback [seller_sent_<dealId>]; on an inherited [deals[dealId]] the
    status is written on a member of [Object.prototype], outside the
    caches. *)
Definition seller_sent (s : Store) (dealId : string) (userId : Z) (now : Time)
    : Outcome * Store :=
  match deals s !! dealId with
  | None => if proto_member dealId then (Ok, s) else (NotFound, s)
  | Some deal =>
    let deal' :=
      {| id := id deal; seller := seller deal; buyer := buyer deal;
         title := title deal; desc := desc deal; type := type deal;
         price := price deal; status := "sent_to_support"; locked := locked deal;
         created_at := created_at deal; locked_at := locked_at deal;
         sent_at := Some now; completed_at := completed_at deal |} in
    (Ok, set_deals s (<[dealId := deal']> (deals s)))
  end.

(** [!deal.buyer]: no buyer recorded, or the id [0]. *)
Definition truthy_buyer (deal : Deal) : option Z :=
  match buyer deal with
  | Some b => if decide (b = 0) then None else Some b
  | None => None
  end.

(** Callback [buyer_received_<dealId>]; an inherited [deals[dealId]] has
    no buyer. *)
Definition buyer_received (s : Store) (dealId : string) (userId : Z) (now : Time)
    : Outcome * Store :=
  match deals s !! dealId with
  | None => if proto_member dealId then (NoBuyer, s) else (NotFound, s)
  | Some deal =>
    match truthy_buyer deal with
    | None => (NoBuyer, s)
    | Some dealBuyer =>
      let sellerId := seller deal in
      let amount := locked deal in
      let deal' :=
        {| id := id deal; seller := seller deal; buyer := buyer deal;
           title := title deal; desc := desc deal; type := type deal;
           price := price deal; status := "done"; locked := 0%Qc;
           created_at := created_at deal; locked_at := locked_at deal;
           sent_at := sent_at deal; completed_at := Some now |} in
      let logEntry :=
        {| log_id := dealId; log_seller := sellerId; log_buyer := dealBuyer;
           log_amount := amount; log_title := title deal;
           log_desc := desc deal; log_completed_at := now |} in
      (Ok,
       {| _seq := _seq s;
          balances :=
            <[key sellerId :=
                toFixed8 (balance_of (balances s) (key sellerId) + amount)%Qc]>
              (balances s);
          deals := <[dealId := deal']> (deals s);
          logs := <[dealId := logEntry]> (logs s) |})
    end
  end.

(** Callback [buyer_problem_<dealId>]: the owner and the seller are
    told; no cache is written. *)
Definition buyer_problem (s : Store) (dealId : string) (userId : Z)
    : Outcome * Store :=
  match deals s !! dealId with
  | None => if proto_member dealId then (Ok, s) else (NotFound, s)
  | Some deal => (Ok, s)
  end.

Section Owner.
(** [Number(process.env.OWNER_ID || 0)] *)
Variable OWNER_ID : Z.

(** Text [/givebalance <target> <amount>]; [amt] is [Number(parts[2])],
    [None] when that is [NaN]; [target] is a key of [balances] or a new
    one (under a name of [Object.prototype] the balance becomes [NaN],
    which the second part describes). *)
Definition givebalance (s : Store) (fromId : Z) (target : string)
    (amt : option Number) : Outcome * Store :=
  if decide (fromId ≠ OWNER_ID) then (Ignored, s)
  else
    match amt with
    | None => (BadAmount, s)
    | Some amt =>
      (Ok, set_balances s
             (<[target := toFixed8 (balance_of (balances s) target + amt)%Qc]>
                (balances s)))
    end.

(** ** Sequences of operations *)

Inductive Op :=
| CreateDeal (userId : Z) (temp_type temp_title temp_desc : option string)
             (priceVal : Number) (now : Time)
| Buy (dealId : string) (userId : Z) (now : Time)
| MarkSent (dealId : string) (userId : Z) (now : Time)
| ConfirmReceived (dealId : string) (userId : Z) (now : Time)
| ReportProblem (dealId : string) (userId : Z)
| AdminCredit (fromId : Z) (target : string) (amt : option Number).

Definition step (s : Store) (o : Op) : Outcome * Store :=
  match o with
  | CreateDeal u ty ti de p now => createDeal s u ty ti de p now
  | Buy d u now => buy s d u now
  | MarkSent d u now => seller_sent s d u now
  | ConfirmReceived d u now => buyer_received s d u now
  | ReportProblem d u => buyer_problem s d u
  | AdminCredit f t a => givebalance s f t a
  end.

Fixpoint run (s : Store) (ops : list Op) : Store :=
  match ops with
  | [] => s
  | o :: ops' => run (step s o).2 ops'
  end.

Definition is_admin (o : Op) : bool :=
  match o with AdminCredit _ _ _ => true | _ => false end.
End Owner.

(** ** The quantity that is meant to be conserved *)

Definition sum_balances (b : gmap string Number) : Number :=
  map_fold (λ _ v acc, (acc + v)%Qc) 0%Qc b.

(** The reduction of the status route:
    [Object.values(deals).reduce((acc, d) => acc + Number(d.locked || 0), 0)] *)
Definition totalLocked (d : gmap string Deal) : Number :=
  map_fold (λ _ d acc, (acc + locked d)%Qc) 0%Qc d.

Definition total (s : Store) : Number :=
  (sum_balances (balances s) + totalLocked (deals s))%Qc.


(** ** Well-formed stores

    What every handler maintains: stored amounts have at most eight
    decimals, a price is not negative, a deal locks nothing or its price,
    and an open deal locks nothing. *)

Record deal_ok (d : Deal) : Prop := {
  ok_price_grid : on_grid (price d);
  ok_price_nonneg : (0 ≤ price d)%Qc;
  ok_locked : locked d = 0%Qc ∨ locked d = price d;
  ok_open : status d = "open" → locked d = 0%Qc
}.

Record wf (s : Store) : Prop := {
  wf_balances : map_Forall (λ _ v, on_grid v) (balances s);
  wf_deals : map_Forall (λ _ d, deal_ok d) (deals s)
}.

Definition reachable (OWNER_ID : Z) (s : Store) : Prop :=
  ∃ ops, s = run OWNER_ID empty_store ops.

(** The amount locked in the deal that the next [createDeal] replaces:
    [deals[id] = deal] does not look at what [deals[id]] held. *)
Definition overwritten (s : Store) : Number :=
  from_option locked 0%Qc (deals s !! (nextDealId (_seq s)).1).




(** ** A worked scenario

    The owner has id 1, the seller id 3 and the buyer id 2.  The owner
    funds the buyer with 20, the seller offers "Golden Gift" for 12.5,
    the buyer buys, the seller forwards, the buyer confirms. *)

Definition fund_buyer : Op := AdminCredit 1 "2" (Some (of_decimal 20 0)).

Definition golden_gift : Op :=
  CreateDeal 3 (Some "NFT") (Some "Golden Gift") (Some "rare")
             (of_decimal 125 1) "2024-01-01T10:00:00.000Z".

Definition st_open : Store := run 1 empty_store [fund_buyer; golden_gift].

Definition st_bought : Store :=
  run 1 st_open [Buy "#A7342" 2 "2024-01-01T11:00:00.000Z"].

Definition st_sent : Store :=
  run 1 st_bought [MarkSent "#A7342" 3 "2024-01-01T12:00:00.000Z"].

Definition st_done : Store :=
  run 1 st_sent [ConfirmReceived "#A7342" 2 "2024-01-01T13:00:00.000Z"].

Definition open_gift : Deal :=
  {| id := "#A7342"; seller := 3; buyer := None;
     title := Some "Golden Gift"; desc := Some "rare"; type := "NFT";
     price := toFixed8 (of_decimal 125 1); status := "open"; locked := 0%Qc;
     created_at := "2024-01-01T10:00:00.000Z"; locked_at := None;
     sent_at := None; completed_at := None |}.

Definition bought_gift : Deal :=
  {| id := "#A7342"; seller := 3; buyer := Some 2;
     title := Some "Golden Gift"; desc := Some "rare"; type := "NFT";
     price := toFixed8 (of_decimal 125 1); status := "in_progress";
     locked := toFixed8 (of_decimal 125 1);
     created_at := "2024-01-01T10:00:00.000Z";
     locked_at := Some "2024-01-01T11:00:00.000Z";
     sent_at := None; completed_at := None |}.

Definition sent_gift : Deal :=
  {| id := "#A7342"; seller := 3; buyer := Some 2;
     title := Some "Golden Gift"; desc := Some "rare"; type := "NFT";
     price := toFixed8 (of_decimal 125 1); status := "sent_to_support";
     locked := toFixed8 (of_decimal 125 1);
     created_at := "2024-01-01T10:00:00.000Z";
     locked_at := Some "2024-01-01T11:00:00.000Z";
     sent_at := Some "2024-01-01T12:00:00.000Z"; completed_at := None |}.


Definition is_create (o : Op) : bool :=
  match o with CreateDeal _ _ _ _ _ _ => true | _ => false end.

(** The number of createDeal calls in a sequence. *)
Fixpoint creates (ops : list Op) : nat :=
  match ops with
  | [] => 0
  | o :: ops' => (if is_create o then 1 else 0) + creates ops'
  end.

(** After [m] ids have been issued on a fresh installation: the counter
    is [m] calls on, and every deal is stored under one of those ids. *)
Definition issued (m : nat) (s : Store) : Prop :=
  _seq s = after m Seq.init
  ∧ ∀ k, is_Some (deals s !! k) → ∃ j, (j < m)%nat ∧ k = render (after j Seq.init).


(** * The numbers of the machine: binary64

    The handlers compute with JavaScript numbers, IEEE 754 binary64
    values.  A number is [NaN], an infinity, or a finite value, which
    is given by the rational it stands for; the zero of either sign is
    the one value [0] (the program never divides, and prints both as
    [0]).  An operation returns the exact result rounded to the nearest
    finite value, ties to the value with an even significand, and an
    infinity past the largest finite value. *)

(** A JavaScript number: the result of [parseFloat], of [Number] and of
    the arithmetic of the handlers. *)
Inductive Parsed :=
| PNaN
| PInfinity (negative : bool)
| PFinite (v : Number).

Global Instance Parsed_eq_dec : EqDecision Parsed.
Proof. solve_decision. Defined.

Definition round_half_even (x : Q) : Z :=
  let f := Qfloor x in
  match Qcompare (x - inject_Z f) (1 # 2) with
  | Lt => f
  | Gt => (f + 1)%Z
  | Eq => if Z.even f then f else (f + 1)%Z
  end.

(** The exponent [e] of the unit in the last place of a positive [a]:
    [2^52 <= a / 2^e < 2^53], and not below that of the subnormal
    numbers. *)
Definition binary_exponent1 (a : Q) : Z :=
  let e0 := (Z.log2 (Qnum a) - Z.log2 (Zpos (Qden a)) - 52)%Z in
  if Qle_bool (2 ^ 52) (a / 2 ^ e0) then e0 else (e0 - 1)%Z.

Definition binary_exponent (a : Q) : Z := Z.max (binary_exponent1 a) (-1074).

(** The binary64 value nearest to a positive [a]; [None] past the
    largest finite value. *)
Definition rnd_pos (a : Q) : option Q :=
  let e := binary_exponent a in
  let v := (inject_Z (round_half_even (a / 2 ^ e)) * 2 ^ e)%Q in
  if Qle_bool (2 ^ 1024) v then None else Some v.

(** The number that a real result [q] becomes. *)
Definition rnd (q : Qc) : Parsed :=
  match Qcompare (this q) 0 with
  | Eq => PFinite 0%Qc
  | Gt => match rnd_pos (this q) with
          | Some v => PFinite (Q2Qc v)
          | None => PInfinity false
          end
  | Lt => match rnd_pos (- this q) with
          | Some v => PFinite (Q2Qc (- v))
          | None => PInfinity true
          end
  end.

(** Half a unit in the last place of the numbers below 2, and of the
    subnormal numbers: the error of [rnd] at [a] is at most
    [|a| * ulp53 + tiny]. *)
Definition ulp53 : Q := 1 # 9007199254740992.

Definition tiny : Q := 2 ^ (-1075).

(** * Further definitions

    ** What holds of every deal and record of a store the handlers
    produce *)

Definition known_status (st : Status) : Prop :=
  st = "open" ∨ st = "in_progress" ∨ st = "sent_to_support" ∨ st = "done".

Record deal_inv (l : gmap string LogEntry) (k : string) (d : Deal) : Prop := {
  inv_id : id d = k;
  inv_status : known_status (status d);
  inv_open : status d = "open" → buyer d = None;
  inv_locked_status :
    locked d ≠ 0%Qc → status d = "in_progress" ∨ status d = "sent_to_support";
  inv_locked_price : locked d ≠ 0%Qc → locked d = price d;
  inv_locked_buyer : locked d ≠ 0%Qc → is_Some (buyer d);
  inv_progress : status d = "in_progress" → is_Some (buyer d) ∧ locked d = price d;
  inv_done :
    status d = "done" →
    locked d = 0%Qc
    ∧ ∃ e, l !! k = Some e ∧ log_id e = k ∧ log_seller e = seller d
           ∧ buyer d = Some (log_buyer e) ∧ completed_at d = Some (log_completed_at e)
}.

Definition store_inv (s : Store) : Prop :=
  map_Forall (deal_inv (logs s)) (deals s).

(** The one operation that adds funds: [/givebalance] sent by the owner
    with a number. *)
Definition mints (OWNER_ID : Z) (o : Op) : Prop :=
  match o with
  | AdminCredit f _ (Some _) => f = OWNER_ID
  | _ => False
  end.

(** What may change in a deal record while it stays in the store. *)
Record evolves (d d' : Deal) : Prop := {
  ev_id : id d' = id d;
  ev_seller : seller d' = seller d;
  ev_title : title d' = title d;
  ev_desc : desc d' = desc d;
  ev_type : type d' = type d;
  ev_price : price d' = price d;
  ev_created : created_at d' = created_at d;
  ev_buyer : ∀ b, buyer d = Some b → buyer d' = Some b;
  ev_status : status d ≠ "open" → status d' ≠ "open"
}.

(** ** The shape of a deal id: "#", a capital letter, four digits *)

Definition is_digit (a : ascii) : bool :=
  (48 <=? N_of_ascii a)%N && (N_of_ascii a <=? 57)%N.

Definition is_upper (a : ascii) : bool :=
  (65 <=? N_of_ascii a)%N && (N_of_ascii a <=? 90)%N.

Definition four_digits (s : string) : bool :=
  match s with
  | String a (String b (String c (String d EmptyString))) =>
    is_digit a && is_digit b && is_digit c && is_digit d
  | _ => false
  end.

Definition id_shape (s : string) : bool :=
  match s with
  | String h (String l r) => Ascii.eqb h "#" && is_upper l && four_digits r
  | _ => false
  end.

(** ** Callback data: the dispatch of [bot.on("callback_query")] *)

(** [s.startsWith(p)] *)
Definition startsWith (s p : string) : bool := String.prefix p s.

(** [s.split(sep)] for a non-empty separator [sep]: the pieces between
    the occurrences of [sep], found from the left and not overlapping.
    [skip] counts the characters of a matched separator still to pass,
    [cur] is the piece being read. *)
Fixpoint split_aux (sep : string) (skip : nat) (cur s : string) : list string :=
  match s with
  | EmptyString => [cur]
  | String a s' =>
    match skip with
    | S k => split_aux sep k cur s'
    | O =>
      if String.prefix sep s
      then cur :: split_aux sep (String.length sep - 1) "" s'
      else split_aux sep 0 (cur +:+ String a "") s'
    end
  end.

Definition split (sep s : string) : list string := split_aux sep 0 "" s.

(** The branch of the handler that a callback datum takes, with what
    the branch reads from it ([data.split(prefix)[1]]), in the order of
    the source's [if] chain. *)
Inductive Route :=
| RLang (lang : string)
| RCreateDeal
| RType (type : option string)
| RMenuBack
| RNum (key : option string)
| RJoinDeal
| RView (dealId : option string)
| RBuy (dealId : option string)
| RSellerSent (dealId : option string)
| RBuyerReceived (dealId : option string)
| RBuyerProblem (dealId : option string)
| RHelpContact
| RShowBalance
| RIgnored.

Definition route (data : string) : Route :=
  if String.eqb data "lang_ru" then RLang "ru"
  else if String.eqb data "lang_en" then RLang "en"
  else if String.eqb data "lang_ar" then RLang "ar"
  else if String.eqb data "create_deal" then RCreateDeal
  else if startsWith data "type_" then RType (split "type_" data !! 1%nat)
  else if String.eqb data "menu_back" then RMenuBack
  else if startsWith data "num_" then RNum (split "num_" data !! 1%nat)
  else if String.eqb data "join_deal" then RJoinDeal
  else if startsWith data "view_" then RView (split "view_" data !! 1%nat)
  else if startsWith data "buy_" then RBuy (split "buy_" data !! 1%nat)
  else if startsWith data "seller_sent_"
       then RSellerSent (split "seller_sent_" data !! 1%nat)
  else if startsWith data "buyer_received_"
       then RBuyerReceived (split "buyer_received_" data !! 1%nat)
  else if startsWith data "buyer_problem_"
       then RBuyerProblem (split "buyer_problem_" data !! 1%nat)
  else if String.eqb data "help_contact" then RHelpContact
  else if String.eqb data "show_balance" then RShowBalance
  else RIgnored.

(** The characters of a string. *)
Fixpoint chars (s : string) : list ascii :=
  match s with
  | EmptyString => []
  | String a s' => a :: chars s'
  end.

(** ** The status route

    [Object.values(deals).filter((d) => d.status && d.status !== "done").length] *)
Definition activeDeals (d : gmap string Deal) : nat :=
  length (filter (λ x, status x ≠ "" ∧ status x ≠ "done") (map_to_list d).*2).

(** ** Text

    A string holds the UTF-8 encoding of the JavaScript string: the
    handlers compare, concatenate and cut text at ASCII characters, where
    both encodings agree. *)

(** The line feed of a template literal's [\n]. *)
Definition nl : string := String "010"%char "".

(** White space of [\s], [trim] and the number parsers: U+0009 to U+000D
    and U+0020 in one byte, U+00A0 in two, U+1680, U+2000 to U+200A,
    U+2028, U+2029, U+202F, U+205F, U+3000 and U+FEFF in three. *)
Definition ws1 (x : N) : bool := ((9 <=? x) && (x <=? 13) || (x =? 32))%N.

Definition ws2 (x y : N) : bool := ((x =? 194) && (y =? 160))%N.

Definition ws3 (x y z : N) : bool :=
  ((x =? 225) && (y =? 154) && (z =? 128)
   || (x =? 226) && (y =? 128)
      && ((128 <=? z) && (z <=? 138) || (z =? 168) || (z =? 169) || (z =? 175))
   || (x =? 226) && (y =? 129) && (z =? 159)
   || (x =? 227) && (y =? 128) && (z =? 128)
   || (x =? 239) && (y =? 187) && (z =? 191))%N.

(** The number of bytes of the white space character a text starts
    with, [0] when it starts with none. *)
Definition ws_width (s : string) : nat :=
  match s with
  | String a r =>
    if ws1 (N_of_ascii a) then 1
    else
      match r with
      | String b r' =>
        if ws2 (N_of_ascii a) (N_of_ascii b) then 2
        else
          match r' with
          | String c _ =>
            if ws3 (N_of_ascii a) (N_of_ascii b) (N_of_ascii c) then 3 else 0
          | EmptyString => 0
          end
      | EmptyString => 0
      end
  | EmptyString => 0
  end%nat.

(** [s.split(/\s+/)]: [skip] bytes of the current white space character
    are still to be passed, [in_sep] tells that a separator is being
    read, [cur] is the piece read so far. *)
Fixpoint split_ws_aux (skip : nat) (in_sep : bool) (cur s : string)
    : list string :=
  match s with
  | EmptyString => [cur]
  | String a s' =>
    match skip with
    | S k => split_ws_aux k in_sep cur s'
    | O =>
      match ws_width s with
      | O => split_ws_aux 0 false (cur +:+ String a "") s'
      | S w =>
        if in_sep then split_ws_aux w true cur s'
        else cur :: split_ws_aux w true "" s'
      end
    end
  end.

Definition split_ws (s : string) : list string := split_ws_aux 0 false "" s.

(** [s.trimStart()] *)
Fixpoint trimStart_aux (skip : nat) (s : string) : string :=
  match s with
  | EmptyString => ""
  | String _ s' =>
    match skip with
    | S k => trimStart_aux k s'
    | O =>
      match ws_width s with
      | O => s
      | S w => trimStart_aux w s'
      end
    end
  end.

Definition trimStart (s : string) : string := trimStart_aux 0 s.

Definition all_ws (s : string) : bool :=
  bool_decide (trimStart s = "").

(** [s.trimEnd()] *)
Fixpoint trimEnd (s : string) : string :=
  match s with
  | EmptyString => ""
  | String a s' => if all_ws s then "" else String a (trimEnd s')
  end.

(** [s.trim()] *)
Definition trim (s : string) : string := trimEnd (trimStart s).

(** [s.slice(n)] *)
Fixpoint string_drop (n : nat) (s : string) : string :=
  match n, s with
  | S k, String _ s' => string_drop k s'
  | _, _ => s
  end.

(** [s.replace(pat, rep)] for a string [pat] and a replacement without
    [$]: the first occurrence is replaced. *)
Fixpoint replace (pat rep s : string) : string :=
  if String.prefix pat s then rep +:+ string_drop (String.length pat) s
  else
    match s with
    | EmptyString => ""
    | String a s' => String a (replace pat rep s')
    end.

(** [s.includes(sub)] *)
Fixpoint includes (s sub : string) : bool :=
  String.prefix sub s
  || match s with
     | EmptyString => false
     | String _ s' => includes s' sub
     end.

(** ** [ensureLong] *)

Definition filler : string :=
  "💬 Мы всегда рядом, чтобы помочь с безопасной и прозрачной сделкой, сопровождение с момента создания до завершения.".

(** [text.split(/\s+/).filter(Boolean).length] *)
Definition words (text : string) : nat :=
  length (filter (λ w, w ≠ "") (split_ws text)).

Definition ensureLong (text : string) : string :=
  if (20 <=? words text)%nat then text
  else text +:+ nl +:+ nl +:+ filler.

(** ** [formatDateISO]; [iso] is [d.toISOString()] *)
Definition formatDateISO (iso : string) : string :=
  default "undefined" (split "." (replace "T" " " iso) !! 0%nat) +:+ " UTC".

(** ** The price keypad *)

(** [raw.replace(",", ".").replace(/^,+|,+$/g, "")] *)
Fixpoint drop_commas (s : string) : string :=
  match s with
  | String a s' => if Ascii.eqb a "," then drop_commas s' else s
  | EmptyString => ""
  end.

Fixpoint only_commas (s : string) : bool :=
  match s with
  | String a s' => Ascii.eqb a "," && only_commas s'
  | EmptyString => true
  end.

Fixpoint drop_trailing_commas (s : string) : string :=
  match s with
  | EmptyString => ""
  | String a s' => if only_commas s then "" else String a (drop_trailing_commas s')
  end.

Definition priceStr (raw : string) : string :=
  drop_trailing_commas (drop_commas (replace "," "." raw)).

(** The longest run of decimal digits a text starts with: its value on
    top of [acc], its length on top of [n], and the rest of the text. *)
Fixpoint digits (acc : Z) (n : nat) (s : string) : Z * nat * string :=
  match s with
  | String a s' =>
    if is_digit a
    then digits (10 * acc + (Z.of_N (N_of_ascii a) - 48)) (S n) s'
    else (acc, n, s)
  | EmptyString => (acc, n, s)
  end.

Definition sign (s : string) : bool * string :=
  match s with
  | String a s' =>
    if Ascii.eqb a "-" then (true, s')
    else if Ascii.eqb a "+" then (false, s')
    else (false, s)
  | EmptyString => (false, s)
  end.

(** The exponent part a text starts with, [0] when it starts with
    none: [e] or [E], a sign or none, digits. *)
Definition exponent (s : string) : Z :=
  match s with
  | String a s' =>
    if Ascii.eqb a "e" || Ascii.eqb a "E" then
      let '(neg, s'') := sign s' in
      let '(v, n, _) := digits 0 0 s'' in
      match n with
      | O => 0
      | S _ => if neg then - v else v
      end
    else 0
  | EmptyString => 0
  end.

Definition pow10 (e : Z) : Number :=
  if (0 <=? e)%Z then Q2Qc (inject_Z (10 ^ e))
  else Q2Qc (1 # Z.to_pos (10 ^ (- e))).

(** [parseFloat(s)]: leading white space, a sign, then [Infinity] or the
    longest decimal literal: digits, a dot and digits with at least one
    digit on one side, an exponent; the result is the binary64 value
    nearest to what the literal denotes. *)
Definition parseFloat (input : string) : Parsed :=
  let '(neg, s1) := sign (trimStart input) in
  if String.prefix "Infinity" s1 then PInfinity neg
  else
    let '(i, ni, s2) := digits 0 0 s1 in
    let '(f, nf, s3) :=
      match s2 with
      | String a r => if Ascii.eqb a "." then digits 0 0 r else (0, 0%nat, s2)
      | EmptyString => (0, 0%nat, s2)
      end in
    if (ni + nf =? 0)%nat then PNaN
    else
      let m := of_decimal (i * 10 ^ Z.of_nat nf + f) nf in
      rnd ((if neg then - m else m) * pow10 (exponent s3))%Qc.

(** [buf.slice(0, -1)]: the last character of a text that ends in an
    ASCII character is dropped; [None] for another ending, where what
    is dropped is not the last byte. *)
Fixpoint slice_0_m1 (s : string) : option string :=
  match s with
  | EmptyString => Some ""
  | String a EmptyString => if (N_of_ascii a <? 128)%N then Some "" else None
  | String a s' => String a <$> slice_0_m1 s'
  end.

(** The keys other than [done]. *)
Definition press (buf key : string) : option string :=
  if String.eqb key "dot" then
    Some (if includes buf "," then buf else buf +:+ ",")
  else if String.eqb key "back" then slice_0_m1 buf
  else Some (buf +:+ key).

(** ** The conversation state and the three entry points *)

(** [users[userId].temp] *)
Record Temp := {
  temp_type : option string;
  temp_title : option string;
  temp_desc : option string
}.

Definition empty_temp : Temp :=
  {| temp_type := None; temp_title := None; temp_desc := None |}.

(** [users[userId]]; a field that is [undefined] or [null] is [None]. *)
Record User := {
  lang : option string;
  stage : option string;
  temp : option Temp
}.

Definition empty_user : User :=
  {| lang := None; stage := None; temp := None |}.

Definition set_stage (u : User) (st : string) : User :=
  {| lang := lang u; stage := Some st; temp := temp u |}.

(** The caches of the process: the four JSON caches ([users._seq] is in
    [store]), the users and the price buffers. *)
Record Bot := {
  store : Store;
  users : gmap string User;
  priceBuffers : gmap string string
}.

Definition empty_bot : Bot :=
  {| store := empty_store; users := ∅; priceBuffers := ∅ |}.

Definition set_user (b : Bot) (k : string) (u : User) : Bot :=
  {| store := store b; users := <[k := u]> (users b);
     priceBuffers := priceBuffers b |}.

Definition set_store (b : Bot) (s : Store) : Bot :=
  {| store := s; users := users b; priceBuffers := priceBuffers b |}.

Definition set_buffer (b : Bot) (k : string) (buf : string) : Bot :=
  {| store := store b; users := users b;
     priceBuffers := <[k := buf]> (priceBuffers b) |}.

(** The locale objects. *)
Inductive Locale := RU | EN | AR.

(** [L(userId)] *)
Definition L (us : gmap string User) (userId : Z) : Locale :=
  let lang :=
    match us !! key userId with
    | Some u =>
      match lang u with
      | Some l => if String.eqb l "" then "en" else l
      | None => "en"
      end
    | None => "en"
    end in
  if String.eqb lang "ru" then RU
  else if String.eqb lang "ar" then AR
  else EN.

(** [bot.start] *)
Definition on_start (b : Bot) (userId : Z) : Bot :=
  let k := key userId in
  let u := default empty_user (users b !! k) in
  set_user b k
    {| lang := match lang u with
               | Some l => if String.eqb l "" then None else Some l
               | None => None
               end;
       stage := Some "choose_lang";
       temp := temp u |}.

(** A run of keys on one buffer. *)
Fixpoint press_all (buf : string) (keys : list string) : option string :=
  match keys with
  | [] => Some buf
  | k :: keys' => buf' ← press buf k; press_all buf' keys'
  end.

(** What the keypad can write: digits and at most one comma. *)
Definition is_buffer_char (a : ascii) : bool := is_digit a || Ascii.eqb a ",".

Fixpoint commas (s : string) : nat :=
  match s with
  | EmptyString => 0
  | String a s' => (if Ascii.eqb a "," then 1 else 0) + commas s'
  end.

Definition buffer_text (s : string) : Prop :=
  Forall (λ a, is_buffer_char a = true) (chars s) ∧ (commas s ≤ 1)%nat.

(** The keys the handler tells apart, [done] aside: a digit, [dot],
    [back]. *)
Definition buffer_key (k : string) : Prop :=
  k = "dot" ∨ k = "back" ∨ ∃ a, is_digit a = true ∧ k = String a "".

Definition all_digits (s : string) : Prop :=
  Forall (λ a, is_digit a = true) (chars s).

(** The number a string of digits denotes. *)
Definition decimal (s : string) : Z :=
  foldl (λ acc a, 10 * acc + (Z.of_N (N_of_ascii a) - 48)) 0 (chars s).

(** A text that starts with a digit or a dot. *)
Definition numeric_head (s : string) : Prop :=
  match s with
  | String x _ => is_digit x = true ∨ x = "."%char
  | EmptyString => False
  end.

Section Bot.
Variable OWNER_ID : Z.
(** [s.toLowerCase()] and [Number(s)] of a string *)
Variable toLowerCase : string → string.
Variable toNumber : string → Parsed.

(** Callback [num_done]: [b] already holds the buffer [raw]. *)
Definition num_done (b : Bot) (userId : Z) (u : User) (raw : string)
    (now : Time) : option Bot :=
  let k := key userId in
  match parseFloat (priceStr raw) with
  | PNaN => Some b
  | PInfinity true => Some b
  | PInfinity false => None
  | PFinite priceVal =>
    let temp := default empty_temp (temp u) in
    match createDeal (store b) userId (temp_type temp) (temp_title temp)
            (temp_desc temp) priceVal now with
    | (Created _, s') =>
      Some {| store := s';
              users := <[k := {| lang := lang u; stage := Some "menu";
                                 temp := Some empty_temp |}]> (users b);
              priceBuffers := delete k (priceBuffers b) |}
    | _ => Some b
    end
  end.

(** [bot.on("callback_query")]; [None] where the result leaves the
    model: a price of [Infinity], a buffer cut inside a character, and
    [seller_sent___proto__], which writes a status on
    [Object.prototype]. *)
Definition on_callback (b : Bot) (userId : Z) (data : string) (now : Time)
    : option Bot :=
  let k := key userId in
  let u := default empty_user (users b !! k) in
  let b := set_user b k u in
  match route data with
  | RLang l =>
    Some (set_user b k {| lang := Some l; stage := Some "menu"; temp := temp u |})
  | RCreateDeal => Some (set_user b k (set_stage u "choose_type"))
  | RType type =>
    Some (set_user b k
            {| lang := lang u; stage := Some "enter_title";
               temp := Some {| temp_type := type; temp_title := None;
                               temp_desc := None |} |})
  | RMenuBack => Some (set_user b k (set_stage u "menu"))
  | RNum key_ =>
    let key_ := default "undefined" key_ in
    let raw := default "" (priceBuffers b !! k) in
    let b := set_buffer b k raw in
    if String.eqb key_ "done" then num_done b userId u raw now
    else set_buffer b k <$> press raw key_
  | RJoinDeal => Some (set_user b k (set_stage u "join_wait_id"))
  | RView _ => Some b
  | RBuy dealId =>
    Some (set_store b (buy (store b) (default "undefined" dealId) userId now).2)
  | RSellerSent dealId =>
    if String.eqb (default "undefined" dealId) "__proto__" then None
    else
      Some (set_store b
              (seller_sent (store b) (default "undefined" dealId) userId now).2)
  | RBuyerReceived dealId =>
    Some (set_store b
            (buyer_received (store b) (default "undefined" dealId) userId now).2)
  | RBuyerProblem dealId =>
    Some (set_store b
            (buyer_problem (store b) (default "undefined" dealId) userId).2)
  | RHelpContact => Some b
  | RShowBalance => Some b
  | RIgnored => Some b
  end.

(** [bot.on("text")]; [None] where the result leaves the model: a
    credit of [Infinity], and a credit to a target that names a member
    of [Object.prototype], which leaves the balance [NaN]. *)
Definition on_text (b : Bot) (userId : Z) (message_text : string)
    : option Bot :=
  let k := key userId in
  let u := default {| lang := Some "en"; stage := Some "menu"; temp := None |}
             (users b !! k) in
  let b := set_user b k u in
  let text := trim message_text in
  if startsWith text "/givebalance" then
    let parts := split_ws text in
    if decide (userId ≠ OWNER_ID) then Some b
    else if (length parts <? 3)%nat then Some b
    else
      let target := default "undefined" (parts !! 1%nat) in
      match toNumber (default "undefined" (parts !! 2%nat)) with
      | PNaN => Some b
      | PInfinity _ => None
      | PFinite amt =>
        if proto_member target then None
        else
          Some (set_store b
                  (givebalance OWNER_ID (store b) userId target (Some amt)).2)
      end
  else if String.eqb text "/balance" || String.eqb (toLowerCase text) "баланс"
  then Some b
  else if bool_decide (stage u = Some "enter_title")
          || bool_decide (stage u = Some "create_title") then
    let t := default empty_temp (temp u) in
    Some (set_user b k
            {| lang := lang u; stage := Some "enter_desc";
               temp := Some {| temp_type := temp_type t; temp_title := Some text;
                               temp_desc := temp_desc t |} |})
  else if bool_decide (stage u = Some "enter_desc") then
    let t := default empty_temp (temp u) in
    Some (set_buffer
            (set_user b k
               {| lang := lang u; stage := Some "enter_price";
                  temp := Some {| temp_type := temp_type t;
                                  temp_title := temp_title t;
                                  temp_desc := Some text |} |})
            k "")
  else if bool_decide (stage u = Some "join_wait_id") then
    let dealId := trim text in
    match deals (store b) !! dealId with
    | None =>
      if proto_member dealId then Some (set_user b k (set_stage u "menu"))
      else Some b
    | Some _ => Some (set_user b k (set_stage u "menu"))
    end
  else Some b.

(** What Telegraf hands to the bot.  A text that starts with [/start]
    may be the start command, which goes to [bot.start] and not to the
    text handler; which texts the library takes for the command is not
    in the source: such a text is outside the model ([None]). *)
Inductive Event :=
| Start (userId : Z)
| Callback (userId : Z) (data : string) (now : Time)
| Text (userId : Z) (message_text : string).

Definition handle (b : Bot) (e : Event) : option Bot :=
  match e with
  | Start u => Some (on_start b u)
  | Callback u data now => on_callback b u data now
  | Text u t => if startsWith t "/start" then None else on_text b u t
  end.

Fixpoint handle_all (b : Bot) (es : list Event) : option Bot :=
  match es with
  | [] => Some b
  | e :: es' => b' ← handle b e; handle_all b' es'
  end.
End Bot.

(** ** The seller's conversation *)

(** The key that writes a character of the buffer. *)
Definition key_of (a : ascii) : string :=
  if Ascii.eqb a "," then "dot" else String a "".

(** The callbacks of the keys that write [amount]. *)
Definition typing (userId : Z) (amount : string) (now : Time) : list Event :=
  (λ a, Callback userId ("num_" +:+ key_of a) now) <$> chars amount.

(** A message the text handler is handed and reads as a title, a
    description or a deal id: not one that starts with [/start], and
    not [/givebalance], [/balance] or its Russian word. *)
Definition plain_text (toLowerCase : string → string) (message_text : string)
    : Prop :=
  startsWith message_text "/start" = false
  ∧ startsWith (trim message_text) "/givebalance" = false
  ∧ trim message_text ≠ "/balance"
  ∧ toLowerCase (trim message_text) ≠ "баланс".

(** A word of ASCII characters other than white space and controls. *)
Definition is_printable (a : ascii) : bool :=
  (33 <=? N_of_ascii a)%N && (N_of_ascii a <? 128)%N.

Definition printable_word (s : string) : Prop :=
  s ≠ "" ∧ Forall (λ a, is_printable a = true) (chars s).

(** Texts made of printable characters and spaces that end in a
    printable character. *)
Inductive tidy : string → Prop :=
| tidy_last a : is_printable a = true → tidy (String a "")
| tidy_printable a s : is_printable a = true → tidy s → tidy (String a s)
| tidy_space s : tidy s → tidy (String " " s).

(** * The handlers on the numbers of the machine

    The handlers once more, with the amounts as binary64 numbers and the
    caches as the objects they are: [obj[k]] finds an own property, or
    else a member of [Object.prototype] when [k] names one.
    [Object.prototype] is taken as the language provides it: a run of
    the handlers ends ([run] answers [None]) where a handler writes on
    it. *)

Module Js.

(** [Number(x.toFixed(8))]: [toFixed] prints the nearest multiple of
    10^-8 of a finite value below 10^21, ties away from zero, and
    [Number] reads the print back; larger values, [NaN] and the
    infinities print in a way that reads back as themselves. *)
Definition toFixed8 (x : Parsed) : Parsed :=
  match x with
  | PFinite v =>
    if Qle_bool (inject_Z (10 ^ 21)) (Qabs (this v)) then x
    else rnd (Num.toFixed8 v)
  | _ => x
  end.

(** [x + y] *)
Definition add (x y : Parsed) : Parsed :=
  match x, y with
  | PNaN, _ | _, PNaN => PNaN
  | PInfinity a, PInfinity b => if Bool.eqb a b then x else PNaN
  | PInfinity _, _ => x
  | _, PInfinity _ => y
  | PFinite a, PFinite b => rnd (a + b)%Qc
  end.

Definition neg (x : Parsed) : Parsed :=
  match x with
  | PNaN => PNaN
  | PInfinity a => PInfinity (negb a)
  | PFinite a => PFinite (- a)%Qc
  end.

(** [x - y] *)
Definition sub (x y : Parsed) : Parsed := add x (neg y).

(** [x < y] *)
Definition lt (x y : Parsed) : bool :=
  match x, y with
  | PNaN, _ | _, PNaN => false
  | PInfinity a, PInfinity b => a && negb b
  | PInfinity a, PFinite _ => a
  | PFinite _, PInfinity b => negb b
  | PFinite a, PFinite b => bool_decide (a < b)%Qc
  end.

(** [x <= 0] *)
Definition le0 (x : Parsed) : bool :=
  match x with
  | PNaN => false
  | PInfinity a => a
  | PFinite a => bool_decide (a ≤ 0)%Qc
  end.

(** [!x] *)
Definition falsy (x : Parsed) : bool :=
  match x with
  | PNaN => true
  | PInfinity _ => false
  | PFinite a => bool_decide (a = 0%Qc)
  end.

Definition isNaN (x : Parsed) : bool :=
  match x with PNaN => true | _ => false end.

(** [Number(x || 0)] for a number [x] or [undefined] *)
Definition or0 (x : option Parsed) : Parsed :=
  match x with
  | Some v => if falsy v then PFinite 0%Qc else v
  | None => PFinite 0%Qc
  end.

Record Deal := {
  id : string;
  seller : Z;
  buyer : option Z;
  title : option string;
  desc : option string;
  type : string;
  price : Parsed;
  status : Status;
  locked : Parsed;
  created_at : Time;
  locked_at : option Time;
  sent_at : option Time;
  completed_at : option Time
}.

Record LogEntry := {
  log_id : string;
  log_seller : Z;
  log_buyer : Z;
  log_amount : Parsed;
  log_title : option string;
  log_desc : option string;
  log_completed_at : Time
}.

Record Store := {
  _seq : SeqCounter;
  balances : gmap string Parsed;
  deals : gmap string Deal;
  logs : gmap string LogEntry
}.

Definition empty_store : Store :=
  {| _seq := Seq.init; balances := ∅; deals := ∅; logs := ∅ |}.

(** Callback [num_done] with the parsed price [priceVal]:
    [!priceVal || isNaN(priceVal) || priceVal <= 0] refuses. *)
Definition createDeal (s : Store) (userId : Z)
    (temp_type temp_title temp_desc : option string)
    (priceVal : Parsed) (now : Time) : Outcome * Store :=
  if falsy priceVal || isNaN priceVal || le0 priceVal then (InvalidPrice, s)
  else
    let '(id, seq') := nextDealId (_seq s) in
    let deal :=
      {| id := id; seller := userId; buyer := None;
         title := temp_title; desc := temp_desc;
         type := match temp_type with
                 | Some t => if decide (t = "") then "NFT" else t
                 | None => "NFT"
                 end;
         price := toFixed8 priceVal;
         status := "open"; locked := PFinite 0%Qc;
         created_at := now; locked_at := None; sent_at := None;
         completed_at := None |} in
    (Created id,
     {| _seq := seq'; balances := balances s;
        deals := <[id := deal]> (deals s); logs := logs s |}).

(** Callback [buy_<dealId>]; an inherited [deals[dealId]] has no status
    [open]. *)
Definition buy (s : Store) (dealId : string) (userId : Z) (now : Time)
    : Outcome * Store :=
  match deals s !! dealId with
  | None => if proto_member dealId then (InvalidState, s) else (NotFound, s)
  | Some deal =>
    if decide (status deal ≠ "open") then (InvalidState, s)
    else
      let buyerId := userId in
      let bal := or0 (balances s !! key buyerId) in
      let price_ := or0 (Some (price deal)) in
      if lt bal price_ then (InsufficientFunds, s)
      else
        let deal' :=
          {| id := id deal; seller := seller deal; buyer := Some buyerId;
             title := title deal; desc := desc deal; type := type deal;
             price := price deal; status := "in_progress"; locked := price_;
             created_at := created_at deal; locked_at := Some now;
             sent_at := sent_at deal; completed_at := completed_at deal |} in
        (Ok,
         {| _seq := _seq s;
            balances := <[key buyerId := toFixed8 (sub bal price_)]> (balances s);
            deals := <[dealId := deal']> (deals s);
            logs := logs s |})
  end.

(** Callback [seller_sent_<dealId>]; on an inherited [deals[dealId]] the
    status is written on a member of [Object.prototype], outside the
    caches: on a function, or for the id [__proto__] on
    [Object.prototype] itself. *)
Definition seller_sent (s : Store) (dealId : string) (userId : Z) (now : Time)
    : Outcome * Store :=
  match deals s !! dealId with
  | None => if proto_member dealId then (Ok, s) else (NotFound, s)
  | Some deal =>
    let deal' :=
      {| id := id deal; seller := seller deal; buyer := buyer deal;
         title := title deal; desc := desc deal; type := type deal;
         price := price deal; status := "sent_to_support"; locked := locked deal;
         created_at := created_at deal; locked_at := locked_at deal;
         sent_at := Some now; completed_at := completed_at deal |} in
    (Ok,
     {| _seq := _seq s; balances := balances s;
        deals := <[dealId := deal']> (deals s); logs := logs s |})
  end.

(** [!deal.buyer]: no buyer recorded, or the id [0]. *)
Definition truthy_buyer (deal : Deal) : option Z :=
  match buyer deal with
  | Some b => if decide (b = 0) then None else Some b
  | None => None
  end.

(** Callback [buyer_received_<dealId>]; an inherited [deals[dealId]] has
    no buyer.  The completion record is written after the two [await]s
    of [saveJson]; it is taken to be written in the same step. *)
Definition buyer_received (s : Store) (dealId : string) (userId : Z) (now : Time)
    : Outcome * Store :=
  match deals s !! dealId with
  | None => if proto_member dealId then (NoBuyer, s) else (NotFound, s)
  | Some deal =>
    match truthy_buyer deal with
    | None => (NoBuyer, s)
    | Some dealBuyer =>
      let sellerId := seller deal in
      let amount := or0 (Some (locked deal)) in
      let deal' :=
        {| id := id deal; seller := seller deal; buyer := buyer deal;
           title := title deal; desc := desc deal; type := type deal;
           price := price deal; status := "done"; locked := PFinite 0%Qc;
           created_at := created_at deal; locked_at := locked_at deal;
           sent_at := sent_at deal; completed_at := Some now |} in
      let logEntry :=
        {| log_id := dealId; log_seller := sellerId; log_buyer := dealBuyer;
           log_amount := amount; log_title := title deal;
           log_desc := desc deal; log_completed_at := now |} in
      (Ok,
       {| _seq := _seq s;
          balances :=
            <[key sellerId :=
                toFixed8 (add (or0 (balances s !! key sellerId)) amount)]>
              (balances s);
          deals := <[dealId := deal']> (deals s);
          logs := <[dealId := logEntry]> (logs s) |})
    end
  end.

(** Callback [buyer_problem_<dealId>]: the owner and the seller are
    told; no cache is written. *)
Definition buyer_problem (s : Store) (dealId : string) (userId : Z)
    : Outcome * Store :=
  match deals s !! dealId with
  | None => if proto_member dealId then (Ok, s) else (NotFound, s)
  | Some deal => (Ok, s)
  end.

Section Owner.
Variable OWNER_ID : Z.

(** Text [/givebalance <target> <amount>]; [amt] is [Number(parts[2])].
    An inherited [balances[target]] is a function or an object, whose
    number is [NaN]; the assignment to [__proto__] of a number is
    without effect. *)
Definition givebalance (s : Store) (fromId : Z) (target : string)
    (amt : Parsed) : Outcome * Store :=
  if decide (fromId ≠ OWNER_ID) then (Ignored, s)
  else if isNaN amt then (BadAmount, s)
  else
    let bal :=
      match balances s !! target with
      | Some v => or0 (Some v)
      | None => if proto_member target then PNaN else PFinite 0%Qc
      end in
    let v := toFixed8 (add bal amt) in
    (Ok,
     if String.eqb target "__proto__" then s
     else {| _seq := _seq s; balances := <[target := v]> (balances s);
             deals := deals s; logs := logs s |}).

Inductive Op :=
| CreateDeal (userId : Z) (temp_type temp_title temp_desc : option string)
             (priceVal : Parsed) (now : Time)
| Buy (dealId : string) (userId : Z) (now : Time)
| MarkSent (dealId : string) (userId : Z) (now : Time)
| ConfirmReceived (dealId : string) (userId : Z) (now : Time)
| ReportProblem (dealId : string) (userId : Z)
| AdminCredit (fromId : Z) (target : string) (amt : Parsed).

Definition step (s : Store) (o : Op) : Outcome * Store :=
  match o with
  | CreateDeal u ty ti de p now => createDeal s u ty ti de p now
  | Buy d u now => buy s d u now
  | MarkSent d u now => seller_sent s d u now
  | ConfirmReceived d u now => buyer_received s d u now
  | ReportProblem d u => buyer_problem s d u
  | AdminCredit f t a => givebalance s f t a
  end.

(** [seller_sent___proto__] gives [Object.prototype] a [status] and a
    [sent_at], which every object of the program and of its libraries
    then inherits: what follows is not determined by the source. *)
Definition writes_prototype (o : Op) : bool :=
  match o with
  | MarkSent d _ _ => String.eqb d "__proto__"
  | _ => false
  end.

Fixpoint run (s : Store) (ops : list Op) : option Store :=
  match ops with
  | [] => Some s
  | o :: ops' => if writes_prototype o then None else run (step s o).2 ops'
  end.
End Owner.

(** The amount as [toFixed(8)] prints it; [NaN] and the infinities
    count for nothing. *)
Definition decimal (x : Parsed) : Number :=
  match x with
  | PFinite v => Num.toFixed8 v
  | _ => 0%Qc
  end.

(** Every stored amount is a [Number(y.toFixed(8))]. *)
Definition rounded (x : Parsed) : Prop := ∃ y, x = toFixed8 y.

Definition clean (s : Store) : Prop :=
  map_Forall (λ _ v, rounded v) (balances s)
  ∧ map_Forall (λ _ d, rounded (price d) ∧ rounded (locked d)) (deals s).

(** The sum of all balances and of all locked amounts, each as
    [toFixed(8)] prints it. *)
Definition total (s : Store) : Number :=
  (map_fold (λ _ v acc, acc + decimal v) 0 (balances s)
   + map_fold (λ _ d acc, acc + decimal (locked d)) 0 (deals s))%Qc.
End Js.

(** ** The ledger in decimals and the caches of the machine

    A store of the first part, whose amounts are decimals with 8
    places, stands for the caches that hold the binary64 value nearest
    to each amount. *)

(** The number that holds [n * 10^-8]: what [Number] reads from the
    print of that decimal. *)
Definition dec8 (n : Z) : Parsed := rnd (grid n).

(** [x] is finite and, counted in units of 10^-8, within [δ] of [r]. *)
Definition near (x : Parsed) (r δ : Q) : Prop :=
  ∃ v, x = PFinite v
       ∧ (r - δ <= this v * (100000000 # 1) <= r + δ)%Q.

Definition js_deal (d : Deal) : Js.Deal :=
  {| Js.id := id d; Js.seller := seller d; Js.buyer := buyer d;
     Js.title := title d; Js.desc := desc d; Js.type := type d;
     Js.price := rnd (price d); Js.status := status d;
     Js.locked := rnd (locked d); Js.created_at := created_at d;
     Js.locked_at := locked_at d; Js.sent_at := sent_at d;
     Js.completed_at := completed_at d |}.

Definition js_log (e : LogEntry) : Js.LogEntry :=
  {| Js.log_id := log_id e; Js.log_seller := log_seller e;
     Js.log_buyer := log_buyer e; Js.log_amount := rnd (log_amount e);
     Js.log_title := log_title e; Js.log_desc := log_desc e;
     Js.log_completed_at := log_completed_at e |}.

Definition js_store (s : Store) : Js.Store :=
  {| Js._seq := _seq s; Js.balances := rnd <$> balances s;
     Js.deals := js_deal <$> deals s; Js.logs := js_log <$> logs s |}.

Definition js_op (o : Op) : Js.Op :=
  match o with
  | CreateDeal u ty ti de p now => Js.CreateDeal u ty ti de (rnd p) now
  | Buy d u now => Js.Buy d u now
  | MarkSent d u now => Js.MarkSent d u now
  | ConfirmReceived d u now => Js.ConfirmReceived d u now
  | ReportProblem d u => Js.ReportProblem d u
  | AdminCredit f t (Some a) => Js.AdminCredit f t (rnd a)
  | AdminCredit f t None => Js.AdminCredit f t PNaN
  end.

(** The amounts for which the arithmetic of the machine is that of the
    decimals: multiples [n * 10^-8] with [|n| <= 2^49], that is up to
    5629499.53421312. *)
Definition cap : Z := 2 ^ 49.

Definition units (v : Number) : Z :=
  round_half_away (this v * inject_Z 100000000)%Q.

Definition smallb (v : Number) : bool :=
  bool_decide (v = grid (units v)) && (Z.abs (units v) <=? cap).

Definition small_store (s : Store) : bool :=
  forallb smallb (map_to_list (balances s)).*2
  && forallb (λ d, smallb (price d) && smallb (locked d))
       (map_to_list (deals s)).*2.

(** An operation within the amounts above; a credit names a key of its
    own, and nothing is written on [Object.prototype]. *)
Definition small_op (o : Op) : bool :=
  match o with
  | CreateDeal _ _ _ _ p _ => smallb p
  | MarkSent d _ _ => negb (String.eqb d "__proto__")
  | AdminCredit _ t (Some a) => smallb a && negb (proto_member t)
  | _ => true
  end.

(** Every store of the run and every operation is within the amounts
    above. *)
Fixpoint stays_small (OWNER_ID : Z) (s : Store) (ops : list Op) : bool :=
  match ops with
  | [] => small_store s
  | o :: ops' =>
    small_store s && small_op o
    && stays_small OWNER_ID (step OWNER_ID s o).2 ops'
  end.

(** * Properties *)

(** ** Rounding to eight decimals *)

Section Rounding.
Local Open Scope Qc_scope.

Lemma round_half_away_Z (q : Q) (n : Z) :
  (q == inject_Z n)%Q → round_half_away q = n.
Proof.
  intros Hq. unfold round_half_away.
  assert (Hfl : ∀ m : Z, Qfloor (inject_Z m + (1 # 2))%Q = m).
  { intros m. unfold Qfloor, Qplus, inject_Z; simpl.
    symmetry. apply Z.div_unique with 1%Z; lia. }
  destruct (Qle_bool 0 q).
  - rewrite Hq. apply Hfl.
  - rewrite Hq. change (- inject_Z n)%Q with (inject_Z (- n)).
    rewrite Hfl. lia.
Qed.

Lemma grid_scaled (n : Z) :
  (this (grid n) * inject_Z 100000000 == inject_Z n)%Q.
Proof.
  unfold grid; simpl. rewrite Qred_correct.
  unfold Qeq, Qmult, inject_Z; simpl. lia.
Qed.

Lemma toFixed8_grid (n : Z) : toFixed8 (grid n) = grid n.
Proof.
  unfold toFixed8. f_equal. apply round_half_away_Z, grid_scaled.
Qed.

Lemma toFixed8_on_grid (x : Number) : on_grid (toFixed8 x).
Proof. unfold toFixed8. eexists; reflexivity. Qed.

Lemma toFixed8_id (x : Number) : on_grid x → toFixed8 x = x.
Proof. intros [n ->]. apply toFixed8_grid. Qed.

Lemma on_grid_fixpoint (x : Number) : on_grid x ↔ toFixed8 x = x.
Proof.
  split; [apply toFixed8_id|]. intros <-. apply toFixed8_on_grid.
Qed.

Lemma grid_0 : grid 0 = 0.
Proof. apply Qc_is_canon. reflexivity. Qed.

Lemma grid_plus (a b : Z) : grid a + grid b = grid (a + b).
Proof.
  apply Qc_is_canon. unfold grid; simpl. rewrite !Qred_correct.
  unfold Qeq, Qplus; simpl. lia.
Qed.

Lemma grid_opp (a : Z) : - grid a = grid (- a).
Proof.
  apply Qc_is_canon. unfold grid; simpl. rewrite !Qred_correct.
  unfold Qeq, Qopp; simpl. lia.
Qed.

Lemma on_grid_0 : on_grid 0.
Proof. exists 0%Z. symmetry. apply grid_0. Qed.

Lemma on_grid_plus (x y : Number) : on_grid x → on_grid y → on_grid (x + y).
Proof. intros [a ->] [b ->]. exists (a + b)%Z. apply grid_plus. Qed.

Lemma on_grid_minus (x y : Number) : on_grid x → on_grid y → on_grid (x - y).
Proof.
  intros [a ->] [b ->]. exists (a + - b)%Z.
  unfold Qcminus. rewrite grid_opp. apply grid_plus.
Qed.

Lemma grid_nonneg (n : Z) : (0 <= n)%Z → 0 ≤ grid n.
Proof.
  intros Hn. unfold Qcle, grid; simpl.
  rewrite (Qred_correct (n # 100000000)).
  unfold Qle; simpl. lia.
Qed.

Lemma toFixed8_nonneg (x : Number) : 0 ≤ x → 0 ≤ toFixed8 x.
Proof.
  intros Hx. unfold toFixed8. apply grid_nonneg.
  assert (Hs : (0 <= this x * inject_Z 100000000)%Q).
  { apply Qmult_le_0_compat; [exact Hx | discriminate]. }
  unfold round_half_away.
  destruct (Qle_bool 0 (this x * inject_Z 100000000)) eqn:E.
  - change 0%Z with (Qfloor 0). apply Qfloor_resp_le.
    rewrite <- (Qplus_0_r 0). apply Qplus_le_compat; [exact Hs | discriminate].
  - apply Qle_bool_iff in Hs. congruence.
Qed.
End Rounding.

(** ** The sequence generator *)

Section StringOrder.
Lemma string_compare_trans (s1 : string) :
  ∀ s2 s3, String.compare s1 s2 = Lt → String.compare s2 s3 = Lt →
           String.compare s1 s3 = Lt.
Proof.
  induction s1 as [|a s1 IH]; intros [|b s2] [|c s3]; simpl; try done.
  unfold Ascii.compare.
  destruct (N.compare_spec (N_of_ascii a) (N_of_ascii b)) as [Hab|Hab|Hab];
    destruct (N.compare_spec (N_of_ascii b) (N_of_ascii c)) as [Hbc|Hbc|Hbc];
    try done; intros H1 H2.
  - rewrite Hab, Hbc, N.compare_refl. by apply (IH s2).
  - rewrite Hab. by apply N.compare_lt_iff in Hbc as ->.
  - rewrite <- Hbc. by apply N.compare_lt_iff in Hab as ->.
  - assert (Hac : (N_of_ascii a < N_of_ascii c)%N) by lia.
    by apply N.compare_lt_iff in Hac as ->.
Qed.

Lemma string_compare_refl (s : string) : String.compare s s = Eq.
Proof.
  induction s as [|a s IH]; simpl; [done|].
  unfold Ascii.compare. by rewrite N.compare_refl.
Qed.

Global Instance str_lt_trans : Transitive str_lt.
Proof.
  intros s1 s2 s3. unfold str_lt, String.ltb.
  destruct (String.compare s1 s2) eqn:H12; try done.
  destruct (String.compare s2 s3) eqn:H23; try done.
  by rewrite (string_compare_trans s1 s2 s3).
Qed.

Global Instance str_lt_irrefl : Irreflexive str_lt.
Proof.
  intros s. unfold complement, str_lt, String.ltb.
  by rewrite string_compare_refl.
Qed.

Lemma StronglySorted_str_lt_NoDup (l : list string) :
  StronglySorted str_lt l → NoDup l.
Proof.
  induction 1 as [|a l _ IH Hall]; constructor; [|done].
  intros Hin. rewrite Forall_forall in Hall.
  by apply (str_lt_irrefl a), Hall.
Qed.
End StringOrder.

Lemma nextDealId_id (c : SeqCounter) : (nextDealId c).1 = render c.
Proof.
  unfold nextDealId. destruct (9999 <? number c + 1); [|done].
  by destruct (N_of_ascii "Z" <? N_of_ascii (letter c) + 1)%N.
Qed.

Lemma nextDealId_state (c : SeqCounter) :
  (nextDealId c).2
  = if 9999 <? number c + 1 then
      if (N_of_ascii "Z" <? N_of_ascii (letter c) + 1)%N
      then {| letter := "A"; number := 1000 |}
      else {| letter := ascii_of_N (N_of_ascii (letter c) + 1); number := 1000 |}
    else {| letter := letter c; number := number c + 1 |}.
Proof.
  unfold nextDealId. destruct (9999 <? number c + 1); [|done].
  by destruct (N_of_ascii "Z" <? N_of_ascii (letter c) + 1)%N.
Qed.

Lemma render_inj (c c' : SeqCounter) : render c = render c' → c = c'.
Proof.
  destruct c as [l n], c' as [l' n']. unfold render; simpl.
  intros [= -> Hn]. f_equal. by apply pretty_Z_inj.
Qed.

Section Cycle.
Context (c : SeqCounter) (Hc : wf_counter c).

Lemma nextDealId_wf : wf_counter (nextDealId c).2.
Proof.
  destruct Hc as [Hl Hn]. rewrite nextDealId_state. unfold wf_counter.
  change (N_of_ascii "Z") with 90%N.
  destruct (Z.ltb_spec 9999 (number c + 1)); cbn [letter number]; [|lia].
  destruct (N.ltb_spec 90 (N_of_ascii (letter c) + 1)); cbn [letter number].
  - change (Z.of_N (N_of_ascii "A")) with 65. lia.
  - rewrite N_ascii_embedding by lia. lia.
Qed.

Lemma nextDealId_idx : idx (nextDealId c).2 = (idx c + 1) `mod` cycle.
Proof.
  destruct Hc as [Hl Hn]. rewrite nextDealId_state. unfold idx, cycle.
  change (N_of_ascii "Z") with 90%N.
  destruct (Z.ltb_spec 9999 (number c + 1)); cbn [letter number].
  - destruct (N.ltb_spec 90 (N_of_ascii (letter c) + 1)); cbn [letter number].
    + change (Z.of_N (N_of_ascii "A")) with 65.
      assert (Z.of_N (N_of_ascii (letter c)) = 90) as -> by lia.
      assert (number c = 9999) as -> by lia. reflexivity.
    + rewrite N_ascii_embedding by lia.
      rewrite Z.mod_small by lia. lia.
  - rewrite Z.mod_small by lia. lia.
Qed.

Lemma idx_range : 0 ≤ idx c < cycle.
Proof. destruct Hc as [Hl Hn]. unfold idx, cycle. lia. Qed.
End Cycle.

Lemma idx_inj (c c' : SeqCounter) :
  wf_counter c → wf_counter c' → idx c = idx c' → c = c'.
Proof.
  intros [Hl Hn] [Hl' Hn'] Hi. unfold idx in Hi.
  assert (Z.of_N (N_of_ascii (letter c)) = Z.of_N (N_of_ascii (letter c'))) as Hll by lia.
  assert (number c = number c') as Hnn by lia.
  destruct c as [l n], c' as [l' n']; simpl in *. subst n'. f_equal.
  rewrite <- (ascii_N_embedding l), <- (ascii_N_embedding l'). f_equal. lia.
Qed.

Lemma after_cycle (n : nat) :
  ∀ c, wf_counter c →
       wf_counter (after n c) ∧ idx (after n c) = (idx c + Z.of_nat n) `mod` cycle.
Proof.
  induction n as [|n IH]; intros c Hc; simpl.
  - split; [done|]. rewrite Z.add_0_r, Z.mod_small; [done|]. by apply idx_range.
  - destruct (IH _ (nextDealId_wf c Hc)) as [Hwf Hidx]. split; [done|].
    rewrite Hidx, nextDealId_idx by done.
    rewrite Z.add_mod_idemp_l by done. f_equal. lia.
Qed.

(** The counter comes back after 234000 calls and not before. *)
Lemma after_full_cycle (c : SeqCounter) :
  wf_counter c → after (Z.to_nat cycle) c = c.
Proof.
  intros Hc. destruct (after_cycle (Z.to_nat cycle) c Hc) as [Hwf Hidx].
  apply idx_inj; [done..|]. rewrite Hidx.
  rewrite Z2Nat.id by done. pose proof (idx_range c Hc) as Hr.
  unfold cycle in *. rewrite <- (Z.mul_1_l 234000) at 1.
  rewrite Z.mod_add by done. by apply Z.mod_small.
Qed.

Lemma after_within_cycle (c : SeqCounter) (n : nat) :
  wf_counter c → 0 < Z.of_nat n < cycle → render (after n c) ≠ render c.
Proof.
  intros Hc Hn Heq%render_inj.
  destruct (after_cycle n c Hc) as [_ Hidx]. rewrite Heq in Hidx.
  pose proof (idx_range c Hc) as Hr. unfold cycle in *.
  pose proof (Z.mod_pos_bound (idx c + Z.of_nat n) 234000 eq_refl) as Hm.
  pose proof (Z.div_mod (idx c + Z.of_nat n) 234000 ltac:(done)) as Hdm.
  rewrite <- Hidx in Hdm.
  assert ((idx c + Z.of_nat n) `div` 234000 = 0 ∨ (idx c + Z.of_nat n) `div` 234000 = 1
          ∨ (idx c + Z.of_nat n) `div` 234000 < 0 ∨ 2 ≤ (idx c + Z.of_nat n) `div` 234000)
    as [H|[H|[H|H]]] by lia; nia.
Qed.

Lemma after_succ (n : nat) : ∀ c, after (S n) c = (nextDealId (after n c)).2.
Proof. induction n as [|n IH]; intros c; [done|]. apply (IH (nextDealId c).2). Qed.

Lemma ids_S (n : nat) (c : SeqCounter) :
  ids (S n) c = render c :: ids n (nextDealId c).2.
Proof.
  simpl. pose proof (nextDealId_id c) as Hid.
  destruct (nextDealId c) as [i c']; simpl in *. by subst i.
Qed.

Lemma elem_of_ids (x : string) (n : nat) :
  ∀ c, x ∈ ids n c → ∃ j, (j < n)%nat ∧ x = render (after j c).
Proof.
  induction n as [|n IH]; intros c.
  - by intros ?%elem_of_nil.
  - rewrite ids_S. intros [->|Hx]%elem_of_cons.
    + exists 0%nat. split; [lia | done].
    + destruct (IH _ Hx) as (j & Hj & ->). exists (S j). split; [lia | done].
Qed.

(** Any 234000 successive ids are pairwise distinct. *)
Lemma ids_NoDup (n : nat) :
  ∀ c, wf_counter c → Z.of_nat n ≤ cycle → NoDup (ids n c).
Proof.
  induction n as [|n IH]; intros c Hc Hn; [constructor|].
  rewrite ids_S. constructor.
  - intros (j & Hj & Heq)%elem_of_ids.
    apply (after_within_cycle c (S j) Hc); [lia | done].
  - apply IH; [by apply nextDealId_wf | lia].
Qed.

Lemma pretty_succ_lt (n : Z) :
  1000 ≤ n < 9999 → str_lt (pretty n) (pretty (n + 1)).
Proof.
  assert (Hall : Forall (λ n : Z, str_lt (pretty n) (pretty (n + 1)))
                        (seqZ 1000 8999)) by compute_done.
  intros Hn. rewrite Forall_forall in Hall. apply Hall.
  apply elem_of_seqZ. lia.
Qed.

Lemma render_next_lt (c : SeqCounter) :
  wf_counter c → idx c + 1 < cycle → str_lt (render c) (render (nextDealId c).2).
Proof.
  intros [Hl Hn] Hi. rewrite nextDealId_state. unfold idx, cycle in Hi.
  change (N_of_ascii "Z") with 90%N.
  unfold str_lt, String.ltb, render.
  destruct (Z.ltb_spec 9999 (number c + 1)); cbn [letter number].
  - destruct (N.ltb_spec 90 (N_of_ascii (letter c) + 1)); [lia|].
    cbn [letter number]. simpl. unfold Ascii.compare.
    rewrite N_ascii_embedding by lia.
    by rewrite (proj2 (N.compare_lt_iff _ _)) by lia.
  - simpl. unfold Ascii.compare. rewrite N.compare_refl.
    assert (Hp : str_lt (pretty (number c)) (pretty (number c + 1)))
      by (apply pretty_succ_lt; lia).
    exact Hp.
Qed.

(** Successive ids increase as long as the letter does not wrap. *)
Lemma ids_Sorted (n : nat) :
  ∀ c, wf_counter c → idx c + Z.of_nat n ≤ cycle → Sorted str_lt (ids n c).
Proof.
  induction n as [|n IH]; intros c Hc Hn; [constructor|].
  rewrite ids_S. pose proof (idx_range c Hc) as Hr.
  destruct n as [|n].
  - repeat constructor.
  - assert (Hi : idx (nextDealId c).2 = idx c + 1).
    { rewrite nextDealId_idx by done. apply Z.mod_small. lia. }
    constructor.
    + apply IH; [by apply nextDealId_wf | lia].
    + rewrite ids_S. constructor. apply render_next_lt; [done | lia].
Qed.

Lemma ids_app (n m : nat) :
  ∀ c, ids (n + m) c = ids n c ++ ids m (after n c).
Proof.
  induction n as [|n IH]; intros c; [done|].
  change (S n + m)%nat with (S (n + m)). rewrite !ids_S, IH. by cbn.
Qed.

(** C8 (as stated, refuted).  In the counter state A9999 the call
    returns "#A9999", not "#B1000", which is the id of the call after
    it; and the 1000 ids issued from Z9500 on pass Z9999 and are not
    increasing: "#Z9999" is followed by "#A1000". *)
Lemma next_id_in_state_A9999 :
  (nextDealId {| letter := "A"; number := 9999 |}).1 = "#A9999"
  ∧ (nextDealId {| letter := "A"; number := 9999 |}).1 ≠ "#B1000"
  ∧ wf_counter {| letter := "Z"; number := 9500 |}
  ∧ ids 1000 {| letter := "Z"; number := 9500 |} !! 499%nat = Some "#Z9999"
  ∧ ids 1000 {| letter := "Z"; number := 9500 |} !! 500%nat = Some "#A1000"
  ∧ ¬ StronglySorted str_lt (ids 1000 {| letter := "Z"; number := 9500 |}).
Proof.
  split; [reflexivity|]. split; [discriminate|].
  split; [unfold wf_counter; simpl; lia|].
  split; [vm_compute; reflexivity|]. split; [vm_compute; reflexivity|].
  change 1000%nat with (499 + 501)%nat. rewrite ids_app.
  intros H%StronglySorted_app_1_r.
  assert (after 499 {| letter := "Z"; number := 9500 |}
          = {| letter := "Z"; number := 9999 |}) as E by (vm_compute; reflexivity).
  rewrite E in H. change 501%nat with (S (S 499)) in H.
  do 2 rewrite ids_S in H. apply StronglySorted_cons in H as [H _].
  apply List.Forall_inv in H. vm_compute in H. discriminate H.
Qed.

(** C8 (as amended).  The first id is "#A7342"; a call returns "#", the
    letter and the number of the counter, then advances the counter:
    the number by one, or past 9999 to 1000 under the next letter, or
    past Z9999 to A1000; the two calls from A9999 on return "#A9999"
    and "#B1000"; 1000 successive ids are pairwise distinct, and
    strictly increasing unless they pass Z9999, as are the 1000 ids
    issued from A9999 on. *)
Theorem nextDealId_sequence :
  (nextDealId Seq.init).1 = "#A7342"
  ∧ (∀ c, (nextDealId c).1 = "#" +:+ String (letter c) "" +:+ pretty (number c))
  ∧ (∀ c, number c + 1 ≤ 9999 →
          (nextDealId c).2 = {| letter := letter c; number := number c + 1 |})
  ∧ (∀ c, number c + 1 > 9999 → (N_of_ascii (letter c) < N_of_ascii "Z")%N →
          (nextDealId c).2
          = {| letter := ascii_of_N (N_of_ascii (letter c) + 1); number := 1000 |})
  ∧ (∀ c, number c + 1 > 9999 → (N_of_ascii "Z" ≤ N_of_ascii (letter c))%N →
          (nextDealId c).2 = {| letter := "A"; number := 1000 |})
  ∧ ids 2 {| letter := "A"; number := 9999 |} = ["#A9999"; "#B1000"]
  ∧ after 1 {| letter := "A"; number := 9999 |} = {| letter := "B"; number := 1000 |}
  ∧ (∀ c, length (ids 1000 c) = 1000%nat)
  ∧ (∀ c, wf_counter c → NoDup (ids 1000 c))
  ∧ (∀ c, wf_counter c → idx c + 1000 ≤ cycle →
          StronglySorted str_lt (ids 1000 c))
  ∧ StronglySorted str_lt (ids 1000 {| letter := "A"; number := 9999 |})
  ∧ NoDup (ids 1000 {| letter := "A"; number := 9999 |}).
Proof.
  assert (Hlen : ∀ n c, length (ids n c) = n).
  { induction n as [|n IH]; intros c; [done|]. rewrite ids_S; simpl. by rewrite IH. }
  assert (HA : wf_counter {| letter := "A"; number := 9999 |})
    by (unfold wf_counter; simpl; lia).
  split; [reflexivity|].
  split; [apply nextDealId_id|].
  split.
  { intros c Hc. rewrite nextDealId_state.
    by rewrite (proj2 (Z.ltb_ge _ _)) by lia. }
  split.
  { intros c Hc Hl. rewrite nextDealId_state.
    rewrite (proj2 (Z.ltb_lt _ _)) by lia.
    by rewrite (proj2 (N.ltb_ge _ _)) by lia. }
  split.
  { intros c Hc Hl. rewrite nextDealId_state.
    rewrite (proj2 (Z.ltb_lt _ _)) by lia.
    by rewrite (proj2 (N.ltb_lt _ _)) by lia. }
  split; [reflexivity|].
  split; [reflexivity|].
  split; [intros c; apply Hlen|].
  split; [intros c Hc; apply ids_NoDup; [done | unfold cycle; lia]|].
  split.
  { intros c Hc Hi. apply Sorted_StronglySorted; [apply _|].
    apply ids_Sorted; [done | lia]. }
  split.
  - apply Sorted_StronglySorted; [apply _|].
    apply ids_Sorted; [done | unfold idx, cycle; simpl; lia].
  - apply ids_NoDup; [done | unfold cycle; lia].
Qed.

(** ** Sums over the caches *)

Section Sums.
Local Open Scope Qc_scope.
Context {A : Type} (g : A → Number).
Local Abbreviation msum := (map_fold (λ _ a acc, acc + g a) 0).

Lemma msum_insert_fresh (m : gmap string A) (k : string) (a : A) :
  m !! k = None → msum (<[k := a]> m) = msum m + g a.
Proof.
  intros Hk.
  rewrite (map_fold_insert_L (λ _ a acc, acc + g a) 0 k a m); [done| |done].
  intros. ring.
Qed.

Lemma msum_delete (m : gmap string A) (k : string) (a : A) :
  m !! k = Some a → msum m = msum (delete k m) + g a.
Proof.
  intros Hk.
  rewrite (map_fold_delete_L (λ _ a acc, acc + g a) 0 k a m); [done| |done].
  intros. ring.
Qed.

Lemma msum_insert (m : gmap string A) (k : string) (a : A) :
  msum (<[k := a]> m) = msum m - from_option g 0 (m !! k) + g a.
Proof.
  destruct (m !! k) as [old|] eqn:Hk; simpl.
  - rewrite <- insert_delete_eq.
    rewrite msum_insert_fresh by apply lookup_delete_eq.
    rewrite (msum_delete m k old Hk). ring.
  - rewrite msum_insert_fresh by done. ring.
Qed.
End Sums.

Lemma sum_balances_insert (b : gmap string Number) (k : string) (v : Number) :
  sum_balances (<[k := v]> b) = (sum_balances b - balance_of b k + v)%Qc.
Proof.
  unfold sum_balances, balance_of.
  rewrite (msum_insert (λ v, v) b k v). by destruct (b !! k).
Qed.

Lemma totalLocked_insert (m : gmap string Deal) (k : string) (d : Deal) :
  totalLocked (<[k := d]> m)
  = (totalLocked m - from_option locked 0 (m !! k) + locked d)%Qc.
Proof. apply (msum_insert locked). Qed.

(** ** Handlers keep the store well formed *)

Lemma wf_empty : wf empty_store.
Proof. split; apply map_Forall_empty. Qed.

Lemma wf_balance_of (s : Store) (k : string) : wf s → on_grid (balance_of (balances s) k).
Proof.
  intros [Hb _]. unfold balance_of.
  destruct (balances s !! k) as [v|] eqn:Hk; simpl.
  - apply (Hb k v Hk).
  - apply on_grid_0.
Qed.

Lemma deal_ok_locked_grid (d : Deal) : deal_ok d → on_grid (locked d).
Proof.
  intros [Hg _ [-> | ->] _]; [apply on_grid_0 | exact Hg].
Qed.

Lemma deal_ok_locked_nonneg (d : Deal) : deal_ok d → (0 ≤ locked d)%Qc.
Proof.
  intros [_ Hn [-> | ->] _]; [apply Qcle_refl | exact Hn].
Qed.

Lemma wf_createDeal s u ty ti de p now : wf s → wf (createDeal s u ty ti de p now).2.
Proof.
  intros [Hb Hd]. unfold createDeal. case_bool_decide as Hp; [by split|].
  destruct (nextDealId (_seq s)) as [i c]. split; simpl; [done|].
  apply map_Forall_insert_2; [|done]. split; simpl.
  - apply toFixed8_on_grid.
  - apply toFixed8_nonneg. apply Qclt_le_weak. by apply Qcnot_le_lt.
  - by left.
  - done.
Qed.

Lemma wf_buy s d u now : wf s → wf (buy s d u now).2.
Proof.
  intros Hwf. pose proof Hwf as [Hb Hd]. unfold buy.
  destruct (deals s !! d) as [deal|] eqn:Hdeal; [|by destruct (proto_member d)].
  case_decide; [done|]. case_bool_decide; [done|].
  split; simpl.
  - apply map_Forall_insert_2; [apply toFixed8_on_grid | done].
  - apply map_Forall_insert_2; [|done].
    destruct (Hd d deal Hdeal) as [Hg Hn _ _]. split; simpl; auto. done.
Qed.

Lemma wf_seller_sent s d u now : wf s → wf (seller_sent s d u now).2.
Proof.
  intros [Hb Hd]. unfold seller_sent.
  destruct (deals s !! d) as [deal|] eqn:Hdeal; [|by destruct (proto_member d)].
  split; simpl; [done|].
  apply map_Forall_insert_2; [|done].
  destruct (Hd d deal Hdeal) as [Hg Hn Hl _]. split; simpl; auto. done.
Qed.

Lemma wf_buyer_received s d u now : wf s → wf (buyer_received s d u now).2.
Proof.
  intros [Hb Hd]. unfold buyer_received.
  destruct (deals s !! d) as [deal|] eqn:Hdeal; [|by destruct (proto_member d)].
  destruct (truthy_buyer deal); [|done].
  split; simpl.
  - apply map_Forall_insert_2; [apply toFixed8_on_grid | done].
  - apply map_Forall_insert_2; [|done].
    destruct (Hd d deal Hdeal) as [Hg Hn _ _]. split; simpl; auto.
Qed.

Lemma wf_buyer_problem s d u : wf s → wf (buyer_problem s d u).2.
Proof. intros Hwf. unfold buyer_problem. destruct (deals s !! d); [done | by destruct (proto_member d)]. Qed.

Lemma wf_givebalance owner s f t a : wf s → wf (givebalance owner s f t a).2.
Proof.
  intros [Hb Hd]. unfold givebalance. case_decide; [done|].
  destruct a as [amt|]; [|done]. split; simpl; [|done].
  apply map_Forall_insert_2; [apply toFixed8_on_grid | done].
Qed.

Lemma wf_step owner s o : wf s → wf (step owner s o).2.
Proof.
  destruct o; simpl;
    auto using wf_createDeal, wf_buy, wf_seller_sent, wf_buyer_received,
               wf_buyer_problem, wf_givebalance.
Qed.

Lemma wf_run owner ops : ∀ s, wf s → wf (run owner s ops).
Proof.
  induction ops as [|o ops IH]; intros s Hs; simpl; [done|].
  apply IH, wf_step, Hs.
Qed.

Lemma wf_reachable owner s : reachable owner s → wf s.
Proof. intros [ops ->]. apply wf_run, wf_empty. Qed.

(** ** Conservation, handler by handler *)

Section Conservation.
Local Open Scope Qc_scope.

Lemma total_createDeal_exact s u ty ti de p now :
  ¬ p ≤ 0 → total (createDeal s u ty ti de p now).2 = total s - overwritten s.
Proof.
  intros Hp. unfold createDeal, overwritten.
  rewrite bool_decide_eq_false_2 by done.
  destruct (nextDealId (_seq s)) as [i c]. unfold total; simpl.
  rewrite totalLocked_insert; simpl. ring.
Qed.

Lemma total_createDeal s u ty ti de p now :
  overwritten s = 0 → total (createDeal s u ty ti de p now).2 = total s.
Proof.
  intros Ho. destruct (decide (p ≤ 0)) as [Hp|Hp].
  - unfold createDeal. by rewrite bool_decide_eq_true_2.
  - rewrite total_createDeal_exact by done. rewrite Ho. ring.
Qed.

Lemma total_buy s d u now : wf s → total (buy s d u now).2 = total s.
Proof.
  intros Hwf. unfold buy.
  destruct (deals s !! d) as [deal|] eqn:Hdeal; [|by destruct (proto_member d)].
  case_decide as Hst; [done|]. case_bool_decide; [done|].
  destruct (wf_deals s Hwf d deal Hdeal) as [Hg _ _ Hopen].
  unfold total; simpl.
  rewrite sum_balances_insert, totalLocked_insert, Hdeal; simpl.
  rewrite (Hopen Hst).
  rewrite toFixed8_id by (apply on_grid_minus; [by apply wf_balance_of | done]).
  ring.
Qed.

Lemma total_seller_sent s d u now : total (seller_sent s d u now).2 = total s.
Proof.
  unfold seller_sent.
  destruct (deals s !! d) as [deal|] eqn:Hdeal; [|by destruct (proto_member d)].
  unfold total; simpl. rewrite totalLocked_insert, Hdeal; simpl. ring.
Qed.

Lemma total_buyer_received s d u now :
  wf s → total (buyer_received s d u now).2 = total s.
Proof.
  intros Hwf. unfold buyer_received.
  destruct (deals s !! d) as [deal|] eqn:Hdeal; [|by destruct (proto_member d)].
  destruct (truthy_buyer deal); [|done].
  unfold total; simpl.
  rewrite sum_balances_insert, totalLocked_insert, Hdeal; simpl.
  rewrite toFixed8_id.
  - ring.
  - apply on_grid_plus; [by apply wf_balance_of|].
    apply deal_ok_locked_grid, (wf_deals s Hwf d deal Hdeal).
Qed.

Lemma total_buyer_problem s d u : total (buyer_problem s d u).2 = total s.
Proof. unfold buyer_problem. destruct (deals s !! d); [done | by destruct (proto_member d)]. Qed.
End Conservation.

(** *** Creating deals until the ids come round *)


Section Creates.
Local Open Scope Qc_scope.
Context (owner u : Z) (ty ti de : option string) (p : Number) (now : Time).
Hypothesis Hp : ¬ p ≤ 0.
Local Abbreviation o := (CreateDeal u ty ti de p now).

Lemma createDeal_accepted (s : Store) :
  createDeal s u ty ti de p now
  = (Created (render (_seq s)),
     {| _seq := (nextDealId (_seq s)).2; balances := balances s;
        deals :=
          <[render (_seq s) :=
              {| id := render (_seq s); seller := u; buyer := None;
                 title := ti; desc := de;
                 type := match ty with
                         | Some t => if decide (t = "") then "NFT" else t
                         | None => "NFT"
                         end;
                 price := toFixed8 p; status := "open"; locked := 0;
                 created_at := now; locked_at := None; sent_at := None;
                 completed_at := None |}]> (deals s);
        logs := logs s |}).
Proof.
  unfold createDeal. rewrite bool_decide_eq_false_2 by done.
  pose proof (nextDealId_id (_seq s)) as Hid.
  destruct (nextDealId (_seq s)) as [i c]; simpl in *. by subst i.
Qed.



End Creates.



Lemma total_step (owner : Z) (s : Store) (o : Op) :
  wf s → is_admin o = false → (is_create o = true → overwritten s = 0%Qc) →
  total (step owner s o).2 = total s.
Proof.
  intros Hwf Ho Hcr. destruct o; simpl in *; try discriminate.
  - by apply total_createDeal, Hcr.
  - by apply total_buy.
  - apply total_seller_sent.
  - by apply total_buyer_received.
  - apply total_buyer_problem.
Qed.


(** *** The first 234000 deals of an installation *)

Section FirstCycle.
Context (owner : Z).

Lemma after_after (n m : nat) : ∀ c, after (n + m) c = after m (after n c).
Proof. induction n as [|n IH]; intros c; [done|]. apply (IH (nextDealId c).2). Qed.

Lemma after_wf (n : nat) (c : SeqCounter) : wf_counter c → wf_counter (after n c).
Proof. intros Hc. by destruct (after_cycle n c Hc). Qed.

Lemma wf_counter_init : wf_counter Seq.init.
Proof. unfold wf_counter; simpl; lia. Qed.

Lemma issued_empty : issued 0 empty_store.
Proof.
  split; [done|]. intros k [d Hd]. simpl in Hd. by rewrite lookup_empty in Hd.
Qed.

Lemma issued_fresh (m : nat) (s : Store) :
  issued m s → Z.of_nat m < cycle → deals s !! render (_seq s) = None.
Proof.
  intros [Hseq Hdom] Hm. rewrite Hseq.
  destruct (deals s !! render (after m Seq.init)) as [d|] eqn:Hd; [|done].
  destruct (Hdom _ (mk_is_Some _ _ Hd)) as (j & Hj & Heq).
  replace m with (j + (m - j))%nat in Heq at 1 by lia.
  rewrite after_after in Heq.
  by apply after_within_cycle in Heq; [|apply after_wf, wf_counter_init | lia].
Qed.

Lemma issued_overwritten (m : nat) (s : Store) :
  issued m s → Z.of_nat m < cycle → overwritten s = 0%Qc.
Proof.
  intros Hi Hm. unfold overwritten.
  by rewrite nextDealId_id, (issued_fresh m s Hi Hm).
Qed.

Lemma issued_same_ids (m : nat) (s s' : Store) :
  issued m s → _seq s' = _seq s →
  (∀ k, is_Some (deals s' !! k) → is_Some (deals s !! k)) →
  issued m s'.
Proof. intros [Hseq Hdom] Hs Hk. split; [congruence | auto]. Qed.

Lemma issued_step (m : nat) (s : Store) (o : Op) :
  issued m s →
  ∃ m', (m ≤ m' ≤ m + (if is_create o then 1 else 0))%nat
        ∧ issued m' (step owner s o).2.
Proof.
  intros Hi. destruct o; simpl.
  - unfold createDeal. case_bool_decide as Hp.
    { exists m. split; [lia | done]. }
    pose proof (nextDealId_id (_seq s)) as Hid.
    destruct (nextDealId (_seq s)) as [i c] eqn:Hnext; simpl in *.
    destruct Hi as [Hseq Hdom]. exists (S m). split; [lia|]. split; cbn [_seq deals].
    + rewrite after_succ, <- Hseq, Hnext. done.
    + intros k [->|Hk]%lookup_insert_is_Some'.
      * exists m. split; [lia|]. by rewrite <- Hseq.
      * destruct (Hdom k Hk) as (j & Hj & ->). exists j. split; [lia | done].
  - exists m. split; [lia|]. unfold buy.
    destruct (deals s !! dealId) as [deal|] eqn:Hd; [|by destruct (proto_member dealId)].
    case_decide; [done|]. case_bool_decide; [done|].
    apply (issued_same_ids m s); [done..|]; simpl.
    intros k [->|Hk]%lookup_insert_is_Some'; [by rewrite Hd | done].
  - exists m. split; [lia|]. unfold seller_sent.
    destruct (deals s !! dealId) as [deal|] eqn:Hd; [|by destruct (proto_member dealId)].
    apply (issued_same_ids m s); [done..|]; simpl.
    intros k [->|Hk]%lookup_insert_is_Some'; [by rewrite Hd | done].
  - exists m. split; [lia|]. unfold buyer_received.
    destruct (deals s !! dealId) as [deal|] eqn:Hd; [|by destruct (proto_member dealId)].
    destruct (truthy_buyer deal); [|done].
    apply (issued_same_ids m s); [done..|]; simpl.
    intros k [->|Hk]%lookup_insert_is_Some'; [by rewrite Hd | done].
  - exists m. split; [lia|]. unfold buyer_problem.
    destruct (deals s !! dealId); [done | by destruct (proto_member dealId)].
  - exists m. split; [lia|]. unfold givebalance.
    case_decide; [done|]. by destruct amt.
Qed.

Lemma issued_run (ops : list Op) :
  ∀ m s, issued m s →
         ∃ m', (m ≤ m' ≤ m + creates ops)%nat ∧ issued m' (run owner s ops).
Proof.
  induction ops as [|o ops IH]; intros m s Hi; simpl.
  - exists m. split; [lia | done].
  - destruct (issued_step m s o Hi) as (m1 & Hm1 & Hi1).
    destruct (IH m1 _ Hi1) as (m2 & Hm2 & Hi2).
    exists m2. split; [|done]. destruct (is_create o); simpl in *; lia.
Qed.

Lemma conservation_issued (ops : list Op) :
  ∀ m s, wf s → issued m s → Z.of_nat (m + creates ops) ≤ cycle →
         Forall (λ o, is_admin o = false) ops →
         total (run owner s ops) = total s.
Proof.
  induction ops as [|o ops IH]; intros m s Hwf Hi Hm Hadm; simpl; [done|].
  inversion Hadm as [|? ? Ho Hops]; subst.
  destruct (issued_step m s o Hi) as (m1 & Hm1 & Hi1).
  simpl in Hm.
  rewrite (IH m1); [| by apply wf_step | done | | done].
  - apply total_step; [done..|]. intros Hc. rewrite Hc in Hm; simpl in Hm.
    apply (issued_overwritten m s Hi). lia.
  - destruct (is_create o); simpl in *; lia.
Qed.

(** Within the first 234000 createDeal calls of an installation no id
    is reused, and the total is conserved by every sequence without
    adminCredit. *)
Lemma conservation_first_cycle (ops1 ops2 : list Op) :
  Forall (λ o, is_admin o = false) ops2 →
  Z.of_nat (creates ops1 + creates ops2) ≤ cycle →
  total (run owner (run owner empty_store ops1) ops2)
  = total (run owner empty_store ops1).
Proof.
  intros Hadm Hn.
  destruct (issued_run ops1 0%nat empty_store issued_empty) as (m & Hm & Hi).
  apply (conservation_issued ops2 m); [apply wf_run, wf_empty | done | lia | done].
Qed.
End FirstCycle.

(** ** Buying *)

Section Buy.
Local Open Scope Qc_scope.
Context (s : Store) (dealId : string) (userId : Z) (now : Time) (deal : Deal).
Hypothesis Hdeal : deals s !! dealId = Some deal.

Lemma buy_not_open :
  status deal ≠ "open" → buy s dealId userId now = (InvalidState, s).
Proof. intros Hst. unfold buy. rewrite Hdeal. by rewrite decide_True. Qed.

Lemma buy_insufficient :
  status deal = "open" → balance_of (balances s) (key userId) < price deal →
  buy s dealId userId now = (InsufficientFunds, s).
Proof.
  intros Hst Hlt. unfold buy. rewrite Hdeal.
  rewrite decide_False by (by intros []).
  by rewrite bool_decide_eq_true_2.
Qed.

Lemma buy_success :
  status deal = "open" → price deal ≤ balance_of (balances s) (key userId) →
  buy s dealId userId now
  = (Ok,
     {| _seq := _seq s;
        balances :=
          <[key userId :=
              toFixed8 (balance_of (balances s) (key userId) - price deal)]>
            (balances s);
        deals :=
          <[dealId :=
              {| id := id deal; seller := seller deal; buyer := Some userId;
                 title := title deal; desc := desc deal; type := type deal;
                 price := price deal; status := "in_progress";
                 locked := price deal;
                 created_at := created_at deal; locked_at := Some now;
                 sent_at := sent_at deal;
                 completed_at := completed_at deal |}]> (deals s);
        logs := logs s |}).
Proof.
  intros Hst Hle. unfold buy. rewrite Hdeal.
  rewrite decide_False by (by intros []).
  by rewrite bool_decide_eq_false_2 by (by apply Qcle_not_lt).
Qed.

Lemma buy_debit :
  wf s →
  toFixed8 (balance_of (balances s) (key userId) - price deal)
  = balance_of (balances s) (key userId) - price deal.
Proof.
  intros Hwf. apply toFixed8_id, on_grid_minus.
  - by apply wf_balance_of.
  - apply (wf_deals s Hwf dealId deal Hdeal).
Qed.
End Buy.

(** ** Forwarding *)

(** C4 (as stated, refuted).  A stranger (id 99) presses "sent" on a
    deal that is still open and belongs to seller 3: the handler
    answers Ok and the deal is now sent_to_support. *)
Lemma seller_sent_unchecked :
  deals st_open !! "#A7342" = Some open_gift
  ∧ seller open_gift ≠ 99
  ∧ status open_gift ≠ "in_progress"
  ∧ (seller_sent st_open "#A7342" 99 "2024-01-01T12:00:00.000Z").1 = Ok
  ∧ status <$> deals (seller_sent st_open "#A7342" 99 "2024-01-01T12:00:00.000Z").2
               !! "#A7342"
    = Some "sent_to_support".
Proof.
  split; [vm_compute; reflexivity|].
  split; [discriminate|]. split; [discriminate|].
  split; vm_compute; reflexivity.
Qed.

Lemma seller_sent_not_found (s : Store) (dealId : string) (actor : Z) (now : Time) :
  deals s !! dealId = None → proto_member dealId = false →
  seller_sent s dealId actor now = (NotFound, s).
Proof. intros Hd Hp. unfold seller_sent. by rewrite Hd, Hp. Qed.

(** C4 (as amended).  markSent succeeds on every existing deal, whatever
    its status and whoever the actor: the status becomes
    sent_to_support, sent_at is stamped, and nothing else in the store
    changes. *)
Theorem seller_sent_semantics (s : Store) (dealId : string) (actor : Z)
    (now : Time) (deal : Deal) :
  deals s !! dealId = Some deal →
  let s' := (seller_sent s dealId actor now).2 in
  (seller_sent s dealId actor now).1 = Ok
  ∧ deals s' !! dealId
    = Some {| id := id deal; seller := seller deal; buyer := buyer deal;
              title := title deal; desc := desc deal; type := type deal;
              price := price deal; status := "sent_to_support";
              locked := locked deal; created_at := created_at deal;
              locked_at := locked_at deal; sent_at := Some now;
              completed_at := completed_at deal |}
  ∧ (∀ k, k ≠ dealId → deals s' !! k = deals s !! k)
  ∧ balances s' = balances s
  ∧ logs s' = logs s
  ∧ _seq s' = _seq s.
Proof.
  intros Hdeal s'. subst s'. unfold seller_sent. rewrite Hdeal; simpl.
  split; [done|]. split; [by rewrite lookup_insert_eq|].
  split; [by intros k Hk; rewrite lookup_insert_ne|]. done.
Qed.

Lemma seller_sent_semantics_witness :
  (seller_sent st_bought "#A7342" 3 "2024-01-01T12:00:00.000Z").1 = Ok
  ∧ status <$> deals st_sent !! "#A7342" = Some "sent_to_support".
Proof.
  destruct (seller_sent_semantics st_bought "#A7342" 3 "2024-01-01T12:00:00.000Z"
              bought_gift)
    as (Hok & Hd & _).
  - reflexivity.
  - split; [exact Hok|].
    change st_sent with (seller_sent st_bought "#A7342" 3 "2024-01-01T12:00:00.000Z").2.
    by rewrite Hd.
Defined.

(** ** Reporting a problem *)

(** C6 (as stated, refuted).  The deal is sent_to_support and its
    recorded buyer 2 reports a problem: the status is still
    sent_to_support, not disputed. *)
Lemma buyer_problem_no_dispute :
  (buyer <$> deals st_sent !! "#A7342") = Some (Some 2)
  ∧ (status <$> deals st_sent !! "#A7342") = Some "sent_to_support"
  ∧ (buyer_problem st_sent "#A7342" 2).1 = Ok
  ∧ (status <$> deals (buyer_problem st_sent "#A7342" 2).2 !! "#A7342")
    ≠ Some "disputed".
Proof.
  split; [vm_compute; reflexivity|]. split; [vm_compute; reflexivity|].
  split; [vm_compute; reflexivity|]. vm_compute. discriminate.
Qed.

(** ** Confirming receipt *)

Section Confirm.
Local Open Scope Qc_scope.
Context (s : Store) (dealId : string) (actor : Z) (now : Time) (deal : Deal).
Hypothesis Hdeal : deals s !! dealId = Some deal.

Lemma truthy_buyer_Some (b : Z) :
  truthy_buyer deal = Some b ↔ buyer deal = Some b ∧ b ≠ 0%Z.
Proof.
  unfold truthy_buyer. destruct (buyer deal) as [b'|].
  - case_decide as Hz.
    + split; [done|]. intros [[= ->] Hb]. done.
    + split; [by intros [= ->]|]. by intros [[= ->] _].
  - split; [done|]. by intros [? _].
Qed.

Lemma buyer_received_no_buyer :
  truthy_buyer deal = None → buyer_received s dealId actor now = (NoBuyer, s).
Proof. intros Hb. unfold buyer_received. by rewrite Hdeal, Hb. Qed.

Lemma buyer_received_success (b : Z) :
  truthy_buyer deal = Some b →
  buyer_received s dealId actor now
  = (Ok,
     {| _seq := _seq s;
        balances :=
          <[key (seller deal) :=
              toFixed8 (balance_of (balances s) (key (seller deal)) + locked deal)]>
            (balances s);
        deals :=
          <[dealId :=
              {| id := id deal; seller := seller deal; buyer := buyer deal;
                 title := title deal; desc := desc deal; type := type deal;
                 price := price deal; status := "done"; locked := 0;
                 created_at := created_at deal; locked_at := locked_at deal;
                 sent_at := sent_at deal; completed_at := Some now |}]>
            (deals s);
        logs :=
          <[dealId :=
              {| log_id := dealId; log_seller := seller deal; log_buyer := b;
                 log_amount := locked deal; log_title := title deal;
                 log_desc := desc deal; log_completed_at := now |}]>
            (logs s) |}).
Proof. intros Hb. unfold buyer_received. by rewrite Hdeal, Hb. Qed.

Lemma settle_credit :
  wf s →
  toFixed8 (balance_of (balances s) (key (seller deal)) + locked deal)
  = balance_of (balances s) (key (seller deal)) + locked deal.
Proof.
  intros Hwf. apply toFixed8_id, on_grid_plus.
  - by apply wf_balance_of.
  - apply deal_ok_locked_grid, (wf_deals s Hwf dealId deal Hdeal).
Qed.
End Confirm.

(** C3 (as stated, refuted).  The deal is in_progress, never marked
    sent, and its buyer is 2; the seller 3 presses "received": the
    handler answers Ok, the seller's balance goes from 0 to 12.5 and the
    deal is done. *)
Lemma buyer_received_unchecked :
  (status <$> deals st_bought !! "#A7342") = Some "in_progress"
  ∧ (buyer <$> deals st_bought !! "#A7342") = Some (Some 2)
  ∧ (buyer_received st_bought "#A7342" 3 "2024-01-01T13:00:00.000Z").1 = Ok
  ∧ balance_of (balances st_bought) (key 3) = 0%Qc
  ∧ balance_of
      (balances (buyer_received st_bought "#A7342" 3 "2024-01-01T13:00:00.000Z").2)
      (key 3) = of_decimal 125 1.
Proof.
  split; [vm_compute; reflexivity|]. split; [vm_compute; reflexivity|].
  split; [vm_compute; reflexivity|].
  split; apply Qc_is_canon; vm_compute; reflexivity.
Qed.

(** C2 (as stated, refuted).  The buyer confirms twice.  The second
    call is not rejected: it answers Ok, stamps completed_at again and
    replaces the completion record. *)
Lemma confirm_twice_not_rejected :
  (buyer_received st_sent "#A7342" 2 "2024-01-01T13:00:00.000Z").1 = Ok
  ∧ (buyer_received st_done "#A7342" 2 "2024-01-01T14:00:00.000Z").1 = Ok
  ∧ deals (buyer_received st_done "#A7342" 2 "2024-01-01T14:00:00.000Z").2 !! "#A7342"
    ≠ deals st_done !! "#A7342"
  ∧ logs (buyer_received st_done "#A7342" 2 "2024-01-01T14:00:00.000Z").2 !! "#A7342"
    ≠ logs st_done !! "#A7342".
Proof.
  split; [vm_compute; reflexivity|]. split; [vm_compute; reflexivity|].
  split; vm_compute; intros [=].
Qed.

(** ** Non-negative balances *)

Section NonNegative.
Local Open Scope Qc_scope.



End NonNegative.




(** ** The rounding rule *)

Section RoundingRule.
Local Open Scope Qc_scope.

Global Instance round_half_away_comp : Proper (Qeq ==> eq) round_half_away.
Proof.
  intros x y Hxy. unfold round_half_away. rewrite Hxy.
  destruct (Qle_bool 0 y); by rewrite Hxy.
Qed.

Lemma round_credit_literal (n : Z) :
  round_half_away (inject_Z n + (123456789 # 10))%Q = (n + 12345679)%Z.
Proof.
  unfold round_half_away.
  destruct (Qle_bool 0 (inject_Z n + (123456789 # 10))).
  - unfold Qfloor, Qplus, inject_Z; simpl.
    symmetry. apply Z.div_unique with 8%Z; lia.
  - unfold Qfloor, Qplus, Qopp, inject_Z; simpl.
    change (Z.pos (1 * 10 * 2)) with 20%Z. change (Z.pos (1 * 10)) with 10%Z.
    match goal with
    | |- (- (?a `div` 20))%Z = _ =>
      assert (a `div` 20 = - n - 12345679)%Z as ->; [|lia]
    end.
    symmetry. apply Z.div_unique with 12%Z; lia.
Qed.

Lemma of_decimal_grid (m : Z) : of_decimal m 8 = grid m.
Proof. reflexivity. Qed.

Lemma toFixed8_credit_literal (x : Number) :
  on_grid x →
  toFixed8 (x + of_decimal 123456789 9) = x + of_decimal 12345679 8.
Proof.
  intros [n ->]. rewrite of_decimal_grid, grid_plus. unfold toFixed8. f_equal.
  rewrite <- round_credit_literal. apply round_half_away_comp.
  unfold grid, of_decimal; simpl. rewrite !Qred_correct.
  unfold Qeq, Qplus, Qmult, inject_Z; simpl. lia.
Qed.
End RoundingRule.

(** C9 (as stated, refuted).  The owner credits 0.123456789 to a party
    without a balance: the stored balance is 0.12345679, not
    0.12345678. *)
Lemma credit_rounds_to_nearest :
  let s := run 1 empty_store [AdminCredit 1 "2" (Some (of_decimal 123456789 9))] in
  balance_of (balances s) "2" = of_decimal 12345679 8
  ∧ balance_of (balances s) "2" ≠ of_decimal 12345678 8.
Proof.
  split.
  - apply Qc_is_canon. vm_compute. reflexivity.
  - intros H. apply (f_equal this) in H. vm_compute in H. discriminate.
Qed.

(** ** The scenarios of the specification, run on the model *)

(** Scenario 1: the first deal is "#A7342"; buyer 2, funded with 20,
    buys it for 12.5 and is left with 7.5; 12.5 is locked and the deal
    is in progress. *)
Example scenario_1 :
  (step 1 (run 1 empty_store [fund_buyer]) golden_gift).1 = Created "#A7342"
  ∧ (buy st_open "#A7342" 2 "2024-01-01T11:00:00.000Z").1 = Ok
  ∧ balances st_bought !! key 2 = Some (of_decimal 75 1)
  ∧ deals st_bought !! "#A7342" = Some bought_gift
  ∧ locked bought_gift = of_decimal 125 1.
Proof.
  split; [reflexivity|]. split; [reflexivity|].
  split; [|split; [reflexivity|]]; [vm_compute; f_equal|]; apply Qc_is_canon; reflexivity.
Qed.

(** Scenario 2: the seller forwards, the buyer confirms; the seller
    holds 12.5, nothing is locked, the deal is done and logged. *)
Example scenario_2 :
  (seller_sent st_bought "#A7342" 3 "2024-01-01T12:00:00.000Z").1 = Ok
  ∧ (buyer_received st_sent "#A7342" 2 "2024-01-01T13:00:00.000Z").1 = Ok
  ∧ balance_of (balances st_done) (key 3) = of_decimal 125 1
  ∧ (status <$> deals st_done !! "#A7342") = Some "done"
  ∧ (locked <$> deals st_done !! "#A7342") = Some 0%Qc
  ∧ is_Some (logs st_done !! "#A7342").
Proof.
  split; [reflexivity|]. split; [reflexivity|].
  split; [apply Qc_is_canon; reflexivity|].
  split; [reflexivity|]. split; [reflexivity|]. by eexists.
Qed.

(** Scenario 3: buying a done deal is refused and changes nothing. *)
Example scenario_3 :
  buy st_done "#A7342" 2 "2024-01-01T14:00:00.000Z" = (InvalidState, st_done).
Proof. reflexivity. Qed.

(** Scenario 4: a buyer holding 5 cannot buy at 12.5; nothing changes. *)
Example scenario_4 :
  let s := run 1 empty_store
             [AdminCredit 1 "2" (Some (of_decimal 5 0)); golden_gift] in
  buy s "#A7342" 2 "2024-01-01T11:00:00.000Z" = (InsufficientFunds, s).
Proof. reflexivity. Qed.

(** * Further properties of the code *)

(** ** Invariants of the deal records *)

Section StoreInvariant.
Context (owner : Z).

Lemma store_inv_empty : store_inv empty_store.
Proof. apply map_Forall_empty. Qed.

Lemma deal_inv_logs (l l' : gmap string LogEntry) (k : string) (d : Deal) :
  (status d = "done" → l' !! k = l !! k) → deal_inv l k d → deal_inv l' k d.
Proof.
  intros Hl [H1 H2 H3 H4 H5 H5' H6 H7]. split; try done.
  intros Hd. rewrite (Hl Hd). by apply H7.
Qed.

Ltac insert_cases k d Hne Hk :=
  intros k d Hk; unfold store_inv, set_deals, set_balances in *;
  cbn [deals logs balances _seq fst snd] in *;
  apply lookup_insert_Some in Hk as [[<- <-]|[Hne Hk]].

Lemma store_inv_step (s : Store) (o : Op) :
  store_inv s → store_inv (step owner s o).2.
Proof.
  intros Hinv. destruct o; simpl.
  - unfold createDeal. case_bool_decide; [done|].
    pose proof (nextDealId_id (_seq s)) as Hid.
    destruct (nextDealId (_seq s)) as [i c]; simpl in *. subst i.
    insert_cases k d Hne Hk; [|by apply Hinv].
    split; simpl; try done; unfold known_status; by eauto 10.
  - unfold buy. destruct (deals s !! dealId) as [deal|] eqn:Hd; [|by destruct (proto_member dealId)].
    case_decide; [done|]. case_bool_decide; [done|].
    destruct (Hinv _ _ Hd) as [H1 H2 H3 H4 H5 H5' H6 H7].
    insert_cases k d Hne Hk; [|by apply Hinv].
    split; simpl; try done; unfold known_status; by eauto 10.
  - unfold seller_sent. destruct (deals s !! dealId) as [deal|] eqn:Hd; [|by destruct (proto_member dealId)].
    destruct (Hinv _ _ Hd) as [H1 H2 H3 H4 H5 H5' H6 H7].
    insert_cases k d Hne Hk; [|by apply Hinv].
    split; simpl; try done; unfold known_status; by eauto 10.
  - unfold buyer_received. destruct (deals s !! dealId) as [deal|] eqn:Hd; [|by destruct (proto_member dealId)].
    destruct (truthy_buyer deal) as [b|] eqn:Hb; [|done].
    apply (truthy_buyer_Some deal) in Hb as [Hb Hb0].
    destruct (Hinv _ _ Hd) as [H1 H2 H3 H4 H5 H5' H6 H7].
    insert_cases k d Hne Hk.
    + split; simpl; try done; [unfold known_status; by eauto 10|].
      intros _. split; [done|]. eexists. rewrite lookup_insert_eq.
      by repeat split.
    + apply (deal_inv_logs (logs s)); [|by apply Hinv].
      intros _. by rewrite lookup_insert_ne.
  - unfold buyer_problem. destruct (deals s !! dealId); [done | by destruct (proto_member dealId)].
  - unfold givebalance. case_decide; [done|]. by destruct amt.
Qed.

Lemma store_inv_run (ops : list Op) :
  ∀ s, store_inv s → store_inv (run owner s ops).
Proof.
  induction ops as [|o ops IH]; intros s Hs; simpl; [done|].
  by apply IH, store_inv_step.
Qed.

Lemma store_inv_reachable (s : Store) : reachable owner s → store_inv s.
Proof. intros [ops ->]. apply store_inv_run, store_inv_empty. Qed.
End StoreInvariant.

Lemma reachable_st_sent : reachable 1 st_sent.
Proof.
  by exists [fund_buyer; golden_gift; Buy "#A7342" 2 "2024-01-01T11:00:00.000Z";
             MarkSent "#A7342" 3 "2024-01-01T12:00:00.000Z"].
Qed.

Lemma reachable_st_done : reachable 1 st_done.
Proof.
  by exists [fund_buyer; golden_gift; Buy "#A7342" 2 "2024-01-01T11:00:00.000Z";
             MarkSent "#A7342" 3 "2024-01-01T12:00:00.000Z";
             ConfirmReceived "#A7342" 2 "2024-01-01T13:00:00.000Z"].
Qed.

(** X1.  In every store the handlers can produce, a deal that holds
    locked funds is in_progress or sent_to_support, has a recorded
    buyer, and holds exactly its price, which is positive. *)
Theorem locked_funds_are_in_escrow (OWNER_ID : Z) (s : Store) (k : string)
    (d : Deal) :
  reachable OWNER_ID s →
  deals s !! k = Some d →
  locked d ≠ 0%Qc →
  (status d = "in_progress" ∨ status d = "sent_to_support")
  ∧ is_Some (buyer d)
  ∧ locked d = price d
  ∧ (0 < price d)%Qc.
Proof.
  intros Hr Hk Hl.
  destruct (store_inv_reachable OWNER_ID s Hr k d Hk) as [_ _ _ H4 H5 H5' _ _].
  pose proof (wf_reachable OWNER_ID s Hr) as [_ Hd].
  destruct (Hd k d Hk) as [_ Hn _ _].
  split; [auto|]. split; [auto|]. split; [auto|].
  apply Qcle_lt_or_eq in Hn as [Hn|Hn]; [done|].
  exfalso. apply Hl. by rewrite (H5 Hl).
Qed.

Lemma locked_funds_are_in_escrow_witness :
  status sent_gift = "in_progress" ∨ status sent_gift = "sent_to_support".
Proof.
  apply (locked_funds_are_in_escrow 1 st_sent "#A7342" sent_gift).
  - exact reachable_st_sent.
  - reflexivity.
  - intros H. apply (f_equal this) in H. vm_compute in H. discriminate.
Defined.

(** X2.  In every store the handlers can produce, a deal is stored
    under its own id, its status is open, in_progress, sent_to_support
    or done (never another string, such as disputed), and an open deal
    has no buyer. *)
Theorem deal_records_well_formed (OWNER_ID : Z) (s : Store) (k : string)
    (d : Deal) :
  reachable OWNER_ID s →
  deals s !! k = Some d →
  id d = k
  ∧ (status d = "open" ∨ status d = "in_progress"
     ∨ status d = "sent_to_support" ∨ status d = "done")
  ∧ status d ≠ "disputed"
  ∧ (status d = "open" → buyer d = None ∧ locked d = 0%Qc).
Proof.
  intros Hr Hk.
  destruct (store_inv_reachable OWNER_ID s Hr k d Hk) as [H1 H2 H3 _ _ _ _ _].
  pose proof (wf_reachable OWNER_ID s Hr) as [_ Hd].
  destruct (Hd k d Hk) as [_ _ _ Ho].
  split; [done|]. split; [done|]. split.
  - intros Hdis. rewrite Hdis in H2. by destruct H2 as [?|[?|[?|?]]].
  - auto.
Qed.

Lemma deal_records_well_formed_witness : id sent_gift = "#A7342".
Proof.
  apply (deal_records_well_formed 1 st_sent "#A7342" sent_gift).
  - exact reachable_st_sent.
  - reflexivity.
Defined.

(** X3.  In every store the handlers can produce, a done deal has
    nothing locked and has a completion record under its id that names
    its seller, its buyer and its completion time. *)
Theorem done_deals_are_logged (OWNER_ID : Z) (s : Store) (k : string)
    (d : Deal) :
  reachable OWNER_ID s →
  deals s !! k = Some d →
  status d = "done" →
  locked d = 0%Qc
  ∧ ∃ e, logs s !! k = Some e
         ∧ log_id e = k
         ∧ log_seller e = seller d
         ∧ buyer d = Some (log_buyer e)
         ∧ completed_at d = Some (log_completed_at e).
Proof.
  intros Hr Hk Hd.
  destruct (store_inv_reachable OWNER_ID s Hr k d Hk) as [_ _ _ _ _ _ _ H7].
  by apply H7.
Qed.

Lemma done_deals_are_logged_witness :
  ∃ e, logs st_done !! "#A7342" = Some e ∧ log_seller e = 3.
Proof.
  destruct (done_deals_are_logged 1 st_done "#A7342"
              {| id := "#A7342"; seller := 3; buyer := Some 2;
                 title := Some "Golden Gift"; desc := Some "rare"; type := "NFT";
                 price := toFixed8 (of_decimal 125 1); status := "done";
                 locked := 0%Qc;
                 created_at := "2024-01-01T10:00:00.000Z";
                 locked_at := Some "2024-01-01T11:00:00.000Z";
                 sent_at := Some "2024-01-01T12:00:00.000Z";
                 completed_at := Some "2024-01-01T13:00:00.000Z" |})
    as (_ & e & He & _ & Hs & _).
  - exact reachable_st_done.
  - reflexivity.
  - reflexivity.
  - exists e. split; [exact He | exact Hs].
Defined.

(** ** Deals stay while ids are fresh *)

Section Persistence.
Context (owner : Z).

Lemma evolves_refl (d : Deal) : evolves d d.
Proof. by split. Qed.

Lemma evolves_trans (d1 d2 d3 : Deal) : evolves d1 d2 → evolves d2 d3 → evolves d1 d3.
Proof.
  intros [] []. split; try congruence; auto.
Qed.

Lemma step_evolves (m : nat) (s : Store) (o : Op) (k : string) (d : Deal) :
  store_inv s →
  issued m s →
  (is_create o = true → Z.of_nat m < cycle) →
  deals s !! k = Some d →
  ∃ d', deals (step owner s o).2 !! k = Some d' ∧ evolves d d'.
Proof.
  intros Hinv Hi Hm Hk. destruct o; simpl.
  - unfold createDeal. case_bool_decide.
    { exists d. split; [done | apply evolves_refl]. }
    pose proof (nextDealId_id (_seq s)) as Hid.
    pose proof (issued_fresh m s Hi (Hm eq_refl)) as Hfresh.
    destruct (nextDealId (_seq s)) as [i c]; simpl in *. subst i.
    exists d. split; [|apply evolves_refl].
    rewrite lookup_insert_ne; [done|]. intros <-. congruence.
  - unfold buy. destruct (deals s !! dealId) as [deal|] eqn:Hd;
      [|destruct (proto_member dealId); exists d;
        (split; [done | apply evolves_refl])].
    case_decide as Hst; [exists d; split; [done | apply evolves_refl]|].
    case_bool_decide; [exists d; split; [done | apply evolves_refl]|].
    simpl. destruct (decide (dealId = k)) as [->|Hne].
    + rewrite lookup_insert_eq. eexists. split; [done|].
      assert (deal = d) as -> by congruence.
      split; simpl; try done.
      intros b Hb. destruct (Hinv k d Hk) as [_ _ Ho _ _ _ _ _].
      rewrite Ho in Hb; [done|]. by destruct (decide (status d = "open")).
    + rewrite lookup_insert_ne by done. exists d. split; [done | apply evolves_refl].
  - unfold seller_sent. destruct (deals s !! dealId) as [deal|] eqn:Hd;
      [|destruct (proto_member dealId); exists d;
        (split; [done | apply evolves_refl])].
    simpl. destruct (decide (dealId = k)) as [->|Hne].
    + rewrite lookup_insert_eq. eexists. split; [done|].
      assert (deal = d) as -> by congruence. split; simpl; done.
    + rewrite lookup_insert_ne by done. exists d. split; [done | apply evolves_refl].
  - unfold buyer_received. destruct (deals s !! dealId) as [deal|] eqn:Hd;
      [|destruct (proto_member dealId); exists d;
        (split; [done | apply evolves_refl])].
    destruct (truthy_buyer deal); [|exists d; split; [done | apply evolves_refl]].
    simpl. destruct (decide (dealId = k)) as [->|Hne].
    + rewrite lookup_insert_eq. eexists. split; [done|].
      assert (deal = d) as -> by congruence. split; simpl; done.
    + rewrite lookup_insert_ne by done. exists d. split; [done | apply evolves_refl].
  - unfold buyer_problem. destruct (deals s !! dealId);
      [|destruct (proto_member dealId)];
      exists d; (split; [done | apply evolves_refl]).
  - unfold givebalance. case_decide; [|destruct amt];
      exists d; (split; [done | apply evolves_refl]).
Qed.

Lemma run_evolves (ops : list Op) :
  ∀ m s k d,
    store_inv s → issued m s → Z.of_nat (m + creates ops) ≤ cycle →
    deals s !! k = Some d →
    ∃ d', deals (run owner s ops) !! k = Some d' ∧ evolves d d'.
Proof.
  induction ops as [|o ops IH]; intros m s k d Hinv Hi Hm Hk; simpl in *.
  - exists d. split; [done | apply evolves_refl].
  - destruct (step_evolves m s o k d Hinv Hi) as (d1 & Hk1 & He1); [|done|].
    { intros Hc. rewrite Hc in Hm. lia. }
    destruct (issued_step owner m s o Hi) as (m1 & Hm1 & Hi1).
    destruct (IH m1 _ k d1 (store_inv_step owner s o Hinv) Hi1) as (d2 & Hk2 & He2);
      [|done|].
    { destruct (is_create o); lia. }
    exists d2. split; [done|]. by apply (evolves_trans d d1 d2).
Qed.
End Persistence.

(** X4.  During the first 234000 createDeal calls of an installation no
    deal is deleted or replaced: whatever operations follow, the deal is
    still stored under its id with the same seller, title, description,
    type, price and creation time; a recorded buyer stays recorded, and
    a deal that is no longer open never becomes open again. *)
Theorem deals_persist (OWNER_ID : Z) (ops1 ops2 : list Op) (k : string) (d : Deal) :
  Z.of_nat (creates ops1 + creates ops2) ≤ cycle →
  deals (run OWNER_ID empty_store ops1) !! k = Some d →
  ∃ d', deals (run OWNER_ID (run OWNER_ID empty_store ops1) ops2) !! k = Some d'
        ∧ id d' = id d ∧ seller d' = seller d
        ∧ title d' = title d ∧ desc d' = desc d ∧ type d' = type d
        ∧ price d' = price d ∧ created_at d' = created_at d
        ∧ (∀ b, buyer d = Some b → buyer d' = Some b)
        ∧ (status d ≠ "open" → status d' ≠ "open").
Proof.
  intros Hn Hk.
  destruct (issued_run OWNER_ID ops1 0%nat empty_store issued_empty) as (m & Hm & Hi).
  destruct (run_evolves OWNER_ID ops2 m (run OWNER_ID empty_store ops1) k d)
    as (d' & Hk' & []);
    [apply store_inv_run, store_inv_empty | done | lia | done |].
  exists d'. by repeat split.
Qed.

Lemma deals_persist_witness :
  ∃ d', deals st_done !! "#A7342" = Some d' ∧ seller d' = 3.
Proof.
  destruct (deals_persist 1 [fund_buyer; golden_gift]
              [Buy "#A7342" 2 "2024-01-01T11:00:00.000Z";
               MarkSent "#A7342" 3 "2024-01-01T12:00:00.000Z";
               ConfirmReceived "#A7342" 2 "2024-01-01T13:00:00.000Z"]
              "#A7342" open_gift) as (d' & Hd' & _ & Hs & _).
  - unfold cycle. simpl. lia.
  - reflexivity.
  - exists d'. split; [exact Hd' | exact Hs].
Defined.

(** X5.  At most one buy per deal: once buy has succeeded on a deal,
    during the first 234000 createDeal calls of an installation every
    later buy on that deal, by anyone and after any other operations,
    answers InvalidState and changes nothing, and the deal keeps the
    buyer it has. *)
Theorem bought_deal_is_not_sold_again (OWNER_ID : Z) (ops1 ops2 : list Op)
    (k : string) (u u' : Z) (now now' : Time) :
  Z.of_nat (creates ops1 + creates ops2) ≤ cycle →
  (buy (run OWNER_ID empty_store ops1) k u now).1 = Ok →
  let s2 := run OWNER_ID (buy (run OWNER_ID empty_store ops1) k u now).2 ops2 in
  buy s2 k u' now' = (InvalidState, s2)
  ∧ buyer <$> deals s2 !! k = Some (Some u).
Proof.
  intros Hn Hok s2.
  set (s := run OWNER_ID empty_store ops1) in *.
  destruct (issued_run OWNER_ID ops1 0%nat empty_store issued_empty) as (m & Hm & Hi).
  fold s in Hi.
  destruct (issued_step OWNER_ID m s (Buy k u now) Hi) as (m1 & Hm1 & Hi1).
  simpl in Hm1, Hi1.
  assert (∃ d1, deals (buy s k u now).2 !! k = Some d1
                ∧ buyer d1 = Some u ∧ status d1 ≠ "open") as (d1 & Hd1 & Hb1 & Hs1).
  { revert Hok. unfold buy. destruct (deals s !! k) as [deal|]; [|by destruct (proto_member k)].
    case_decide; [done|]. case_bool_decide; [done|]. intros _; simpl.
    eexists. rewrite lookup_insert_eq. by repeat split. }
  destruct (run_evolves OWNER_ID ops2 m1 (buy s k u now).2 k d1)
    as (d2 & Hd2 & []); [| done | lia | done |].
  { apply (store_inv_step OWNER_ID s (Buy k u now)).
    apply store_inv_run, store_inv_empty. }
  fold s2 in Hd2. split.
  - apply (buy_not_open s2 k u' now' d2 Hd2). auto.
  - rewrite Hd2; simpl. f_equal. auto.
Qed.

Lemma bought_deal_is_not_sold_again_witness :
  buy st_sent "#A7342" 7 "2024-01-02T09:00:00.000Z" = (InvalidState, st_sent).
Proof.
  apply (bought_deal_is_not_sold_again 1 [fund_buyer; golden_gift]
           [MarkSent "#A7342" 3 "2024-01-01T12:00:00.000Z"]
           "#A7342" 2 7 "2024-01-01T11:00:00.000Z" "2024-01-02T09:00:00.000Z").
  - unfold cycle. simpl. lia.
  - reflexivity.
Defined.

(** ** Where funds can come from *)

(** In decimals, no sequence of operations free of an accepted owner
    credit increases the sum of all balances and locked amounts. *)
Lemma total_not_increased (OWNER_ID : Z) (ops : list Op) :
  ∀ s : Store,
    wf s →
    Forall (λ o, ¬ mints OWNER_ID o) ops →
    (total (run OWNER_ID s ops) ≤ total s)%Qc.
Proof.
  induction ops as [|o ops IH]; intros s Hwf Hops; simpl; [apply Qcle_refl|].
  inversion Hops as [|? ? Ho Hops']; subst.
  eapply Qcle_trans; [apply IH; [by apply wf_step | done]|].
  destruct o; simpl in *.
  - destruct (decide (priceVal ≤ 0)%Qc) as [Hp|Hp].
    + unfold createDeal. rewrite bool_decide_eq_true_2 by done. apply Qcle_refl.
    + rewrite total_createDeal_exact by done.
      assert (Hov : (0 ≤ overwritten s)%Qc).
      { unfold overwritten.
        destruct (deals s !! (nextDealId (_seq s)).1) as [d|] eqn:Hd; simpl;
          [|apply Qcle_refl].
        apply deal_ok_locked_nonneg, (wf_deals s Hwf _ d Hd). }
      apply Qcle_minus_iff. unfold Qcminus.
      replace (total s + - (total s + - overwritten s))%Qc with (overwritten s) by ring.
      done.
  - rewrite total_buy by done. apply Qcle_refl.
  - rewrite total_seller_sent. apply Qcle_refl.
  - rewrite total_buyer_received by done. apply Qcle_refl.
  - rewrite total_buyer_problem. apply Qcle_refl.
  - unfold givebalance. case_decide as Hf; [apply Qcle_refl|].
    destruct amt as [amt|]; [|apply Qcle_refl].
    destruct Ho. by destruct (decide (fromId = OWNER_ID)).
Qed.

(** ** What rounding to eight decimals does *)

Section RoundingLaws.
Local Open Scope Q_scope.

Lemma round_half_away_near (y : Q) :
  inject_Z (round_half_away y) - (1 # 2) <= y
  ∧ y <= inject_Z (round_half_away y) + (1 # 2).
Proof.
  unfold round_half_away. destruct (Qle_bool 0 y) eqn:E.
  - pose proof (Qfloor_le (y + (1 # 2))) as H1.
    pose proof (Qlt_floor (y + (1 # 2))) as H2.
    rewrite inject_Z_plus in H2. change (inject_Z 1) with 1 in H2. split; lra.
  - pose proof (Qfloor_le (- y + (1 # 2))) as H1.
    pose proof (Qlt_floor (- y + (1 # 2))) as H2.
    rewrite inject_Z_plus in H2. change (inject_Z 1) with 1 in H2.
    rewrite inject_Z_opp. split; lra.
Qed.

Lemma round_half_away_mono (x y : Q) :
  x <= y → (round_half_away x <= round_half_away y)%Z.
Proof.
  intros Hxy. unfold round_half_away.
  destruct (Qle_bool 0 x) eqn:Ex, (Qle_bool 0 y) eqn:Ey.
  - apply Qfloor_resp_le. lra.
  - apply Qle_bool_iff in Ex. assert (Hy : 0 <= y) by lra.
    apply Qle_bool_iff in Hy. congruence.
  - apply Qle_bool_iff in Ey.
    assert (Hx : ¬ 0 <= x) by (intros H%Qle_bool_iff; congruence).
    assert (0 <= Qfloor (- x + (1 # 2)))%Z.
    { change 0%Z with (Qfloor 0). apply Qfloor_resp_le. lra. }
    assert (0 <= Qfloor (y + (1 # 2)))%Z.
    { change 0%Z with (Qfloor 0). apply Qfloor_resp_le. lra. }
    lia.
  - assert (Qfloor (- y + (1 # 2)) <= Qfloor (- x + (1 # 2)))%Z
      by (apply Qfloor_resp_le; lra).
    lia.
Qed.
End RoundingLaws.

Lemma toFixed8_this (x : Number) :
  (this (toFixed8 x)
   == inject_Z (round_half_away (this x * inject_Z 100000000)) * (1 # 100000000))%Q.
Proof.
  unfold toFixed8, grid. cbn [this Q2Qc]. rewrite Qred_correct.
  unfold Qeq, Qmult, inject_Z; simpl. lia.
Qed.

(** X7.  [Number(x.toFixed(8))] is rounding to the grid of 8-decimal
    values: the result has at most 8 decimals, lies within 0.000000005
    of the argument, leaves a value with at most 8 decimals as it is,
    and never reverses the order of two amounts. *)
Theorem toFixed8_is_rounding (x y : Number) :
  on_grid (toFixed8 x)
  ∧ (x - of_decimal 5 9 ≤ toFixed8 x)%Qc
  ∧ (toFixed8 x ≤ x + of_decimal 5 9)%Qc
  ∧ (on_grid x ↔ toFixed8 x = x)
  ∧ toFixed8 (toFixed8 x) = toFixed8 x
  ∧ ((x ≤ y)%Qc → (toFixed8 x ≤ toFixed8 y)%Qc).
Proof.
  split; [apply toFixed8_on_grid|].
  pose proof (round_half_away_near (this x * inject_Z 100000000)) as [Hlo Hhi].
  pose proof (toFixed8_this x) as Hx.
  change (inject_Z 100000000) with (100000000 # 1)%Q in *.
  split.
  { unfold Qcle, Qcminus, Qcplus, Qcopp. cbn [this Q2Qc of_decimal].
    rewrite !Qred_correct, Hx.
    change (5 # Z.to_pos (10 ^ Z.of_nat 9))%Q with (5 # 1000000000)%Q. lra. }
  split.
  { unfold Qcle, Qcplus. cbn [this Q2Qc of_decimal].
    rewrite !Qred_correct, Hx.
    change (5 # Z.to_pos (10 ^ Z.of_nat 9))%Q with (5 # 1000000000)%Q. lra. }
  split; [apply on_grid_fixpoint|].
  split; [apply toFixed8_id, toFixed8_on_grid|].
  intros Hxy. unfold Qcle. rewrite !toFixed8_this.
  apply Qmult_le_compat_r; [|discriminate].
  rewrite <- Zle_Qle. apply round_half_away_mono.
  apply Qmult_le_compat_r; [exact Hxy | discriminate].
Qed.

(** ** Prices below the grid *)

Lemma round_half_away_zero (y : Q) :
  (0 <= y)%Q → round_half_away y = 0 ↔ (y < 1 # 2)%Q.
Proof.
  intros Hy. unfold round_half_away.
  rewrite (proj2 (Qle_bool_iff 0 y) Hy).
  pose proof (Qfloor_le (y + (1 # 2))) as H1.
  pose proof (Qlt_floor (y + (1 # 2))) as H2.
  rewrite inject_Z_plus in H2. change (inject_Z 1) with 1%Q in H2.
  split.
  - intros H0. rewrite H0 in H2. change (inject_Z 0) with 0%Q in H2. lra.
  - intros Hlt.
    assert (0 <= Qfloor (y + (1 # 2)))%Z.
    { change 0%Z with (Qfloor 0). apply Qfloor_resp_le. lra. }
    assert (Qfloor (y + (1 # 2)) < 1)%Z.
    { rewrite Zlt_Qlt. change (inject_Z 1) with 1%Q. lra. }
    lia.
Qed.

Lemma grid_eq_0 (n : Z) : grid n = 0%Qc ↔ n = 0.
Proof.
  split; [|intros ->; apply grid_0].
  intros H. apply (f_equal this) in H. unfold grid in H. cbn [this Q2Qc] in H.
  assert (Hq : (n # 100000000 == 0)%Q) by (rewrite <- (Qred_correct (n # _)), H; reflexivity).
  unfold Qeq in Hq; simpl in Hq. lia.
Qed.

(** X8.  createDeal accepts every positive price and lists it rounded
    to 8 decimals, so the listed price is never negative, and it is 0
    exactly when the entered price is below 0.000000005; such a deal is
    then bought by anyone whose balance is not negative, without paying
    anything. *)
Theorem tiny_price_is_listed_as_zero (s : Store) (u : Z)
    (ty ti de : option string) (p : Number) (now : Time) :
  (0 < p)%Qc →
  let r := createDeal s u ty ti de p now in
  r.1 = Created (render (_seq s))
  ∧ ∃ d, deals r.2 !! render (_seq s) = Some d
         ∧ status d = "open"
         ∧ price d = toFixed8 p
         ∧ (0 ≤ price d)%Qc
         ∧ (price d = 0%Qc ↔ (p < of_decimal 5 9)%Qc)
         ∧ (price d = 0%Qc →
            ∀ buyerId t, (0 ≤ balance_of (balances s) (key buyerId))%Qc →
                         (buy r.2 (render (_seq s)) buyerId t).1 = Ok).
Proof.
  intros Hp r. subst r.
  assert (Hnp : ¬ (p ≤ 0)%Qc) by (by apply Qclt_not_le).
  rewrite (createDeal_accepted u ty ti de p now Hnp). cbn [fst snd deals].
  split; [done|]. eexists. rewrite lookup_insert_eq. split; [done|].
  cbn [status price]. split; [done|]. split; [done|].
  split; [apply toFixed8_nonneg; by apply Qclt_le_weak|].
  split.
  - unfold toFixed8. rewrite grid_eq_0.
    rewrite round_half_away_zero.
    + unfold Qclt. cbn [this of_decimal Q2Qc]. rewrite Qred_correct.
      change (inject_Z 100000000) with (100000000 # 1)%Q.
      change (5 # Z.to_pos (10 ^ Z.of_nat 9))%Q with (5 # 1000000000)%Q.
      split; intros H; lra.
    + apply Qmult_le_0_compat; [|discriminate]. apply Qlt_le_weak. exact Hp.
  - intros H0 buyerId t Hbal.
    match goal with
    | |- (buy ?st ?k _ _).1 = _ =>
      assert (Hd : deals st !! k = Some
        {| id := render (_seq s); seller := u; buyer := None; title := ti;
           desc := de;
           type := match ty with
                   | Some t => if decide (t = "") then "NFT" else t
                   | None => "NFT"
                   end;
           price := toFixed8 p; status := "open"; locked := 0%Qc;
           created_at := now; locked_at := None; sent_at := None;
           completed_at := None |}) by apply lookup_insert_eq
    end.
    rewrite (buy_success _ _ buyerId t _ Hd); [done | done |].
    cbn [price balances]. by rewrite H0.
Qed.

Lemma tiny_price_is_listed_as_zero_witness :
  (createDeal empty_store 3 None None None (of_decimal 1 9)
     "2024-01-01T10:00:00.000Z").1 = Created "#A7342".
Proof.
  apply (tiny_price_is_listed_as_zero empty_store 3 None None None (of_decimal 1 9)).
  vm_compute. reflexivity.
Defined.

(** ** More on the sequence generator *)

(** X9.  The persisted counter of every store the handlers can produce
    holds a letter from A to Z and a number from 1000 to 9999. *)
Theorem counter_stays_in_range (OWNER_ID : Z) (s : Store) :
  reachable OWNER_ID s →
  (N_of_ascii "A" ≤ N_of_ascii (letter (_seq s)) ≤ N_of_ascii "Z")%N
  ∧ 1000 ≤ number (_seq s) ≤ 9999.
Proof.
  intros [ops ->].
  destruct (issued_run OWNER_ID ops 0%nat empty_store issued_empty)
    as (m & _ & Hseq & _).
  rewrite Hseq.
  destruct (after_wf m Seq.init wf_counter_init) as [Hl Hn].
  split; [|done]. change (N_of_ascii "A") with 65%N.
  change (N_of_ascii "Z") with 90%N. lia.
Qed.

Lemma counter_stays_in_range_witness : 1000 ≤ number (_seq st_done) ≤ 9999.
Proof. apply (counter_stays_in_range 1 st_done), reachable_st_done. Defined.

(** X10.  From a counter in range the ids come round after exactly
    234000 calls: the counter is then what it was, no earlier call
    returns the first id again, and the 234000 ids in between are
    pairwise distinct. *)
Theorem ids_repeat_after_234000 (c : SeqCounter) :
  wf_counter c →
  after (Z.to_nat 234000) c = c
  ∧ (nextDealId (after (Z.to_nat 234000) c)).1 = (nextDealId c).1
  ∧ (∀ n, (0 < n < Z.to_nat 234000)%nat →
          (nextDealId (after n c)).1 ≠ (nextDealId c).1)
  ∧ NoDup (ids (Z.to_nat 234000) c).
Proof.
  intros Hc. pose proof (after_full_cycle c Hc) as Hfull. unfold cycle in Hfull.
  split; [done|]. split; [by rewrite Hfull|]. split.
  - intros n Hn. rewrite !nextDealId_id.
    apply after_within_cycle; [done | unfold cycle; lia].
  - apply ids_NoDup; [done | unfold cycle; lia].
Qed.

Lemma ids_repeat_after_234000_witness : after (Z.to_nat 234000) Seq.init = Seq.init.
Proof. apply (ids_repeat_after_234000 Seq.init). unfold wf_counter. simpl. lia. Defined.

Lemma pretty_four_digits (n : Z) :
  1000 ≤ n ≤ 9999 → four_digits (pretty n) = true.
Proof.
  assert (Hall : Forall (λ n : Z, four_digits (pretty n) = true) (seqZ 1000 9000))
    by compute_done.
  intros Hn. rewrite Forall_forall in Hall. apply Hall, elem_of_seqZ. lia.
Qed.

(** X11.  Every id issued from a counter in range is six characters
    long: "#", a capital letter and four decimal digits. *)
Theorem issued_ids_have_the_shape (c : SeqCounter) :
  wf_counter c → id_shape (nextDealId c).1 = true.
Proof.
  intros [Hl Hn]. rewrite nextDealId_id. unfold render.
  change (id_shape ("#" +:+ String (letter c) "" +:+ pretty (number c)))
    with (is_upper (letter c) && four_digits (pretty (number c))).
  rewrite (pretty_four_digits _ Hn). unfold is_upper.
  rewrite (proj2 (N.leb_le _ _)) by lia.
  by rewrite (proj2 (N.leb_le _ _)) by lia.
Qed.

Lemma issued_ids_have_the_shape_witness : id_shape (nextDealId Seq.init).1 = true.
Proof. apply issued_ids_have_the_shape. unfold wf_counter. simpl. lia. Defined.

(** ** Callback data *)

Example split_examples :
  split "_" "a_b__c" = ["a"; "b"; ""; "c"]
  ∧ split "buy_" "buy_#A7342" = [""; "#A7342"]
  ∧ split "ab" "xabyab" = ["x"; "y"; ""]
  ∧ split "aa" "aaa" = [""; "a"]
  ∧ split "," "" = [""].
Proof. repeat split. Qed.

Example route_examples :
  route "buy_#A7342" = RBuy (Some "#A7342")
  ∧ route "buyer_received_#B1000" = RBuyerReceived (Some "#B1000")
  ∧ route "type_NFT" = RType (Some "NFT")
  ∧ route "num_dot" = RNum (Some "dot")
  ∧ route "lang_ru" = RLang "ru"
  ∧ route "lang_de" = RIgnored
  ∧ route "" = RIgnored.
Proof. repeat split. Qed.

Lemma app_cons (a : ascii) (s t : string) : String a s +:+ t = String a (s +:+ t).
Proof. reflexivity. Qed.

Lemma app_nil_l (s : string) : "" +:+ s = s.
Proof. reflexivity. Qed.

Lemma app_nil_r (s : string) : s +:+ "" = s.
Proof. induction s as [|a s IH]; [done|]. by rewrite app_cons, IH. Qed.

Lemma append_snoc (cur : string) (a : ascii) (s : string) :
  (cur +:+ String a "") +:+ s = cur +:+ String a s.
Proof.
  induction cur as [|b cur IH]; [done|]. by rewrite !app_cons, IH.
Qed.

Lemma prefix_refl_app (p s : string) : String.prefix p (p +:+ s) = true.
Proof.
  induction p as [|a p IH]; [by destruct s|].
  rewrite app_cons. simpl. by destruct (ascii_dec a a).
Qed.

Section Split.
Context (sep : string) (c0 : ascii) (r : string).
Hypothesis Hsep : sep = String c0 r.

Lemma split_aux_skip (x : string) :
  ∀ cur s, split_aux sep (String.length x) cur (x +:+ s) = split_aux sep 0 cur s.
Proof.
  induction x as [|a x IH]; intros cur s; [done|].
  rewrite app_cons. simpl. apply IH.
Qed.

Lemma split_aux_plain (s : string) :
  ∀ cur, Forall (λ a, a ≠ c0) (chars s) → split_aux sep 0 cur s = [cur +:+ s].
Proof.
  induction s as [|a s IH]; intros cur Hs; simpl.
  - by rewrite app_nil_r.
  - inversion Hs as [|? ? Ha Hs']; subst. simpl.
    destruct (ascii_dec c0 a) as [->|_]; [done|].
    rewrite IH by done. by rewrite append_snoc.
Qed.

(** The datum made of the prefix and an id that does not contain the
    first character of the prefix splits into the empty string and the
    id. *)
Lemma split_prefixed (s : string) :
  Forall (λ a, a ≠ c0) (chars s) → split sep (sep +:+ s) = [""; s].
Proof.
  intros Hs. unfold split. rewrite Hsep at 2. rewrite app_cons.
  cbn [split_aux]. rewrite <- app_cons, <- Hsep, prefix_refl_app.
  rewrite Hsep at 2. cbn [String.length]. rewrite Nat.sub_succ, Nat.sub_0_r.
  f_equal. rewrite split_aux_skip. by apply (split_aux_plain s "").
Qed.
End Split.

Lemma id_shape_chars (i : string) :
  id_shape i = true →
  Forall (λ a, (N_of_ascii a < 97)%N) (chars i).
Proof.
  destruct i as [|h [|l r]]; try done. unfold id_shape.
  destruct r as [|a [|b [|c [|d [|]]]]]; simpl; rewrite ?andb_false_r; try done.
  unfold is_upper, is_digit. rewrite !andb_true_iff, !N.leb_le.
  intros [[Hh Hl] [[[Ha Hb] Hc] Hd]].
  apply Ascii.eqb_eq in Hh as ->.
  repeat constructor; simpl; lia.
Qed.

Lemma prefix_empty (s : string) : String.prefix "" s = true.
Proof. by destruct s. Qed.

Ltac route_button H :=
  unfold route, startsWith;
  match goal with
  | |- context [split ?p (?p +:+ ?i)] =>
    match eval cbv in p with
    | String ?c ?r => rewrite (split_prefixed p c r eq_refl i)
    end
  end;
  [ rewrite ?app_cons, ?app_nil_l; cbn; rewrite ?prefix_empty; reflexivity
  | eapply Forall_impl; [exact H|]; intros a Ha ->; simpl in Ha; lia ].

(** X12.  Button data reach their handler with their id: for every id
    of the issued shape, the data "view_", "buy_", "seller_sent_",
    "buyer_received_" and "buyer_problem_" followed by the id take the
    branch of that name, and the branch reads back exactly the id. *)
Theorem deal_buttons_round_trip (i : string) :
  id_shape i = true →
  route ("view_" +:+ i) = RView (Some i)
  ∧ route ("buy_" +:+ i) = RBuy (Some i)
  ∧ route ("seller_sent_" +:+ i) = RSellerSent (Some i)
  ∧ route ("buyer_received_" +:+ i) = RBuyerReceived (Some i)
  ∧ route ("buyer_problem_" +:+ i) = RBuyerProblem (Some i).
Proof.
  intros H%id_shape_chars.
  split; [route_button H|]. split; [route_button H|].
  split; [route_button H|]. split; route_button H.
Qed.

Lemma deal_buttons_round_trip_witness :
  route ("buy_" +:+ "#A7342") = RBuy (Some "#A7342").
Proof. apply (deal_buttons_round_trip "#A7342"). reflexivity. Defined.

(** ** The status route *)

Lemma totalLocked_0 (m : gmap string Deal) :
  map_Forall (λ _ d, locked d = 0%Qc) m → totalLocked m = 0%Qc.
Proof.
  unfold totalLocked.
  apply (map_fold_weak_ind
    (λ r m, map_Forall (λ _ d, locked d = 0%Qc) m → r = 0%Qc)); [done|].
  intros k d m' r Hk IH H. apply map_Forall_insert in H as [Hd H]; [|done].
  rewrite (IH H), Hd. by apply Qc_is_canon.
Qed.

Lemma activeDeals_0 (m : gmap string Deal) (k : string) (d : Deal) :
  activeDeals m = 0%nat → m !! k = Some d → status d = "" ∨ status d = "done".
Proof.
  unfold activeDeals. intros H%nil_length_inv Hk.
  assert (d ∈ (map_to_list m).*2) as Hd.
  { apply list_elem_of_fmap. exists (k, d). by rewrite elem_of_map_to_list. }
  destruct (decide (status d = "")) as [|H1]; [by left|].
  destruct (decide (status d = "done")) as [|H2]; [by right|].
  exfalso. eapply (not_elem_of_nil d). rewrite <- H.
  apply list_elem_of_filter. by split.
Qed.

(** X13.  The status page of a store the handlers can produce: when it
    reports no active deal, it reports no locked TON. *)
Theorem status_no_active_no_locked (OWNER_ID : Z) (s : Store) :
  reachable OWNER_ID s →
  activeDeals (deals s) = 0%nat →
  totalLocked (deals s) = 0%Qc.
Proof.
  intros Hr Ha. apply totalLocked_0. intros k d Hk.
  destruct (store_inv_reachable OWNER_ID s Hr k d Hk) as [_ Hs _ _ _ _ _ Hdone].
  destruct (activeDeals_0 _ k d Ha Hk) as [He|Hd].
  - destruct Hs as [H|[H|[H|H]]]; rewrite He in H; discriminate.
  - by apply Hdone.
Qed.

Lemma status_no_active_no_locked_witness : totalLocked (deals st_done) = 0%Qc.
Proof.
  apply (status_no_active_no_locked 1 st_done).
  - exact reachable_st_done.
  - vm_compute. reflexivity.
Defined.

(** ** Callback data, continued *)

Lemma includes_cons (a : ascii) (s sub : string) :
  includes (String a s) sub = false →
  String.prefix sub (String a s) = false ∧ includes s sub = false.
Proof. cbn [includes]. by intros ?%orb_false_elim. Qed.

Lemma includes_char (c0 : ascii) (r s : string) :
  Forall (λ a, a ≠ c0) (chars s) → includes s (String c0 r) = false.
Proof.
  induction s as [|a s IH]; intros Hs; [done|].
  inversion Hs as [|? ? Ha Hs']; subst. cbn [includes]. rewrite (IH Hs').
  simpl. by destruct (ascii_dec c0 a) as [->|_].
Qed.

Lemma split_aux_whole (sep s : string) :
  ∀ cur, includes s sep = false → split_aux sep 0 cur s = [cur +:+ s].
Proof.
  induction s as [|a s IH]; intros cur Hs.
  - simpl. by rewrite app_nil_r.
  - apply includes_cons in Hs as [Hp Hs]. cbn [split_aux]. rewrite Hp.
    rewrite (IH _ Hs). by rewrite append_snoc.
Qed.

(** The datum made of a prefix and a payload that does not contain the
    prefix splits into the empty string and the payload. *)
Lemma split_payload (sep s : string) :
  includes s sep = false → split sep (sep +:+ s) = [""; s].
Proof.
  intros Hs. destruct sep as [|c0 r]; [by destruct s|].
  unfold split. rewrite app_cons. cbn [split_aux]. rewrite <- app_cons.
  rewrite prefix_refl_app. cbn [String.length]. rewrite Nat.sub_succ, Nat.sub_0_r.
  f_equal. rewrite (split_aux_skip (String c0 r) r).
  by apply (split_aux_whole _ s "").
Qed.

Ltac route_payload H :=
  unfold route, startsWith; rewrite (split_payload _ _ H);
  rewrite ?app_cons, ?app_nil_l; cbn; rewrite ?prefix_empty; reflexivity.

Lemma route_type (ty : string) :
  includes ty "type_" = false → route ("type_" +:+ ty) = RType (Some ty).
Proof. intros H. route_payload H. Qed.

Lemma route_num (k : string) :
  includes k "num_" = false → route ("num_" +:+ k) = RNum (Some k).
Proof. intros H. route_payload H. Qed.


(** ** The price keypad *)

Lemma chars_app (s t : string) : chars (s +:+ t) = chars s ++ chars t.
Proof. induction s as [|a s IH]; [done|]. rewrite app_cons. simpl. by rewrite IH. Qed.

Lemma commas_app (s t : string) : commas (s +:+ t) = (commas s + commas t)%nat.
Proof.
  induction s as [|a s IH]; [done|]. rewrite app_cons. cbn [commas].
  rewrite IH. lia.
Qed.

Lemma prefix_cons (a b : ascii) (s t : string) :
  String.prefix (String a s) (String b t)
  = if ascii_dec a b then String.prefix s t else false.
Proof. reflexivity. Qed.

Lemma prefix_comma (a : ascii) (s : string) :
  String.prefix "," (String a s) = Ascii.eqb a ",".
Proof.
  rewrite prefix_cons. destruct (ascii_dec "," a) as [<-|Hn]; [by destruct s|].
  symmetry. apply Ascii.eqb_neq. congruence.
Qed.

Lemma includes_comma (s : string) : includes s "," = false ↔ commas s = 0%nat.
Proof.
  induction s as [|a s IH]; [done|]. cbn [includes commas].
  rewrite prefix_comma. destruct (Ascii.eqb a ","); simpl; [|done].
  split; [done|lia].
Qed.

Lemma is_buffer_char_ascii (a : ascii) :
  is_buffer_char a = true → (N_of_ascii a <? 128)%N = true.
Proof.
  unfold is_buffer_char, is_digit. intros [H|H]%orb_true_iff.
  - apply andb_true_iff in H as [_ H%N.leb_le]. apply N.ltb_lt. lia.
  - by apply Ascii.eqb_eq in H as ->.
Qed.

Lemma is_digit_not_comma (a : ascii) : is_digit a = true → Ascii.eqb a "," = false.
Proof.
  intros H. apply Ascii.eqb_neq. intros ->. by vm_compute in H.
Qed.

Lemma slice_buffer_text (s : string) :
  buffer_text s → ∃ s', slice_0_m1 s = Some s' ∧ buffer_text s'.
Proof.
  induction s as [|a s IH]; intros [Hc Hn]; [by exists ""|].
  inversion Hc as [|? ? Ha Hc']; subst. cbn [commas] in Hn.
  destruct s as [|b s].
  - exists "". cbn [slice_0_m1]. rewrite (is_buffer_char_ascii a Ha).
    split; [done|]. split; [constructor|simpl; lia].
  - destruct IH as (s' & Hs' & Hc'' & Hn'); [split; [done|lia]|].
    exists (String a s'). split.
    + change (slice_0_m1 (String a (String b s)))
        with (String a <$> slice_0_m1 (String b s)). by rewrite Hs'.
    + split; [by constructor|]. cbn [commas].
      assert (commas s' ≤ commas (String b s))%nat; [|lia].
      clear -Hs'. revert s' Hs'. generalize (String b s) as t.
      induction t as [|c t IHt]; intros s' Hs'.
      * by injection Hs' as <-.
      * destruct t as [|d t].
        -- cbn [slice_0_m1] in Hs'. destruct (N_of_ascii c <? 128)%N; [|done].
           injection Hs' as <-. simpl. lia.
        -- change (slice_0_m1 (String c (String d t)))
             with (String c <$> slice_0_m1 (String d t)) in Hs'.
           destruct (slice_0_m1 (String d t)) as [t'|] eqn:Ht; [|done].
           injection Hs' as <-. specialize (IHt t' eq_refl).
           cbn [commas] in *. lia.
Qed.

Lemma eqb_digit_key (a : ascii) (k : string) :
  (2 ≤ String.length k)%nat → String.eqb (String a "") k = false.
Proof.
  destruct k as [|b [|c k]]; simpl; try lia. intros _.
  by destruct (Ascii.eqb a b).
Qed.

Lemma press_digit (buf : string) (a : ascii) :
  press buf (String a "") = Some (buf +:+ String a "").
Proof.
  unfold press. by rewrite !eqb_digit_key by (simpl; lia).
Qed.

Lemma press_dot (buf : string) :
  press buf "dot" = Some (if includes buf "," then buf else buf +:+ ",").
Proof. reflexivity. Qed.

Lemma press_back (buf : string) : press buf "back" = slice_0_m1 buf.
Proof. reflexivity. Qed.

Lemma press_buffer_text (buf k : string) :
  buffer_text buf → buffer_key k →
  ∃ buf', press buf k = Some buf' ∧ buffer_text buf'.
Proof.
  intros [Hc Hn] [->|[->|(a & Ha & ->)]].
  - eexists; split; [reflexivity|].
    destruct (includes buf ",") eqn:Hi; [done|].
    apply includes_comma in Hi. split.
    + rewrite chars_app. apply Forall_app. split; [done|]. by repeat constructor.
    + rewrite commas_app, Hi. simpl. lia.
  - by apply slice_buffer_text.
  - rewrite press_digit. eexists; split; [reflexivity|]. split.
    + rewrite chars_app. apply Forall_app. split; [done|].
      repeat constructor. unfold is_buffer_char. by rewrite Ha.
    + rewrite commas_app. cbn [commas]. rewrite (is_digit_not_comma a Ha). lia.
Qed.

(** X14.  The keypad buffer holds digits and at most one comma: from
    such a buffer, and so from the empty one, every run of digit keys,
    [dot] and [back] is accepted and leaves such a buffer. *)
Theorem keypad_buffer_invariant (buf : string) (keys : list string) :
  buffer_text buf →
  Forall buffer_key keys →
  ∃ buf', press_all buf keys = Some buf' ∧ buffer_text buf'.
Proof.
  intros Hb Hk. revert buf Hb.
  induction Hk as [|k keys Hk _ IH]; intros buf Hb; [by exists buf|].
  destruct (press_buffer_text buf k Hb Hk) as (buf1 & H1 & Hb1).
  destruct (IH buf1 Hb1) as (buf' & H' & Hb'). exists buf'. split; [|done].
  cbn [press_all]. by rewrite H1.
Qed.

Lemma keypad_buffer_invariant_witness :
  ∃ buf', press_all "" ["1"; "dot"; "dot"; "5"; "back"; "7"] = Some buf'
          ∧ buffer_text buf'.
Proof.
  apply (keypad_buffer_invariant "" ["1"; "dot"; "dot"; "5"; "back"; "7"]).
  - split; [constructor|simpl; lia].
  - apply List.Forall_cons; [right; right; by exists "1"%char|].
    apply List.Forall_cons; [left; reflexivity|].
    apply List.Forall_cons; [left; reflexivity|].
    apply List.Forall_cons; [right; right; by exists "5"%char|].
    apply List.Forall_cons; [right; left; reflexivity|].
    apply List.Forall_cons; [right; right; by exists "7"%char|].
    apply List.Forall_nil.
Defined.

Lemma slice_snoc (buf : string) (a : ascii) :
  (N_of_ascii a <? 128)%N = true → slice_0_m1 (buf +:+ String a "") = Some buf.
Proof.
  intros Ha. induction buf as [|b buf IH].
  - rewrite app_nil_l. cbn [slice_0_m1]. by rewrite Ha.
  - rewrite app_cons.
    destruct (buf +:+ String a "") as [|c t] eqn:Ht.
    { by destruct buf. }
    change (slice_0_m1 (String b (String c t)))
      with (String b <$> slice_0_m1 (String c t)). by rewrite IH.
Qed.

(** X15.  [back] undoes the last key: after a digit key, or after [dot]
    on a buffer without a comma, [back] gives the buffer back. *)
Theorem back_undoes_last_key (buf k : string) :
  (k = "dot" ∧ includes buf "," = false)
  ∨ (∃ a, is_digit a = true ∧ k = String a "") →
  press buf k ≫= (λ buf', press buf' "back") = Some buf.
Proof.
  intros [[-> Hi]|(a & Ha & ->)].
  - rewrite press_dot, Hi. cbn [mbind option_bind]. rewrite press_back.
    by apply slice_snoc.
  - rewrite press_digit. cbn [mbind option_bind]. rewrite press_back.
    apply slice_snoc, is_buffer_char_ascii. unfold is_buffer_char. by rewrite Ha.
Qed.

Lemma back_undoes_last_key_witness :
  press "12,5" "7" ≫= (λ buf', press buf' "back") = Some "12,5".
Proof.
  apply (back_undoes_last_key "12,5" "7"). right. by exists "7"%char.
Defined.

(** *** From the buffer to the price *)

Lemma drop_commas_none (s : string) : commas s = 0%nat → drop_commas s = s.
Proof.
  destruct s as [|a s]; [done|]. cbn [commas drop_commas].
  destruct (Ascii.eqb a ","); [lia|done].
Qed.

Lemma drop_trailing_commas_none (s : string) :
  commas s = 0%nat → drop_trailing_commas s = s.
Proof.
  induction s as [|a s IH]; [done|]. cbn [commas drop_trailing_commas only_commas].
  destruct (Ascii.eqb a ","); [lia|]. simpl. intros H. by rewrite IH.
Qed.

Lemma commas_replace (s : string) :
  commas (replace "," "." s) = (commas s - 1)%nat.
Proof.
  induction s as [|a s IH]; [done|].
  cbn [replace]. rewrite prefix_comma. cbn [commas].
  destruct (Ascii.eqb a ",") eqn:E; [by simpl; rewrite Nat.sub_0_r|].
  cbn [commas]. by rewrite E, IH.
Qed.

Lemma priceStr_buffer (buf : string) :
  (commas buf ≤ 1)%nat → priceStr buf = replace "," "." buf.
Proof.
  intros H. unfold priceStr.
  assert (commas (replace "," "." buf) = 0%nat) as H0
    by (rewrite commas_replace; lia).
  by rewrite (drop_commas_none _ H0), (drop_trailing_commas_none _ H0).
Qed.


Lemma is_digit_code (a : ascii) :
  is_digit a = true → (48 ≤ N_of_ascii a ≤ 57)%N.
Proof.
  unfold is_digit. rewrite andb_true_iff, !N.leb_le. lia.
Qed.

Lemma eqb_by_code (a c : ascii) :
  N_of_ascii a ≠ N_of_ascii c → Ascii.eqb a c = false.
Proof. intros H. apply Ascii.eqb_neq. congruence. Qed.

Lemma all_digits_cons (a : ascii) (s : string) :
  all_digits (String a s) ↔ is_digit a = true ∧ all_digits s.
Proof.
  unfold all_digits. cbn [chars]. apply (Forall_cons (λ a, is_digit a = true)).
Qed.

Lemma commas_digits (s : string) : all_digits s → commas s = 0%nat.
Proof.
  induction s as [|a s IH]; [done|]. intros [Ha Hs]%all_digits_cons.
  cbn [commas]. by rewrite (is_digit_not_comma a Ha), IH.
Qed.

Lemma replace_none (s : string) : commas s = 0%nat → replace "," "." s = s.
Proof.
  induction s as [|a s IH]; [done|]. cbn [replace commas].
  rewrite prefix_comma. destruct (Ascii.eqb a ","); [lia|].
  simpl. intros H. by rewrite IH.
Qed.

Lemma replace_first_comma (a rest : string) :
  all_digits a →
  replace "," "." (a +:+ "," +:+ rest) = a +:+ "." +:+ rest.
Proof.
  induction a as [|x a IH].
  { intros _. rewrite !app_nil_l, app_cons, app_nil_l. cbn [replace].
    by rewrite prefix_comma. }
  intros [Hx Ha]%all_digits_cons.
  rewrite !(app_cons x a). cbn [replace]. rewrite prefix_comma.
  by rewrite (is_digit_not_comma x Hx), IH.
Qed.

Lemma numeric_head_code (x : ascii) (r : string) :
  numeric_head (String x r) → (46 ≤ N_of_ascii x ≤ 57)%N.
Proof. intros [H%is_digit_code| ->]; [lia|]. by vm_compute. Qed.

Lemma ws_width_numeric (s : string) : numeric_head s → ws_width s = 0%nat.
Proof.
  destruct s as [|x r]; [done|]. intros H%numeric_head_code.
  unfold ws_width, ws1, ws2, ws3.
  repeat match goal with
  | |- context [(N_of_ascii x =? ?c)%N] =>
    destruct (N.eqb_spec (N_of_ascii x) c); [lia|]
  | |- context [(?c <=? N_of_ascii x)%N] =>
    destruct (N.leb_spec c (N_of_ascii x))
  | |- context [(N_of_ascii x <=? ?c)%N] =>
    destruct (N.leb_spec (N_of_ascii x) c); [lia|]
  end; cbn [andb orb]; by destruct r as [|? [|? ?]].
Qed.

Lemma trimStart_numeric (s : string) : numeric_head s → trimStart s = s.
Proof.
  intros H. pose proof (ws_width_numeric s H) as Hw.
  destruct s as [|x r]; [done|]. unfold trimStart. cbn [trimStart_aux].
  by rewrite Hw.
Qed.

Lemma sign_numeric (s : string) : numeric_head s → sign s = (false, s).
Proof.
  destruct s as [|x r]; [done|]. intros H%numeric_head_code. unfold sign.
  rewrite !eqb_by_code; [done| |]; intros E; rewrite E in H; vm_compute in H;
    destruct H as [H1 H2]; by (apply H1 || apply H2).
Qed.

Lemma Infinity_numeric (s : string) :
  numeric_head s → String.prefix "Infinity" s = false.
Proof.
  destruct s as [|x r]; [done|]. intros H%numeric_head_code.
  rewrite prefix_cons. destruct (ascii_dec "I" x) as [<-|]; [|done].
  vm_compute in H. destruct H as [H1 H2]. exfalso. by apply H2.
Qed.

Lemma digits_app (a rest : string) :
  all_digits a →
  match rest with String x _ => is_digit x = false | EmptyString => True end →
  ∀ acc n,
    digits acc n (a +:+ rest)
    = (foldl (λ acc a, 10 * acc + (Z.of_N (N_of_ascii a) - 48)) acc (chars a),
       (n + String.length a)%nat, rest).
Proof.
  intros Ha Hr. induction a as [|x a IH]; intros acc n.
  - rewrite app_nil_l, Nat.add_0_r. destruct rest as [|y r]; [done|].
    cbn [digits]. by rewrite Hr.
  - apply all_digits_cons in Ha as [Hx Ha]. rewrite app_cons. cbn [digits].
    rewrite Hx, (IH Ha). cbn [chars foldl String.length]. f_equal. f_equal. lia.
Qed.

Lemma digits_whole (a : string) :
  all_digits a → digits 0 0 a = (decimal a, String.length a, "").
Proof.
  intros Ha. rewrite <- (app_nil_r a) at 1. by rewrite (digits_app a "" Ha I).
Qed.

Lemma pow10_0 : pow10 0 = 1%Qc.
Proof. by apply Qc_is_canon. Qed.

Lemma parseFloat_integer (a : string) :
  all_digits a → a ≠ "" →
  parseFloat a = rnd (of_decimal (decimal a) 0).
Proof.
  intros Ha Hne.
  assert (numeric_head a) as Hh.
  { destruct a as [|x a]; [done|]. apply all_digits_cons in Ha as [Hx _]. by left. }
  unfold parseFloat.
  rewrite (trimStart_numeric a Hh), (sign_numeric a Hh), (Infinity_numeric a Hh).
  rewrite (digits_whole a Ha).
  destruct a as [|x a]; [done|]. cbn [String.length Nat.add Nat.eqb exponent].
  rewrite pow10_0, Qcmult_1_r. f_equal. f_equal. cbn. lia.
Qed.

Lemma parseFloat_fraction (a b : string) :
  all_digits a → all_digits b → a ≠ "" ∨ b ≠ "" →
  parseFloat (a +:+ "." +:+ b)
  = rnd (of_decimal (decimal a * 10 ^ Z.of_nat (String.length b) + decimal b)
                    (String.length b)).
Proof.
  intros Ha Hb Hne.
  assert (numeric_head (a +:+ "." +:+ b)) as Hh.
  { destruct a as [|x a]; [by right|]. apply all_digits_cons in Ha as [Hx _].
    by left. }
  unfold parseFloat.
  rewrite (trimStart_numeric _ Hh), (sign_numeric _ Hh), (Infinity_numeric _ Hh).
  rewrite (digits_app a ("." +:+ b) Ha eq_refl).
  rewrite app_cons, app_nil_l. cbn [Ascii.eqb Bool.eqb].
  rewrite (digits_whole b Hb). cbn [Nat.add].
  destruct (String.length a + String.length b =? 0)%nat eqn:E.
  { apply Nat.eqb_eq in E.
    destruct a as [|x a], b as [|y b]; simpl in E; try lia. by destruct Hne. }
  cbn [exponent]. by rewrite pow10_0, Qcmult_1_r.
Qed.

(** X16.  What the keypad buffer is read as: the digits [a] alone give
    the binary64 value nearest to the integer they denote; [a], a comma
    and the digits [b] are normalised to [a.b] and give the binary64
    value nearest to it (an infinity for a number too large, 0 for one
    too small); the comma-stripping replacement changes nothing, a
    comma having become the dot. *)
Theorem keypad_price (a b : string) :
  all_digits a → all_digits b →
  (a ≠ "" → parseFloat (priceStr a) = rnd (of_decimal (decimal a) 0))
  ∧ (a ≠ "" ∨ b ≠ "" →
     priceStr (a +:+ "," +:+ b) = a +:+ "." +:+ b
     ∧ parseFloat (priceStr (a +:+ "," +:+ b))
       = rnd (of_decimal
                (decimal a * 10 ^ Z.of_nat (String.length b) + decimal b)
                (String.length b))).
Proof.
  intros Ha Hb. split.
  - intros Hne. rewrite priceStr_buffer by (rewrite (commas_digits a Ha); lia).
    rewrite (replace_none a (commas_digits a Ha)). by apply parseFloat_integer.
  - intros Hne.
    assert (priceStr (a +:+ "," +:+ b) = a +:+ "." +:+ b) as ->.
    { rewrite priceStr_buffer.
      - by apply replace_first_comma.
      - rewrite !commas_app, (commas_digits a Ha), (commas_digits b Hb).
        simpl. lia. }
    split; [done|]. by apply parseFloat_fraction.
Qed.

Lemma keypad_price_witness :
  parseFloat (priceStr "0,123456785") = rnd (of_decimal 123456785 9).
Proof.
  destruct (keypad_price "0" "123456785") as [_ H].
  - repeat (apply List.Forall_cons; [reflexivity|]). apply List.Forall_nil.
  - repeat (apply List.Forall_cons; [reflexivity|]). apply List.Forall_nil.
  - destruct H as [_ H]; [by left|]. exact H.
Defined.

(** ** The entry points and the store *)

Section BotStore.
Context (OWNER_ID : Z) (toLowerCase : string → string) (toNumber : string → Parsed).

Local Abbreviation handle' := (handle OWNER_ID toLowerCase toNumber).
Local Abbreviation handle_all' := (handle_all OWNER_ID toLowerCase toNumber).
Local Abbreviation on_text' := (on_text OWNER_ID toLowerCase toNumber).





End BotStore.



(** ** The seller's conversation *)

Section Conversation.
Context (OWNER_ID : Z) (toLowerCase : string → string) (toNumber : string → Parsed).

Local Abbreviation handle' := (handle OWNER_ID toLowerCase toNumber).
Local Abbreviation handle_all' := (handle_all OWNER_ID toLowerCase toNumber).
Local Abbreviation on_text' := (on_text OWNER_ID toLowerCase toNumber).

Lemma handle_all_app (es1 es2 : list Event) :
  ∀ b, handle_all' b (es1 ++ es2) = handle_all' b es1 ≫= λ b', handle_all' b' es2.
Proof.
  induction es1 as [|e es1 IH]; intros b; [done|].
  cbn [app handle_all]. destruct (handle' b e) as [b1|]; [|done].
  cbn [mbind option_bind]. apply IH.
Qed.

Lemma on_callback_type (b : Bot) (u : Z) (ty : string) (t : Time) :
  includes ty "type_" = false →
  ∃ b', on_callback b u ("type_" +:+ ty) t = Some b'
        ∧ store b' = store b
        ∧ users b' !! key u
          = Some {| lang := lang (default empty_user (users b !! key u));
                    stage := Some "enter_title";
                    temp := Some {| temp_type := Some ty; temp_title := None;
                                    temp_desc := None |} |}
        ∧ priceBuffers b' = priceBuffers b.
Proof.
  intros H. unfold on_callback. rewrite (route_type ty H).
  eexists. split; [reflexivity|]. split; [done|]. split; [|done].
  cbn [users set_user]. by rewrite lookup_insert_eq.
Qed.

Lemma on_text_plain (b : Bot) (u : Z) (text : string) :
  plain_text toLowerCase text →
  on_text' b u text
  = let k := key u in
    let usr := default {| lang := Some "en"; stage := Some "menu"; temp := None |}
                 (users b !! k) in
    let b := set_user b k usr in
    let text := trim text in
    if bool_decide (stage usr = Some "enter_title")
       || bool_decide (stage usr = Some "create_title") then
      let t := default empty_temp (temp usr) in
      Some (set_user b k
              {| lang := lang usr; stage := Some "enter_desc";
                 temp := Some {| temp_type := temp_type t; temp_title := Some text;
                                 temp_desc := temp_desc t |} |})
    else if bool_decide (stage usr = Some "enter_desc") then
      let t := default empty_temp (temp usr) in
      Some (set_buffer
              (set_user b k
                 {| lang := lang usr; stage := Some "enter_price";
                    temp := Some {| temp_type := temp_type t;
                                    temp_title := temp_title t;
                                    temp_desc := Some text |} |})
              k "")
    else if bool_decide (stage usr = Some "join_wait_id") then
      match deals (store b) !! trim text with
      | None =>
        if proto_member (trim text)
        then Some (set_user b k (set_stage usr "menu"))
        else Some b
      | Some _ => Some (set_user b k (set_stage usr "menu"))
      end
    else Some b.
Proof.
  intros (_ & H1 & H2 & H3). unfold on_text. cbv zeta. rewrite H1.
  apply String.eqb_neq in H2, H3. by rewrite H2, H3.
Qed.

Lemma on_text_title (b : Bot) (u : Z) (usr : User) (text : string) :
  plain_text toLowerCase text →
  users b !! key u = Some usr →
  stage usr = Some "enter_title" →
  ∃ b', on_text' b u text = Some b'
        ∧ store b' = store b
        ∧ users b' !! key u
          = Some {| lang := lang usr; stage := Some "enter_desc";
                    temp := Some {| temp_type := temp_type (default empty_temp (temp usr));
                                    temp_title := Some (trim text);
                                    temp_desc := temp_desc (default empty_temp (temp usr)) |} |}
        ∧ priceBuffers b' = priceBuffers b.
Proof.
  intros Hp Hu Hs. rewrite (on_text_plain b u text Hp). cbv zeta.
  rewrite Hu. cbn [from_option Datatypes.id]. rewrite Hs.
  rewrite bool_decide_eq_true_2 by done. cbn [orb].
  eexists. split; [reflexivity|]. split; [done|]. split; [|done].
  cbn [users set_user]. by rewrite lookup_insert_eq.
Qed.

Lemma on_text_desc (b : Bot) (u : Z) (usr : User) (text : string) :
  plain_text toLowerCase text →
  users b !! key u = Some usr →
  stage usr = Some "enter_desc" →
  ∃ b', on_text' b u text = Some b'
        ∧ store b' = store b
        ∧ users b' !! key u
          = Some {| lang := lang usr; stage := Some "enter_price";
                    temp := Some {| temp_type := temp_type (default empty_temp (temp usr));
                                    temp_title := temp_title (default empty_temp (temp usr));
                                    temp_desc := Some (trim text) |} |}
        ∧ priceBuffers b' !! key u = Some "".
Proof.
  intros Hp Hu Hs. rewrite (on_text_plain b u text Hp). cbv zeta.
  rewrite Hu. cbn [from_option Datatypes.id]. rewrite Hs.
  rewrite !bool_decide_eq_false_2 by done. cbn [orb].
  rewrite bool_decide_eq_true_2 by done.
  eexists. split; [reflexivity|]. split; [done|]. split.
  - cbn [users set_user set_buffer]. by rewrite lookup_insert_eq.
  - cbn [priceBuffers set_buffer]. by rewrite lookup_insert_eq.
Qed.

Lemma on_callback_key (b : Bot) (u : Z) (usr : User) (buf buf' k : string)
    (t : Time) :
  users b !! key u = Some usr →
  priceBuffers b !! key u = Some buf →
  includes k "num_" = false →
  String.eqb k "done" = false →
  press buf k = Some buf' →
  ∃ b', on_callback b u ("num_" +:+ k) t = Some b'
        ∧ store b' = store b
        ∧ users b' !! key u = Some usr
        ∧ priceBuffers b' !! key u = Some buf'.
Proof.
  intros Hu Hb Hk Hd Hp. unfold on_callback. rewrite (route_num k Hk).
  cbn [from_option Datatypes.id set_user set_buffer priceBuffers users store].
  rewrite Hu, Hb. cbn [from_option Datatypes.id]. rewrite Hd, Hp. cbn [fmap option_fmap option_map].
  eexists. split; [reflexivity|]. cbn [store users priceBuffers set_buffer set_user].
  split; [done|]. by rewrite !lookup_insert_eq.
Qed.

Lemma key_of_press (p : string) (a : ascii) :
  is_buffer_char a = true →
  (Ascii.eqb a "," = true → commas p = 0%nat) →
  includes (key_of a) "num_" = false
  ∧ String.eqb (key_of a) "done" = false
  ∧ press p (key_of a) = Some (p +:+ String a "").
Proof.
  intros Ha Hc. unfold key_of. destruct (Ascii.eqb a ",") eqn:E.
  - apply Ascii.eqb_eq in E as ->. split; [done|]. split; [done|].
    rewrite press_dot. apply includes_comma in Hc; [|done]. by rewrite Hc.
  - apply orb_true_iff in Ha as [Ha|Ha]; [|congruence].
    split; [|split; [by apply eqb_digit_key; simpl; lia | apply press_digit]].
    apply (includes_char "n" "um_"). repeat constructor.
    intros ->. by vm_compute in Ha.
Qed.

Lemma typing_writes (u : Z) (t : Time) (usr : User) (r : string) :
  ∀ b p,
    buffer_text (p +:+ r) →
    users b !! key u = Some usr →
    priceBuffers b !! key u = Some p →
    ∃ b', handle_all' b (typing u r t) = Some b'
          ∧ store b' = store b
          ∧ users b' !! key u = Some usr
          ∧ priceBuffers b' !! key u = Some (p +:+ r).
Proof.
  induction r as [|a r IH]; intros b p Ht Hu Hb.
  - exists b. by rewrite app_nil_r.
  - destruct Ht as [Hc Hn]. rewrite chars_app in Hc.
    apply Forall_app in Hc as [Hp Hr]. cbn [chars] in Hr.
    apply (Forall_cons (λ a, is_buffer_char a = true)) in Hr as [Ha Hr].
    rewrite commas_app in Hn. cbn [commas] in Hn.
    destruct (key_of_press p a Ha) as (K1 & K2 & K3).
    { intros E. rewrite E in Hn. lia. }
    destruct (on_callback_key b u usr p _ (key_of a) t Hu Hb K1 K2 K3)
      as (b1 & H1 & S1 & U1 & B1).
    destruct (IH b1 (p +:+ String a "")) as (b' & H' & S' & U' & B'); [|done..|].
    { rewrite append_snoc. split.
      - rewrite chars_app. apply Forall_app. split; [done|].
        cbn [chars]. by apply List.Forall_cons.
      - rewrite commas_app. cbn [commas]. lia. }
    exists b'. unfold typing. cbn [chars fmap list_fmap handle_all handle].
    rewrite H1. cbn [mbind option_bind]. split; [exact H'|].
    split; [congruence|]. split; [done|]. by rewrite B', append_snoc.
Qed.

Lemma on_callback_done (b : Bot) (u : Z) (usr : User) (raw : string)
    (v : Number) (now : Time) :
  users b !! key u = Some usr →
  priceBuffers b !! key u = Some raw →
  parseFloat (priceStr raw) = PFinite v →
  (0 < v)%Qc →
  ∃ b', on_callback b u "num_done" now = Some b'
        ∧ store b'
          = (createDeal (store b) u
               (temp_type (default empty_temp (temp usr)))
               (temp_title (default empty_temp (temp usr)))
               (temp_desc (default empty_temp (temp usr))) v now).2
        ∧ users b' !! key u
          = Some {| lang := lang usr; stage := Some "menu";
                    temp := Some empty_temp |}
        ∧ priceBuffers b' !! key u = None.
Proof.
  intros Hu Hb Hv Hpos. unfold on_callback.
  change (route "num_done") with (RNum (Some "done")).
  cbn [from_option Datatypes.id set_user set_buffer priceBuffers users store].
  rewrite Hu, Hb. cbn [from_option Datatypes.id String.eqb Ascii.eqb Bool.eqb].
  unfold num_done. rewrite Hv. cbn [store].
  rewrite createDeal_accepted by (by apply Qclt_not_le).
  eexists. split; [reflexivity|].
  cbn [store users priceBuffers snd set_buffer set_user].
  rewrite createDeal_accepted by (by apply Qclt_not_le).
  split; [done|]. by rewrite lookup_insert_eq, lookup_delete_eq.
Qed.
End Conversation.

(** X18.  The seller's conversation, end to end: the type button, a
    title, a description (texts that start neither with /start nor
    with the other commands), the keys that write the amount and [done]
    store an open deal under the next id, with the seller, the trimmed
    title and description, the type of the button, and the amount read
    from the buffer rounded to 8 decimals; the seller is back in the
    menu and the buffer is gone. *)
Theorem seller_conversation_creates_deal (OWNER_ID : Z)
    (toLowerCase : string → string) (toNumber : string → Parsed)
    (b : Bot) (u : Z) (ty title_text desc_text amount : string)
    (v : Number) (t now : Time) :
  includes ty "type_" = false →
  plain_text toLowerCase title_text →
  plain_text toLowerCase desc_text →
  buffer_text amount →
  parseFloat (priceStr amount) = PFinite v →
  (0 < v)%Qc →
  ∃ b',
    handle_all OWNER_ID toLowerCase toNumber b
      (Callback u ("type_" +:+ ty) t :: Text u title_text :: Text u desc_text
         :: typing u amount t ++ [Callback u "num_done" now]) = Some b'
    ∧ deals (store b') !! render (_seq (store b))
      = Some {| id := render (_seq (store b)); seller := u; buyer := None;
                title := Some (trim title_text); desc := Some (trim desc_text);
                type := if decide (ty = "") then "NFT" else ty;
                price := toFixed8 v; status := "open"; locked := 0%Qc;
                created_at := now; locked_at := None; sent_at := None;
                completed_at := None |}
    ∧ stage <$> users b' !! key u = Some (Some "menu")
    ∧ priceBuffers b' !! key u = None.
Proof.
  intros Hty Hti Hde Ham Hv Hpos.
  destruct (on_callback_type b u ty t Hty) as (b1 & E1 & S1 & U1 & B1).
  destruct (on_text_title OWNER_ID toLowerCase toNumber b1 u _ title_text Hti U1 eq_refl)
    as (b2 & E2 & S2 & U2 & B2).
  destruct (on_text_desc OWNER_ID toLowerCase toNumber b2 u _ desc_text Hde U2 eq_refl)
    as (b3 & E3 & S3 & U3 & B3).
  destruct (typing_writes OWNER_ID toLowerCase toNumber u t _ amount b3 "" Ham U3 B3)
    as (b4 & E4 & S4 & U4 & B4).
  rewrite app_nil_l in B4.
  destruct (on_callback_done b4 u _ amount v now U4 B4 Hv Hpos)
    as (b5 & E5 & S5 & U5 & B5).
  exists b5. split; [|split; [|split; [by rewrite U5|done]]].
  - cbn [handle_all handle]. rewrite E1. cbn [mbind option_bind].
    rewrite (proj1 Hti), E2. cbn [mbind option_bind].
    rewrite (proj1 Hde), E3. cbn [mbind option_bind].
    rewrite handle_all_app, E4. cbn [mbind option_bind handle_all handle].
    by rewrite E5.
  - rewrite S5, S4, S3, S2, S1.
    rewrite createDeal_accepted by (by apply Qclt_not_le).
    cbn [snd deals temp from_option Datatypes.id temp_type temp_title temp_desc].
    by rewrite lookup_insert_eq.
Qed.

Lemma seller_conversation_creates_deal_witness :
  ∃ b',
    handle_all 1 (λ s, s) (λ _, PNaN) empty_bot
      (Callback 3 ("type_" +:+ "NFT") "2024-01-01T09:00:00.000Z"
         :: Text 3 "Golden gift" :: Text 3 " A gift box, gold plated. "
         :: typing 3 "12,5" "2024-01-01T09:00:00.000Z"
         ++ [Callback 3 "num_done" "2024-01-01T10:00:00.000Z"]) = Some b'
    ∧ deals (store b') !! render (_seq (store empty_bot))
      = Some {| id := render (_seq (store empty_bot)); seller := 3; buyer := None;
                title := Some (trim "Golden gift");
                desc := Some (trim " A gift box, gold plated. ");
                type := if decide ("NFT" = "") then "NFT" else "NFT";
                price :=
                  toFixed8 (match parseFloat (priceStr "12,5") with
                            | PFinite v => v
                            | _ => 0%Qc
                            end);
                status := "open"; locked := 0%Qc;
                created_at := "2024-01-01T10:00:00.000Z"; locked_at := None;
                sent_at := None; completed_at := None |}
    ∧ stage <$> users b' !! key 3 = Some (Some "menu")
    ∧ priceBuffers b' !! key 3 = None.
Proof.
  apply (seller_conversation_creates_deal 1 (λ s, s) (λ _, PNaN) empty_bot 3
           "NFT" "Golden gift" " A gift box, gold plated. " "12,5").
  - reflexivity.
  - split; [reflexivity|]. split; [reflexivity|]. split; vm_compute; discriminate.
  - split; [reflexivity|]. split; [reflexivity|]. split; vm_compute; discriminate.
  - split; [|simpl; lia].
    repeat (apply List.Forall_cons; [reflexivity|]). apply List.Forall_nil.
  - vm_compute. reflexivity.
  - vm_compute. reflexivity.
Defined.

(** X19.  The keypad does not look at the stage: a user the bot has
    never seen who sends the key [7] and [done] gets a deal of 7 TON
    with no title and no description, of type NFT. *)
Theorem keypad_without_conversation (b : Bot) (u : Z) (t now : Time) :
  users b !! key u = None →
  priceBuffers b !! key u = None →
  ∃ b1 b2,
    on_callback b u "num_7" t = Some b1
    ∧ on_callback b1 u "num_done" now = Some b2
    ∧ deals (store b2) !! render (_seq (store b))
      = Some {| id := render (_seq (store b)); seller := u; buyer := None;
                title := None; desc := None; type := "NFT";
                price := of_decimal 7 0; status := "open"; locked := 0%Qc;
                created_at := now; locked_at := None; sent_at := None;
                completed_at := None |}.
Proof.
  intros Hu Hb.
  set (b1 := set_buffer (set_buffer (set_user b (key u) empty_user) (key u) "")
               (key u) "7").
  assert (on_callback b u "num_7" t = Some b1) as E1.
  { unfold on_callback. change (route "num_7") with (RNum (Some "7")).
    cbn [from_option Datatypes.id set_user set_buffer priceBuffers users store].
    by rewrite Hu, Hb. }
  assert (parseFloat (priceStr "7") = PFinite (of_decimal 7 0)) as Hv.
  { vm_compute. f_equal. by apply Qc_is_canon. }
  destruct (on_callback_done b1 u empty_user "7" (of_decimal 7 0) now)
    as (b2 & E2 & S2 & _).
  { unfold b1. cbn [users set_buffer set_user]. by rewrite lookup_insert_eq. }
  { unfold b1. cbn [priceBuffers set_buffer]. by rewrite lookup_insert_eq. }
  { exact Hv. }
  { reflexivity. }
  exists b1, b2. split; [exact E1|]. split; [exact E2|].
  rewrite S2. unfold b1. cbn [store set_buffer set_user].
  rewrite createDeal_accepted by (by vm_compute).
  cbn [snd deals temp empty_user from_option Datatypes.id temp_type temp_title
       temp_desc empty_temp].
  rewrite lookup_insert_eq. do 2 f_equal.
  apply Qc_is_canon. vm_compute. reflexivity.
Qed.

Lemma keypad_without_conversation_witness :
  ∃ b1 b2,
    on_callback empty_bot 3 "num_7" "2024-01-01T09:59:00.000Z" = Some b1
    ∧ on_callback b1 3 "num_done" "2024-01-01T10:00:00.000Z" = Some b2
    ∧ deals (store b2) !! render (_seq (store empty_bot))
      = Some {| id := render (_seq (store empty_bot)); seller := 3; buyer := None;
                title := None; desc := None; type := "NFT";
                price := of_decimal 7 0; status := "open"; locked := 0%Qc;
                created_at := "2024-01-01T10:00:00.000Z"; locked_at := None;
                sent_at := None; completed_at := None |}.
Proof.
  apply (keypad_without_conversation empty_bot 3); reflexivity.
Defined.

(** X20.  Joining by id reads the store and never writes it: in the
    stage join_wait_id, a text (not a command) for which
    [deals[dealId]] is truthy, a stored deal or a member of
    [Object.prototype], takes the buyer back to the menu; any other
    leaves them waiting for an id. *)
Theorem join_by_id (OWNER_ID : Z) (toLowerCase : string → string)
    (toNumber : string → Parsed) (b : Bot) (u : Z) (usr : User)
    (message_text : string) :
  plain_text toLowerCase message_text →
  users b !! key u = Some usr →
  stage usr = Some "join_wait_id" →
  ∃ b',
    on_text OWNER_ID toLowerCase toNumber b u message_text = Some b'
    ∧ store b' = store b
    ∧ priceBuffers b' = priceBuffers b
    ∧ stage <$> users b' !! key u
      = Some (Some (match deals (store b) !! trim (trim message_text) with
                    | Some _ => "menu"
                    | None =>
                      if proto_member (trim (trim message_text)) then "menu"
                      else "join_wait_id"
                    end)).
Proof.
  intros Hp Hu Hs. rewrite (on_text_plain _ _ _ b u message_text Hp). cbv zeta.
  rewrite Hu. cbn [from_option Datatypes.id]. rewrite Hs.
  rewrite !bool_decide_eq_false_2 by done. cbn [orb].
  rewrite bool_decide_eq_true_2 by done. cbn [store set_user].
  destruct (deals (store b) !! trim (trim message_text));
    [|destruct (proto_member (trim (trim message_text)))]; eexists;
    (split; [reflexivity|]); cbn [store priceBuffers users set_user];
    rewrite ?lookup_insert_eq; cbn [fmap option_fmap option_map stage set_stage];
    by rewrite ?Hs.
Qed.

Lemma join_by_id_witness :
  ∃ b',
    on_text 1 (λ s, s) (λ _, PNaN)
      {| store := st_open;
         users := {[ key 2 := {| lang := Some "en"; stage := Some "join_wait_id";
                                 temp := None |} ]};
         priceBuffers := ∅ |} 2 " #A7342 " = Some b'
    ∧ store b' = st_open
    ∧ priceBuffers b' = ∅
    ∧ stage <$> users b' !! key 2
      = Some (Some (match deals st_open !! trim (trim " #A7342 ") with
                    | Some _ => "menu"
                    | None =>
                      if proto_member (trim (trim " #A7342 ")) then "menu"
                      else "join_wait_id"
                    end)).
Proof.
  apply (join_by_id 1 (λ s, s) (λ _, PNaN)
           {| store := st_open;
              users := {[ key 2 := {| lang := Some "en";
                                      stage := Some "join_wait_id";
                                      temp := None |} ]};
              priceBuffers := ∅ |} 2
           {| lang := Some "en"; stage := Some "join_wait_id"; temp := None |}
           " #A7342 ").
  - split; [reflexivity|]. split; [reflexivity|]. split; vm_compute; discriminate.
  - reflexivity.
  - reflexivity.
Defined.

(** X21.  A text that starts with /givebalance is never read as a
    title, a description or a deal id: from anyone but the owner, and
    from the owner with fewer than three words, it changes neither the
    store, nor the price buffers, nor the record of a known user,
    whatever the stage. *)
Theorem givebalance_text_is_swallowed (OWNER_ID : Z)
    (toLowerCase : string → string) (toNumber : string → Parsed)
    (b : Bot) (u : Z) (usr : User) (message_text : string) :
  startsWith (trim message_text) "/givebalance" = true →
  u ≠ OWNER_ID ∨ (length (split_ws (trim message_text)) < 3)%nat →
  users b !! key u = Some usr →
  on_text OWNER_ID toLowerCase toNumber b u message_text = Some b.
Proof.
  intros Hs Hc Hu. unfold on_text. cbv zeta. rewrite Hs, Hu.
  cbn [from_option Datatypes.id].
  assert (set_user b (key u) usr = b) as ->.
  { destruct b as [s us pb]. unfold set_user. cbn [store users priceBuffers] in *.
    by rewrite (insert_id us _ _ Hu). }
  destruct (decide (u ≠ OWNER_ID)) as [|Hn]; [done|].
  destruct Hc as [Hc|Hc]; [done|].
  apply Nat.ltb_lt in Hc. by rewrite Hc.
Qed.

Lemma givebalance_text_is_swallowed_witness :
  on_text 1 (λ s, s) (λ _, PFinite (of_decimal 5 0))
    {| store := empty_store;
       users := {[ key 2 := {| lang := Some "en"; stage := Some "enter_title";
                               temp := None |} ]};
       priceBuffers := ∅ |} 2 "/givebalance 2 5"
  = Some {| store := empty_store;
            users := {[ key 2 := {| lang := Some "en"; stage := Some "enter_title";
                                    temp := None |} ]};
            priceBuffers := ∅ |}.
Proof.
  apply (givebalance_text_is_swallowed 1 (λ s, s) (λ _, PFinite (of_decimal 5 0)) _ 2
           {| lang := Some "en"; stage := Some "enter_title"; temp := None |}).
  - reflexivity.
  - left. lia.
  - reflexivity.
Defined.

(** X22.  The language buttons and [L]: after lang_ru, lang_en and
    lang_ar the user is in the menu and is served the Russian, English
    and Arabic locale; a user the bot has no record of is served the
    English one. *)
Theorem language_choice (b : Bot) (u : Z) (t : Time) :
  (∃ b', on_callback b u "lang_ru" t = Some b'
         ∧ L (users b') u = RU
         ∧ stage <$> users b' !! key u = Some (Some "menu"))
  ∧ (∃ b', on_callback b u "lang_en" t = Some b'
           ∧ L (users b') u = EN
           ∧ stage <$> users b' !! key u = Some (Some "menu"))
  ∧ (∃ b', on_callback b u "lang_ar" t = Some b'
           ∧ L (users b') u = AR
           ∧ stage <$> users b' !! key u = Some (Some "menu"))
  ∧ (users b !! key u = None → L (users b) u = EN).
Proof.
  repeat split;
    try (eexists; split; [reflexivity|];
         unfold L; cbn [users set_user]; by rewrite !lookup_insert_eq).
  intros H. unfold L. by rewrite H.
Qed.

(** ** [ensureLong] *)

Lemma ws2_high (x y : N) : ws2 x y = true → (128 ≤ y)%N.
Proof. unfold ws2. rewrite andb_true_iff, !N.eqb_eq. lia. Qed.

Lemma ws3_high (x y z : N) : ws3 x y z = true → (128 ≤ y ∧ 128 ≤ z)%N.
Proof.
  unfold ws3. rewrite !orb_true_iff, !andb_true_iff, !orb_true_iff,
    !andb_true_iff, !N.eqb_eq, !N.leb_le. lia.
Qed.

Lemma ws_width_app (a : ascii) (t : string) (c : ascii) (r : string) :
  (N_of_ascii c < 128)%N →
  ws_width (String a (t +:+ String c r)) = ws_width (String a t).
Proof.
  intros Hc. unfold ws_width. destruct (ws1 (N_of_ascii a)); [done|].
  destruct t as [|b t].
  - rewrite app_nil_l.
    destruct (ws2 (N_of_ascii a) (N_of_ascii c)) eqn:E2.
    { apply ws2_high in E2. lia. }
    destruct r as [|z r]; [done|].
    destruct (ws3 (N_of_ascii a) (N_of_ascii c) (N_of_ascii z)) eqn:E3; [|done].
    apply ws3_high in E3. lia.
  - rewrite app_cons. destruct (ws2 (N_of_ascii a) (N_of_ascii b)); [done|].
    destruct t as [|d t]; [|done]. rewrite app_nil_l.
    destruct (ws3 (N_of_ascii a) (N_of_ascii b) (N_of_ascii c)) eqn:E3; [|done].
    apply ws3_high in E3. lia.
Qed.

Lemma ws_width_le (s : string) : (ws_width s ≤ String.length s)%nat.
Proof.
  unfold ws_width. destruct s as [|a [|b [|c s]]]; cbn [String.length];
    repeat match goal with |- context [if ?c then _ else _] => destruct c end;
    lia.
Qed.

Lemma split_ws_aux_in_sep (s : string) :
  ∀ k, filter (λ w, w ≠ "") (split_ws_aux k true "" s)
       = filter (λ w, w ≠ "") (split_ws_aux k false "" s).
Proof.
  induction s as [|a s IH]; intros k; [done|]. cbn [split_ws_aux].
  destruct k as [|k]; [|apply IH].
  destruct (ws_width (String a s)) as [|w]; [done|].
  by rewrite filter_cons_False by (by intros H; apply H).
Qed.

Lemma split_ws_aux_app (r t : string) :
  ∀ k in_sep cur,
    (k ≤ String.length t)%nat →
    (in_sep = true → cur = "") →
    filter (λ w, w ≠ "") (split_ws_aux k in_sep cur (t +:+ nl +:+ r))
    = filter (λ w, w ≠ "") (split_ws_aux k in_sep cur t)
      ++ filter (λ w, w ≠ "") (split_ws r).
Proof.
  induction t as [|a t IH]; intros k in_sep cur Hk Hs.
  - cbn [String.length] in Hk. assert (k = 0%nat) as -> by lia.
    rewrite app_nil_l. unfold nl. rewrite app_cons, app_nil_l.
    cbn [split_ws_aux]. change (ws_width (String "010" r)) with 1%nat.
    unfold split_ws. destruct in_sep.
    + rewrite (Hs eq_refl), split_ws_aux_in_sep.
      by rewrite (filter_cons_False _ "") by (by intros H; apply H).
    + rewrite !filter_cons, filter_nil, split_ws_aux_in_sep.
      by destruct (decide (cur ≠ "")).
  - rewrite app_cons. cbn [split_ws_aux String.length] in *.
    destruct k as [|k]; [|apply IH; [lia|done]].
    change (nl +:+ r) with (String "010" r).
    rewrite ws_width_app by (by vm_compute).
    pose proof (ws_width_le (String a t)) as Hw. cbn [String.length] in Hw.
    destruct (ws_width (String a t)) as [|w]; [apply IH; [lia|done]|].
    destruct in_sep; [apply IH; [lia|done]|].
    rewrite !filter_cons, IH by (done || lia).
    by destruct (decide (cur ≠ "")).
Qed.

Lemma words_app (t r : string) :
  words (t +:+ nl +:+ r) = (words t + words r)%nat.
Proof.
  unfold words, split_ws.
  rewrite split_ws_aux_app by (done || lia). by rewrite length_app.
Qed.

Lemma words_filler : words (nl +:+ filler) = 17%nat.
Proof. vm_compute. reflexivity. Qed.

(** X23.  [ensureLong] appends its filler of 17 words below a text of
    fewer than 20 words and leaves a longer one alone, so that the
    result has 20 words or more exactly when the text has three or
    more. *)
Theorem ensureLong_words (text : string) :
  words (ensureLong text)
  = (if (20 <=? words text)%nat then words text else words text + 17)%nat
  ∧ ((20 ≤ words (ensureLong text))%nat ↔ (3 ≤ words text)%nat).
Proof.
  assert (words (ensureLong text)
          = if (20 <=? words text)%nat then words text
            else (words text + 17)%nat) as H.
  { unfold ensureLong. destruct (20 <=? words text)%nat; [done|].
    by rewrite words_app, words_filler. }
  split; [exact H|]. rewrite H.
  destruct (Nat.leb_spec 20 (words text)); lia.
Qed.

(** ** [formatDateISO] *)

Lemma app_assoc_string (s t r : string) : (s +:+ t) +:+ r = s +:+ t +:+ r.
Proof. induction s as [|a s IH]; [done|]. by rewrite !app_cons, IH. Qed.

Lemma prefix_char (c x : ascii) (s : string) :
  String.prefix (String c "") (String x s) = bool_decide (c = x).
Proof.
  rewrite prefix_cons, prefix_empty. by destruct (ascii_dec c x); case_bool_decide.
Qed.

Lemma replace_char (c : ascii) (rep d r : string) :
  Forall (λ a, a ≠ c) (chars d) →
  replace (String c "") rep (d +:+ String c r) = d +:+ rep +:+ r.
Proof.
  induction d as [|x d IH]; intros Hd.
  - rewrite !app_nil_l. cbn [replace]. rewrite prefix_char.
    by rewrite bool_decide_eq_true_2.
  - cbn [chars] in Hd. apply (Forall_cons (λ a, a ≠ c)) in Hd as [Hx Hd].
    rewrite !app_cons. cbn [replace]. rewrite prefix_char.
    rewrite bool_decide_eq_false_2 by congruence. by rewrite (IH Hd).
Qed.

Lemma split_aux_head (c : ascii) (x r : string) :
  ∀ cur, Forall (λ a, a ≠ c) (chars x) →
         split_aux (String c "") 0 cur (x +:+ String c r) !! 0%nat
         = Some (cur +:+ x).
Proof.
  induction x as [|a x IH]; intros cur Hx.
  - rewrite app_nil_l, app_nil_r. cbn [split_aux]. rewrite prefix_char.
    by rewrite bool_decide_eq_true_2.
  - cbn [chars] in Hx. apply (Forall_cons (λ a, a ≠ c)) in Hx as [Ha Hx].
    rewrite app_cons. cbn [split_aux]. rewrite prefix_char.
    rewrite bool_decide_eq_false_2 by congruence.
    by rewrite (IH _ Hx), append_snoc.
Qed.

(** X24.  [formatDateISO] on the shape of [toISOString]: a date, [T],
    a time, a dot and the rest become the date, a space, the time and
    [" UTC"]; the fraction of a second and the zone letter are cut. *)
Theorem formatDateISO_shape (date time rest : string) :
  Forall (λ a, a ≠ "T"%char ∧ a ≠ "."%char) (chars date) →
  Forall (λ a, a ≠ "."%char) (chars time) →
  formatDateISO (date +:+ "T" +:+ time +:+ "." +:+ rest)
  = date +:+ " " +:+ time +:+ " UTC".
Proof.
  intros Hd Ht. unfold formatDateISO.
  change ("T" +:+ time +:+ "." +:+ rest) with (String "T" (time +:+ "." +:+ rest)).
  rewrite (replace_char "T" " " date).
  2:{ eapply Forall_impl; [exact Hd|]. by intros a [? _]. }
  change ("." +:+ rest) with (String "." rest).
  rewrite <- (app_assoc_string " " time), <- (app_assoc_string date).
  unfold split. rewrite (split_aux_head "." _ rest "").
  - cbn [from_option Datatypes.id]. by rewrite app_nil_l, !app_assoc_string.
  - rewrite !chars_app. apply Forall_app. split.
    + eapply Forall_impl; [exact Hd|]. by intros a [_ ?].
    + apply Forall_app. split; [|done]. by repeat constructor.
Qed.

Lemma formatDateISO_shape_witness :
  formatDateISO ("2024-01-01" +:+ "T" +:+ "13:00:00" +:+ "." +:+ "000Z")
  = "2024-01-01" +:+ " " +:+ "13:00:00" +:+ " UTC".
Proof.
  apply (formatDateISO_shape "2024-01-01" "13:00:00" "000Z").
  - repeat (apply List.Forall_cons; [by split|]). apply List.Forall_nil.
  - repeat (apply List.Forall_cons; [done|]). apply List.Forall_nil.
Defined.

(** ** The command line of [/givebalance] *)

Lemma ws_width_printable (a : ascii) (r : string) :
  is_printable a = true → ws_width (String a r) = 0%nat.
Proof.
  unfold is_printable. rewrite andb_true_iff, N.leb_le, N.ltb_lt. intros H.
  unfold ws_width, ws1, ws2, ws3.
  repeat match goal with
  | |- context [(N_of_ascii a =? ?c)%N] =>
    destruct (N.eqb_spec (N_of_ascii a) c); [lia|]
  | |- context [(?c <=? N_of_ascii a)%N] =>
    destruct (N.leb_spec c (N_of_ascii a))
  | |- context [(N_of_ascii a <=? ?c)%N] =>
    destruct (N.leb_spec (N_of_ascii a) c); [lia|]
  end; cbn [andb orb]; by destruct r as [|? [|? ?]].
Qed.

Lemma ws_width_space (r : string) : ws_width (String " " r) = 1%nat.
Proof. reflexivity. Qed.

Lemma trimStart_aux_space (r : string) :
  trimStart_aux 0 (String " " r) = trimStart_aux 0 r.
Proof. reflexivity. Qed.

Lemma trimStart_printable (a : ascii) (r : string) :
  is_printable a = true → trimStart (String a r) = String a r.
Proof.
  intros Ha. unfold trimStart. cbn [trimStart_aux].
  by rewrite (ws_width_printable a r Ha).
Qed.

Lemma tidy_trimStart (s : string) : tidy s → trimStart s ≠ "".
Proof.
  induction 1 as [a Ha|a s Ha _ _|s _ IH].
  - by rewrite trimStart_printable.
  - by rewrite trimStart_printable.
  - unfold trimStart. by rewrite trimStart_aux_space.
Qed.

Lemma tidy_trimEnd (s : string) : tidy s → trimEnd s = s.
Proof.
  intros Hs. induction Hs as [a Ha|a s Ha Hs IH|s Hs IH];
    cbn [trimEnd]; unfold all_ws.
  - rewrite bool_decide_eq_false_2; [done|]. by rewrite trimStart_printable.
  - rewrite bool_decide_eq_false_2; [by rewrite IH|].
    by rewrite trimStart_printable.
  - rewrite bool_decide_eq_false_2; [by rewrite IH|].
    apply (tidy_trimStart (String " " s)). by constructor.
Qed.

Lemma tidy_word (w : string) : printable_word w → tidy w.
Proof.
  intros [Hne Hw]. induction w as [|a w IH]; [done|].
  cbn [chars] in Hw. apply (Forall_cons (λ a, is_printable a = true)) in Hw as [Ha Hw].
  destruct w as [|b w]; [by constructor|].
  apply tidy_printable; [done|]. by apply IH.
Qed.

Lemma tidy_app (w s : string) :
  Forall (λ a, is_printable a = true) (chars w) → tidy s → tidy (w +:+ " " +:+ s).
Proof.
  intros Hw Hs. induction w as [|a w IH].
  - rewrite app_nil_l. change (" " +:+ s) with (String " " s). by constructor.
  - cbn [chars] in Hw.
    apply (Forall_cons (λ a, is_printable a = true)) in Hw as [Ha Hw].
    rewrite app_cons. apply tidy_printable; [done|]. by apply IH.
Qed.

Lemma split_ws_word (w rest : string) :
  Forall (λ a, is_printable a = true) (chars w) →
  ∀ cur, split_ws_aux 0 false cur (w +:+ " " +:+ rest)
         = (cur +:+ w) :: split_ws_aux 0 true "" rest.
Proof.
  induction w as [|a w IH]; intros Hw cur.
  - rewrite app_nil_l, app_nil_r. change (" " +:+ rest) with (String " " rest).
    cbn [split_ws_aux]. by rewrite ws_width_space.
  - cbn [chars] in Hw.
    apply (Forall_cons (λ a, is_printable a = true)) in Hw as [Ha Hw].
    rewrite app_cons. cbn [split_ws_aux].
    rewrite (ws_width_printable a _ Ha), (IH Hw). by rewrite append_snoc.
Qed.

Lemma split_ws_last (w : string) :
  Forall (λ a, is_printable a = true) (chars w) →
  ∀ cur, split_ws_aux 0 false cur w = [cur +:+ w].
Proof.
  induction w as [|a w IH]; intros Hw cur.
  - by rewrite app_nil_r.
  - cbn [chars] in Hw.
    apply (Forall_cons (λ a, is_printable a = true)) in Hw as [Ha Hw].
    cbn [split_ws_aux]. rewrite (ws_width_printable a _ Ha), (IH Hw).
    by rewrite append_snoc.
Qed.

Lemma split_ws_in_sep_word (a : ascii) (s : string) :
  is_printable a = true →
  split_ws_aux 0 true "" (String a s) = split_ws_aux 0 false "" (String a s).
Proof.
  intros Ha. cbn [split_ws_aux]. by rewrite (ws_width_printable a _ Ha).
Qed.

Lemma split_ws_three (w1 w2 w3 : string) :
  printable_word w1 → printable_word w2 → printable_word w3 →
  split_ws (w1 +:+ " " +:+ w2 +:+ " " +:+ w3) = [w1; w2; w3].
Proof.
  intros [_ H1] [N2 H2] [N3 H3]. unfold split_ws.
  rewrite (split_ws_word w1 _ H1 ""), app_nil_l. f_equal.
  destruct w2 as [|a2 w2]; [done|].
  pose proof H2 as H2'. cbn [chars] in H2'.
  apply (Forall_cons (λ a, is_printable a = true)) in H2' as [Ha2 _].
  rewrite app_cons, (split_ws_in_sep_word a2 _ Ha2), <- app_cons.
  rewrite (split_ws_word (String a2 w2) _ H2 ""), app_nil_l. f_equal.
  destruct w3 as [|a3 w3]; [done|].
  pose proof H3 as H3'. cbn [chars] in H3'.
  apply (Forall_cons (λ a, is_printable a = true)) in H3' as [Ha3 _].
  rewrite (split_ws_in_sep_word a3 _ Ha3).
  by rewrite (split_ws_last (String a3 w3) H3 ""), app_nil_l.
Qed.

Lemma trim_command (w1 w2 w3 : string) :
  printable_word w1 → printable_word w2 → printable_word w3 →
  trim (w1 +:+ " " +:+ w2 +:+ " " +:+ w3) = w1 +:+ " " +:+ w2 +:+ " " +:+ w3.
Proof.
  intros H1 H2 H3. unfold trim.
  assert (tidy (w1 +:+ " " +:+ w2 +:+ " " +:+ w3)) as Ht.
  { apply tidy_app; [apply H1|]. apply tidy_app; [apply H2|]. by apply tidy_word. }
  destruct H1 as [N1 H1]. destruct w1 as [|a w1]; [done|].
  cbn [chars] in H1.
  apply (Forall_cons (λ a, is_printable a = true)) in H1 as [Ha _].
  rewrite app_cons in *. rewrite (trimStart_printable a _ Ha).
  by apply tidy_trimEnd.
Qed.

(** X25.  The owner's command line: [/givebalance], a target and an
    amount, separated by single spaces, act on the key spelled by the
    target, taken as text and not as a number, for a target that names
    no member of [Object.prototype]: that key holds a balance
    afterwards, no other balance changes, and the deals, the logs and
    the price buffers are left alone. *)
Theorem owner_command_credits_target (OWNER_ID : Z)
    (toLowerCase : string → string) (toNumber : string → Parsed)
    (b : Bot) (target amount : string) (amt : Number) :
  printable_word target →
  proto_member target = false →
  printable_word amount →
  toNumber amount = PFinite amt →
  ∃ b',
    on_text OWNER_ID toLowerCase toNumber b OWNER_ID
      ("/givebalance" +:+ " " +:+ target +:+ " " +:+ amount) = Some b'
    ∧ is_Some (balances (store b') !! target)
    ∧ (∀ k, k ≠ target →
            balances (store b') !! k = balances (store b) !! k)
    ∧ deals (store b') = deals (store b)
    ∧ logs (store b') = logs (store b)
    ∧ priceBuffers b' = priceBuffers b.
Proof.
  intros Ht Hpm Ha Hn.
  assert (printable_word "/givebalance") as Hc.
  { split; [done|]. repeat (apply List.Forall_cons; [reflexivity|]).
    apply List.Forall_nil. }
  unfold on_text. cbv zeta. rewrite (trim_command _ _ _ Hc Ht Ha).
  unfold startsWith. rewrite prefix_refl_app.
  rewrite (split_ws_three _ _ _ Hc Ht Ha).
  destruct (decide (OWNER_ID ≠ OWNER_ID)) as [?|_]; [done|].
  cbn [length Nat.ltb Nat.leb lookup list_lookup from_option Datatypes.id].
  rewrite Hn, Hpm. eexists. split; [reflexivity|].
  unfold givebalance. destruct (decide (OWNER_ID ≠ OWNER_ID)) as [?|_]; [done|].
  cbn [snd store set_store set_user set_balances balances deals logs priceBuffers].
  split; [by rewrite lookup_insert_eq|].
  split; [|done]. intros k Hk. by rewrite lookup_insert_ne.
Qed.

Lemma owner_command_credits_target_witness :
  ∃ b',
    on_text 1 (λ s, s) (λ _, PFinite (of_decimal 105 1)) empty_bot 1
      ("/givebalance" +:+ " " +:+ "007" +:+ " " +:+ "10.5") = Some b'
    ∧ is_Some (balances (store b') !! "007")
    ∧ (∀ k, k ≠ "007" →
            balances (store b') !! k = balances (store empty_bot) !! k)
    ∧ deals (store b') = deals (store empty_bot)
    ∧ logs (store b') = logs (store empty_bot)
    ∧ priceBuffers b' = priceBuffers empty_bot.
Proof.
  apply (owner_command_credits_target 1 (λ s, s)
           (λ _, PFinite (of_decimal 105 1)) empty_bot "007" "10.5"
           (of_decimal 105 1)).
  - split; [done|]. repeat (apply List.Forall_cons; [reflexivity|]).
    apply List.Forall_nil.
  - reflexivity.
  - split; [done|]. repeat (apply List.Forall_cons; [reflexivity|]).
    apply List.Forall_nil.
  - reflexivity.
Defined.

(** ** The deal buttons and the money operations *)

(** X26.  The buttons made for an issued id act on that deal: the
    callback data buy_, seller_sent_, buyer_received_ and buyer_problem_
    followed by the id change the store exactly as the operation of
    that name does on that id for the user who pressed, and view_
    leaves the store alone. *)
Theorem deal_buttons_act_on_their_deal (b : Bot) (u : Z) (i : string)
    (now : Time) :
  id_shape i = true →
  store <$> on_callback b u ("buy_" +:+ i) now
  = Some (buy (store b) i u now).2
  ∧ store <$> on_callback b u ("seller_sent_" +:+ i) now
    = Some (seller_sent (store b) i u now).2
  ∧ store <$> on_callback b u ("buyer_received_" +:+ i) now
    = Some (buyer_received (store b) i u now).2
  ∧ store <$> on_callback b u ("buyer_problem_" +:+ i) now
    = Some (buyer_problem (store b) i u).2
  ∧ store <$> on_callback b u ("view_" +:+ i) now = Some (store b).
Proof.
  intros Hi. assert (String.eqb i "__proto__" = false) as Hp.
  { destruct (String.eqb_spec i "__proto__") as [->|]; [|done].
    by vm_compute in Hi. }
  apply id_shape_chars in Hi as H.
  assert (route ("buy_" +:+ i) = RBuy (Some i)) as R1 by route_button H.
  assert (route ("seller_sent_" +:+ i) = RSellerSent (Some i)) as R2
    by route_button H.
  assert (route ("buyer_received_" +:+ i) = RBuyerReceived (Some i)) as R3
    by route_button H.
  assert (route ("buyer_problem_" +:+ i) = RBuyerProblem (Some i)) as R4
    by route_button H.
  assert (route ("view_" +:+ i) = RView (Some i)) as R5 by route_button H.
  unfold on_callback. rewrite R1, R2, R3, R4, R5.
  cbn [from_option Datatypes.id]. rewrite Hp.
  cbn [fmap option_fmap option_map store set_store set_user].
  repeat split.
Qed.

Lemma deal_buttons_act_on_their_deal_witness :
  store <$> on_callback {| store := st_open; users := ∅; priceBuffers := ∅ |} 2
              ("buy_" +:+ "#A7342") "2024-01-01T11:00:00.000Z"
  = Some (buy st_open "#A7342" 2 "2024-01-01T11:00:00.000Z").2.
Proof.
  destruct (deal_buttons_act_on_their_deal
              {| store := st_open; users := ∅; priceBuffers := ∅ |} 2 "#A7342"
              "2024-01-01T11:00:00.000Z") as [H _]; [reflexivity|exact H].
Defined.

(** * Properties of the handlers on the numbers of the machine *)

(** ** The error of rounding to binary64 *)

Section Binary64.
Local Open Scope Q_scope.

Lemma round_half_even_err (x : Q) :
  x - (1 # 2) <= inject_Z (round_half_even x) <= x + (1 # 2).
Proof.
  unfold round_half_even.
  pose proof (Qfloor_le x) as H1. pose proof (Qlt_floor x) as H2.
  rewrite inject_Z_plus in H2. change (inject_Z 1) with 1 in H2.
  destruct (Qcompare_spec (x - inject_Z (Qfloor x)) (1 # 2)) as [E|E|E].
  - destruct (Z.even (Qfloor x)); rewrite ?inject_Z_plus;
      change (inject_Z 1) with 1; lra.
  - lra.
  - rewrite inject_Z_plus. change (inject_Z 1) with 1. lra.
Qed.

Lemma pow2_pos (e : Z) : 0 < 2 ^ e.
Proof. by apply Qpower_0_lt. Qed.

Lemma pow2_Z (n : Z) : (0 <= n)%Z → inject_Z (2 ^ n) == 2 ^ n.
Proof. intros Hn. by rewrite Zpower_Qpower. Qed.

Lemma pow2_add (n m : Z) : 2 ^ (n + m) == 2 ^ n * 2 ^ m.
Proof. by apply Qpower_plus. Qed.

(** The significand of a positive number has 53 bits at least. *)
Lemma binary_exponent1_lower (a : Q) :
  0 < a → 2 ^ 52 <= a / 2 ^ binary_exponent1 a.
Proof.
  intros Ha. unfold binary_exponent1.
  set (la := Z.log2 (Qnum a)). set (lb := Z.log2 (Zpos (Qden a))).
  set (e0 := (la - lb - 52)%Z).
  destruct (Qle_bool (2 ^ 52) (a / 2 ^ e0)) eqn:E.
  { by apply Qle_bool_imp_le. }
  clear E. apply Qle_shift_div_l; [apply pow2_pos|].
  assert (0 < Qnum a)%Z as Hn.
  { destruct a as [n d]. unfold Qlt in Ha. simpl in *. lia. }
  destruct (Z.log2_spec (Qnum a) Hn) as [Hl _].
  destruct (Z.log2_spec (Zpos (Qden a)) eq_refl) as [_ Hu].
  fold la in Hl. fold lb in Hu.
  assert (0 <= la)%Z as Hla by apply Z.log2_nonneg.
  assert (0 <= lb)%Z as Hlb by apply Z.log2_nonneg.
  assert (HX : 2 ^ la <= inject_Z (Qnum a)).
  { rewrite <- pow2_Z by done. by rewrite <- Zle_Qle. }
  assert (HY : inject_Z (Zpos (Qden a)) < 2 * 2 ^ lb).
  { change 2 with (2 ^ 1) at 1. rewrite <- pow2_add, <- pow2_Z by lia.
    rewrite <- Zlt_Qlt. by rewrite Z.add_comm. }
  assert (HA : a * inject_Z (Zpos (Qden a)) == inject_Z (Qnum a)).
  { destruct a as [n d]. simpl. rewrite (Qmake_Qdiv n d). field.
    intros H. discriminate H. }
  replace (e0 - 1)%Z with (la + (- lb + -53))%Z by (unfold e0; lia).
  rewrite !pow2_add, Qpower_opp.
  pose proof (pow2_pos la) as PX. pose proof (pow2_pos lb) as PY.
  set (X := 2 ^ la) in *. set (Y := 2 ^ lb) in *.
  set (D := inject_Z (Zpos (Qden a))) in *. set (N := inject_Z (Qnum a)) in *.
  assert (0 < D) as PD by (unfold D; rewrite <- (Zlt_Qlt 0); lia).
  assert (2 ^ 52 * (X * (/ Y * 2 ^ (-53))) == X / (2 * Y)) as ->.
  { change (2 ^ 52) with (4503599627370496 # 1).
    change (2 ^ (-53)) with (1 # 9007199254740992). field. lra. }
  apply Qle_shift_div_r; [lra|].
  apply Qmult_le_r with D; [done|].
  assert (a * (2 * Y) * D == N * (2 * Y)) as -> by (rewrite <- HA; ring).
  nra.
Qed.

Lemma tiny_pos : 0 < tiny.
Proof. apply pow2_pos. Qed.

Lemma tiny_small : tiny * (100000000 # 1) <= 1 # 1152921504606846976.
Proof. by vm_compute. Qed.

(** Below the largest finite number the result is finite, and off by
    half a unit in the last place at most. *)
Lemma rnd_pos_err (a : Q) :
  0 < a → a < 2 ^ 1023 →
  ∃ v, rnd_pos a = Some v
       ∧ a - (a * ulp53 + tiny) <= v <= a + (a * ulp53 + tiny).
Proof.
  intros Ha Hmax. unfold rnd_pos.
  set (e := binary_exponent a). pose proof (pow2_pos e) as HP.
  pose proof (round_half_even_err (a / 2 ^ e)) as Hm.
  set (m := inject_Z (round_half_even (a / 2 ^ e))) in *.
  assert (Ht : a == a / 2 ^ e * 2 ^ e) by (field; lra).
  assert (He : 2 ^ e * (1 # 2) <= a * ulp53 + tiny).
  { pose proof tiny_pos as HT.
    unfold e, binary_exponent.
    destruct (Z.max_spec (binary_exponent1 a) (-1074)) as [[_ ->]|[_ ->]].
    - assert (2 ^ (-1074) == 2 * tiny) as -> by reflexivity.
      unfold ulp53. nra.
    - pose proof (binary_exponent1_lower a Ha) as Hl.
      pose proof (pow2_pos (binary_exponent1 a)) as HP1.
      set (P := 2 ^ binary_exponent1 a) in *.
      assert (2 ^ 52 * P <= a) as Hl'.
      { apply Qmult_le_r with (/ P); [by apply Qinv_lt_0_compat|].
        assert (2 ^ 52 * P * / P == 2 ^ 52) as -> by (field; lra). exact Hl. }
      change (2 ^ 52) with (4503599627370496 # 1) in Hl'. unfold ulp53.
      clearbody P. clear -HT HP1 Hl'. lra. }
  set (P := 2 ^ e) in *. set (t := a / P) in *.
  assert (Hv : a - P * (1 # 2) <= m * P <= a + P * (1 # 2)).
  { rewrite Ht. nra. }
  assert (Hlt : m * P < 2 ^ 1024).
  { assert (tiny <= 1) as HT1 by (by vm_compute).
    assert (2 ^ 1024 == 2 * 2 ^ 1023) as -> by reflexivity.
    assert (2 <= 2 ^ 1023) as HM by (by vm_compute).
    set (M := 2 ^ 1023) in *. unfold ulp53 in He.
    clearbody M m P. clear -He Hv Hmax HT1 HM Ha. lra. }
  destruct (Qle_bool (2 ^ 1024) (m * P)) eqn:E.
  { apply Qle_bool_imp_le in E. lra. }
  eexists. split; [reflexivity|]. clearbody m P. clear -He Hv. lra.
Qed.

(** The same for a number of either sign, with a bound [B] of its
    size. *)
Lemma rnd_err (q : Qc) (B : Q) :
  - B <= this q <= B → B < 2 ^ 1023 →
  ∃ v, rnd q = PFinite v
       ∧ this q - (B * ulp53 + tiny) <= this v <= this q + (B * ulp53 + tiny).
Proof.
  intros [Hl Hu] HB. unfold rnd. pose proof tiny_pos as HT.
  destruct (Qcompare_spec (this q) 0) as [E|E|E].
  - exists 0%Qc. split; [done|]. change (this 0%Qc) with 0.
    unfold ulp53. lra.
  - assert (0 < - this q) as Hp by lra.
    destruct (rnd_pos_err (- this q) Hp) as (v & -> & Hv); [lra|].
    eexists. split; [reflexivity|]. cbn [this Q2Qc]. rewrite Qred_correct.
    unfold ulp53 in *. lra.
  - destruct (rnd_pos_err (this q) E) as (v & -> & Hv); [lra|].
    eexists. split; [reflexivity|]. cbn [this Q2Qc]. rewrite Qred_correct.
    unfold ulp53 in *. lra.
Qed.
End Binary64.

(** ** Amounts of 8 decimals on the machine *)

Section Units.
Local Open Scope Q_scope.

Lemma round_half_away_unique (t : Q) (k : Z) :
  inject_Z k - (1 # 2) < t → t < inject_Z k + (1 # 2) →
  round_half_away t = k.
Proof.
  intros Hl Hu. destruct (round_half_away_near t) as [H1 H2].
  set (r := round_half_away t) in *.
  assert (inject_Z r < inject_Z (k + 1)) as Ha.
  { rewrite inject_Z_plus. change (inject_Z 1) with 1. lra. }
  assert (inject_Z k < inject_Z (r + 1)) as Hb.
  { rewrite inject_Z_plus. change (inject_Z 1) with 1. lra. }
  rewrite <- Zlt_Qlt in Ha, Hb. lia.
Qed.

Lemma cap_bounds (n : Z) :
  (Z.abs n <= cap)%Z →
  - (562949953421312 # 1) <= inject_Z n <= 562949953421312 # 1.
Proof.
  change cap with 562949953421312%Z. intros Hn.
  change (562949953421312 # 1) with (inject_Z 562949953421312).
  change (- inject_Z 562949953421312) with (inject_Z (- 562949953421312)).
  rewrite <- !Zle_Qle. lia.
Qed.

Lemma grid_units (n : Z) : this (grid n) * (100000000 # 1) == inject_Z n.
Proof. apply grid_scaled. Qed.

(** An amount below the bound is held to a sixteenth of a unit. *)
Lemma near_dec8 (n : Z) :
  (Z.abs n <= cap)%Z → near (dec8 n) (inject_Z n) (1 # 8).
Proof.
  intros Hn%cap_bounds. pose proof (grid_units n) as Hg.
  destruct (rnd_err (grid n) (562949953421312 # 100000000)) as (v & Hv & He).
  - lra.
  - by vm_compute.
  - exists v. split; [exact Hv|].
    pose proof tiny_small as HT. pose proof tiny_pos as HT0.
    unfold ulp53 in He. set (q := this (grid n)) in *.
    set (z := inject_Z n) in *. set (w := this v) in *.
    clearbody q z w. clear -Hn Hg He HT HT0. lra.
Qed.

Lemma near_neg (x : Parsed) (r δ : Q) : near x r δ → near (Js.neg x) (- r) δ.
Proof.
  intros (v & -> & Hv). exists (- v)%Qc. split; [done|].
  assert (this (- v)%Qc == - this v) as -> by apply Qred_correct. lra.
Qed.

Lemma near_add (x y : Parsed) (r1 r2 δ1 δ2 B : Q) :
  near x r1 δ1 → near y r2 δ2 →
  - B <= r1 + r2 - (δ1 + δ2) → r1 + r2 + (δ1 + δ2) <= B →
  B <= 1152921504606846976 # 1 →
  near (Js.add x y) (r1 + r2)
       (δ1 + δ2 + B * ulp53 + (1 # 1152921504606846976)).
Proof.
  intros (a & -> & Ha) (b & -> & Hb) Hl Hu HB. cbn [Js.add].
  assert (this (a + b)%Qc == this a + this b) as Hs by apply Qred_correct.
  destruct (rnd_err (a + b)%Qc (B * (1 # 100000000))) as (v & Hv & He).
  - rewrite Hs. lra.
  - apply Qle_lt_trans with ((1152921504606846976 # 1) * (1 # 100000000));
      [lra | by vm_compute].
  - exists v. split; [exact Hv|].
    pose proof tiny_small as HT. pose proof tiny_pos as HT0.
    rewrite Hs in He. unfold ulp53 in *.
    set (p := this a) in *. set (q := this b) in *. set (w := this v) in *.
    clearbody p q w. clear -Ha Hb Hl Hu He HT HT0. lra.
Qed.

Lemma near_sub (x y : Parsed) (r1 r2 δ1 δ2 B : Q) :
  near x r1 δ1 → near y r2 δ2 →
  - B <= r1 - r2 - (δ1 + δ2) → r1 - r2 + (δ1 + δ2) <= B →
  B <= 1152921504606846976 # 1 →
  near (Js.sub x y) (r1 + - r2)
       (δ1 + δ2 + B * ulp53 + (1 # 1152921504606846976)).
Proof.
  intros Hx Hy Hl Hu HB. unfold Js.sub.
  apply near_add; [done | by apply near_neg | lra | lra | done].
Qed.

(** [Number(x.toFixed(8))] of a number less than half a unit from
    [k * 10^-8] is the number that holds [k * 10^-8]. *)
Lemma near_toFixed8 (x : Parsed) (r δ : Q) (k : Z) :
  near x r δ →
  inject_Z k - (1 # 2) < r - δ → r + δ < inject_Z k + (1 # 2) →
  (Z.abs k <= 10 ^ 28)%Z →
  Js.toFixed8 x = dec8 k.
Proof.
  intros (v & -> & Hv) Hl Hu Hk. unfold Js.toFixed8.
  assert (- (10000000000000000000000000000 # 1) <= inject_Z k
          <= 10000000000000000000000000000 # 1) as Hk'.
  { change (10000000000000000000000000000 # 1)
      with (inject_Z 10000000000000000000000000000).
    change (- inject_Z 10000000000000000000000000000)
      with (inject_Z (- 10000000000000000000000000000)).
    rewrite <- !Zle_Qle. change (10 ^ 28)%Z with 10000000000000000000000000000%Z in Hk.
    lia. }
  destruct (Qle_bool (inject_Z (10 ^ 21)) (Qabs (this v))) eqn:E.
  { apply Qle_bool_imp_le in E.
    change (inject_Z (10 ^ 21)) with (1000000000000000000000 # 1) in E.
    revert E. apply Qabs_case; intros; lra. }
  unfold dec8, Num.toFixed8. do 2 f_equal.
  apply round_half_away_unique;
    change (inject_Z 100000000) with (100000000 # 1); lra.
Qed.

Lemma dec8_0 : dec8 0 = PFinite 0%Qc.
Proof. reflexivity. Qed.

Lemma or0_finite (v : Number) : Js.or0 (Some (PFinite v)) = PFinite v.
Proof.
  cbn [Js.or0 Js.falsy]. case_bool_decide as E; [by rewrite E | done].
Qed.

Lemma dec8_finite (n : Z) : (Z.abs n <= cap)%Z → ∃ v, dec8 n = PFinite v.
Proof. intros (v & Hv & _)%near_dec8. by exists v. Qed.

Lemma or0_dec8 (n : Z) : (Z.abs n <= cap)%Z → Js.or0 (Some (dec8 n)) = dec8 n.
Proof. intros (v & ->)%dec8_finite. apply or0_finite. Qed.

Lemma toFixed8_dec8 (n : Z) : (Z.abs n <= cap)%Z → Js.toFixed8 (dec8 n) = dec8 n.
Proof.
  intros Hn. apply (near_toFixed8 _ (inject_Z n) (1 # 8)).
  - by apply near_dec8.
  - lra.
  - lra.
  - change cap with 562949953421312%Z in Hn.
    change (10 ^ 28)%Z with 10000000000000000000000000000%Z. lia.
Qed.

(** Sums and differences of amounts below the bound are exact. *)
Lemma add_dec8 (n m : Z) :
  (Z.abs n <= cap)%Z → (Z.abs m <= cap)%Z →
  Js.toFixed8 (Js.add (dec8 n) (dec8 m)) = dec8 (n + m).
Proof.
  intros Hn Hm.
  pose proof (near_add _ _ _ _ _ _ (1125899906842625 # 1)
                (near_dec8 n Hn) (near_dec8 m Hm)) as H.
  apply cap_bounds in Hn as Hn'. apply cap_bounds in Hm as Hm'.
  eapply near_toFixed8.
  - apply H; lra.
  - rewrite inject_Z_plus. unfold ulp53. lra.
  - rewrite inject_Z_plus. unfold ulp53. lra.
  - change cap with 562949953421312%Z in *.
    change (10 ^ 28)%Z with 10000000000000000000000000000%Z. lia.
Qed.

Lemma sub_dec8 (n m : Z) :
  (Z.abs n <= cap)%Z → (Z.abs m <= cap)%Z →
  Js.toFixed8 (Js.sub (dec8 n) (dec8 m)) = dec8 (n - m).
Proof.
  intros Hn Hm.
  pose proof (near_sub _ _ _ _ _ _ (1125899906842625 # 1)
                (near_dec8 n Hn) (near_dec8 m Hm)) as H.
  apply cap_bounds in Hn as Hn'. apply cap_bounds in Hm as Hm'.
  eapply near_toFixed8.
  - apply H; lra.
  - unfold Z.sub. rewrite inject_Z_plus, inject_Z_opp. unfold ulp53. lra.
  - unfold Z.sub. rewrite inject_Z_plus, inject_Z_opp. unfold ulp53. lra.
  - change cap with 562949953421312%Z in *.
    change (10 ^ 28)%Z with 10000000000000000000000000000%Z. lia.
Qed.

(** The order of amounts below the bound is that of their units. *)
Lemma lt_dec8 (n m : Z) :
  (Z.abs n <= cap)%Z → (Z.abs m <= cap)%Z →
  Js.lt (dec8 n) (dec8 m) = bool_decide (n < m)%Z.
Proof.
  intros Hn Hm.
  destruct (decide (n = m)) as [->|Hne].
  { destruct (dec8_finite m Hm) as (v & ->). cbn [Js.lt].
    rewrite !bool_decide_eq_false_2; [done | lia | apply Qlt_irrefl]. }
  destruct (near_dec8 n Hn) as (a & -> & Ha).
  destruct (near_dec8 m Hm) as (b & -> & Hb). cbn [Js.lt].
  destruct (decide (n < m)%Z) as [E|E].
  - rewrite !bool_decide_eq_true_2; [done..|]. unfold Qclt.
    assert (inject_Z n + 1 <= inject_Z m).
    { change 1 with (inject_Z 1). rewrite <- inject_Z_plus, <- Zle_Qle. lia. }
    lra.
  - rewrite !bool_decide_eq_false_2; [done..|]. unfold Qclt.
    assert (inject_Z m + 1 <= inject_Z n).
    { change 1 with (inject_Z 1). rewrite <- inject_Z_plus, <- Zle_Qle. lia. }
    lra.
Qed.

Lemma le0_dec8 (n : Z) :
  (Z.abs n <= cap)%Z →
  Js.falsy (dec8 n) || Js.isNaN (dec8 n) || Js.le0 (dec8 n)
  = bool_decide (n <= 0)%Z.
Proof.
  intros Hn.
  destruct (decide (n = 0%Z)) as [->|Hne]; [reflexivity|].
  destruct (near_dec8 n Hn) as (a & -> & Ha). cbn [Js.falsy Js.isNaN Js.le0].
  rewrite orb_false_r.
  destruct (decide (n <= 0)%Z) as [E|E].
  - assert (inject_Z n + 1 <= 0).
    { change 1 with (inject_Z 1). change 0 with (inject_Z 0).
      rewrite <- inject_Z_plus, <- Zle_Qle. lia. }
    rewrite (bool_decide_eq_true_2 (a ≤ 0)%Qc), (bool_decide_eq_true_2 (n <= 0)%Z);
      [apply orb_true_r | done |].
    unfold Qcle. change (this 0%Qc) with 0. lra.
  - assert (1 <= inject_Z n).
    { change 1 with (inject_Z 1). rewrite <- Zle_Qle. lia. }
    rewrite (bool_decide_eq_false_2 (a ≤ 0)%Qc), (bool_decide_eq_false_2 (n <= 0)%Z);
      [| done |].
    + rewrite orb_false_r. apply bool_decide_eq_false_2. intros ->.
      change (this 0%Qc) with 0 in Ha. lra.
    + unfold Qcle. change (this 0%Qc) with 0. lra.
Qed.

(** What [toFixed(8)] prints of a held amount is the amount. *)
Lemma decimal_dec8 (n : Z) : (Z.abs n <= cap)%Z → Js.decimal (dec8 n) = grid n.
Proof.
  intros Hn. destruct (near_dec8 n Hn) as (a & -> & Ha). cbn [Js.decimal].
  unfold Num.toFixed8. f_equal. apply round_half_away_unique;
    change (inject_Z 100000000) with (100000000 # 1); lra.
Qed.
End Units.

(** ** The ledger in decimals describes the caches of the machine *)

Lemma smallb_spec (v : Number) :
  smallb v = true → ∃ n, v = grid n ∧ Z.abs n ≤ cap.
Proof.
  unfold smallb. intros [H1 H2]%andb_true_iff.
  apply bool_decide_eq_true_1 in H1. apply Z.leb_le in H2.
  by exists (units v).
Qed.

Lemma smallb_grid (n : Z) : Z.abs n ≤ cap → smallb (grid n) = true.
Proof.
  intros Hn. unfold smallb.
  assert (units (grid n) = n) as ->.
  { unfold units. apply round_half_away_Z, grid_scaled. }
  rewrite bool_decide_eq_true_2 by done. by apply Z.leb_le.
Qed.

Lemma small_store_balance (s : Store) (k : string) (v : Number) :
  small_store s = true → balances s !! k = Some v → smallb v = true.
Proof.
  unfold small_store. intros [H _]%andb_true_iff Hk.
  rewrite forallb_forall in H. apply H, list_elem_of_In, list_elem_of_fmap.
  exists (k, v). split; [done|]. by apply elem_of_map_to_list.
Qed.

Lemma small_store_deal (s : Store) (k : string) (d : Deal) :
  small_store s = true → deals s !! k = Some d →
  smallb (price d) = true ∧ smallb (locked d) = true.
Proof.
  unfold small_store. intros [_ H]%andb_true_iff Hk.
  rewrite forallb_forall in H. apply andb_true_iff.
  apply (H d), list_elem_of_In, list_elem_of_fmap.
  exists (k, d). split; [done|]. by apply elem_of_map_to_list.
Qed.

Lemma grid_lt (n m : Z) : (grid n < grid m)%Qc ↔ n < m.
Proof.
  unfold Qclt. pose proof (grid_units n) as Hn. pose proof (grid_units m) as Hm.
  rewrite (Zlt_Qlt n m). split; intros H; lra.
Qed.

Lemma grid_le (n m : Z) : (grid n ≤ grid m)%Qc ↔ n ≤ m.
Proof.
  unfold Qcle. pose proof (grid_units n) as Hn. pose proof (grid_units m) as Hm.
  rewrite (Zle_Qle n m). split; intros H; lra.
Qed.

Lemma grid_minus (n m : Z) : (grid n - grid m)%Qc = grid (n - m).
Proof. unfold Qcminus. by rewrite grid_opp, grid_plus. Qed.

(** [Number(balances[k] || 0)] on either side. *)
Lemma sim_balance (s : Store) (k : string) :
  small_store s = true →
  ∃ n, Z.abs n ≤ cap
       ∧ balance_of (balances s) k = grid n
       ∧ Js.or0 (rnd <$> balances s !! k) = dec8 n.
Proof.
  intros Hs. unfold balance_of.
  destruct (balances s !! k) as [v|] eqn:Hk; cbn.
  - destruct (smallb_spec v (small_store_balance s k v Hs Hk)) as (n & -> & Hn).
    exists n. split; [done|]. split; [done|]. by apply or0_dec8.
  - exists 0. split; [by vm_compute|]. split; [by rewrite grid_0 | done].
Qed.

Lemma sim_createDeal (s : Store) (u : Z) (ty ti de : option string)
    (p : Number) (now : Time) :
  smallb p = true →
  Js.createDeal (js_store s) u ty ti de (rnd p) now
  = ((createDeal s u ty ti de p now).1, js_store (createDeal s u ty ti de p now).2).
Proof.
  intros (n & -> & Hn)%smallb_spec. unfold Js.createDeal, createDeal.
  fold (dec8 n). rewrite (le0_dec8 n Hn).
  assert (bool_decide (grid n ≤ 0)%Qc = bool_decide (n ≤ 0)) as ->.
  { apply bool_decide_ext. rewrite <- grid_0. apply grid_le. }
  case_bool_decide; [done|]. cbn [Js._seq js_store].
  destruct (nextDealId (_seq s)) as [i c]. cbn [fst snd].
  unfold js_store. cbn [_seq balances deals logs Js.balances Js.deals Js.logs].
  rewrite fmap_insert. by rewrite toFixed8_dec8, toFixed8_grid.
Qed.

Lemma sim_buy (s : Store) (d : string) (u : Z) (now : Time) :
  small_store s = true →
  (Js.buy (js_store s) d u now).2 = js_store (buy s d u now).2.
Proof.
  intros Hs. unfold Js.buy, buy. cbn [Js.deals Js.balances js_store].
  rewrite lookup_fmap.
  destruct (deals s !! d) as [deal|] eqn:Hd; cbn [fmap option_fmap option_map].
  2: { by destruct (proto_member d). }
  cbn [Js.status Js.price js_deal].
  destruct (decide (status deal ≠ "open")) as [Hst|Hst]; [done|].
  destruct (sim_balance s (key u) Hs) as (n & Hn & -> & Hb).
  rewrite lookup_fmap, Hb.
  destruct (small_store_deal s d deal Hs Hd) as [(m & Hp & Hm)%smallb_spec _].
  rewrite Hp. fold (dec8 m). rewrite (or0_dec8 m Hm), (lt_dec8 n m Hn Hm).
  assert (bool_decide (grid n < grid m)%Qc = bool_decide (n < m)) as ->.
  { apply bool_decide_ext, grid_lt. }
  case_bool_decide; [done|]. cbn [snd].
  unfold js_store. cbn [_seq balances deals logs].
  rewrite !fmap_insert, (sub_dec8 n m Hn Hm), grid_minus, toFixed8_grid.
  unfold js_deal at 2. cbn [id seller buyer title desc type price status locked
    created_at locked_at sent_at completed_at].
  by rewrite Hp.
Qed.

Lemma sim_seller_sent (s : Store) (d : string) (u : Z) (now : Time) :
  (Js.seller_sent (js_store s) d u now).2 = js_store (seller_sent s d u now).2.
Proof.
  unfold Js.seller_sent, seller_sent. cbn [Js.deals js_store].
  rewrite lookup_fmap.
  destruct (deals s !! d) as [deal|] eqn:Hd; cbn [fmap option_fmap option_map].
  2: { by destruct (proto_member d). }
  cbn [snd]. unfold js_store, set_deals. cbn [_seq balances deals logs].
  by rewrite fmap_insert.
Qed.

Lemma sim_buyer_received (s : Store) (d : string) (u : Z) (now : Time) :
  small_store s = true →
  (Js.buyer_received (js_store s) d u now).2
  = js_store (buyer_received s d u now).2.
Proof.
  intros Hs. unfold Js.buyer_received, buyer_received.
  cbn [Js.deals Js.balances Js.logs js_store]. rewrite lookup_fmap.
  destruct (deals s !! d) as [deal|] eqn:Hd; cbn [fmap option_fmap option_map].
  2: { by destruct (proto_member d). }
  change (Js.truthy_buyer (js_deal deal)) with (truthy_buyer deal).
  destruct (truthy_buyer deal) as [b|]; [|done].
  cbn [Js.seller Js.locked js_deal snd].
  destruct (sim_balance s (key (seller deal)) Hs) as (n & Hn & -> & Hb).
  rewrite lookup_fmap, Hb.
  destruct (small_store_deal s d deal Hs Hd) as [_ (m & Hl & Hm)%smallb_spec].
  rewrite Hl. fold (dec8 m). rewrite (or0_dec8 m Hm).
  unfold js_store. cbn [_seq balances deals logs].
  rewrite !fmap_insert, (add_dec8 n m Hn Hm), grid_plus, toFixed8_grid.
  unfold js_deal at 2, js_log at 2.
  cbn [id seller buyer title desc type price status locked
    created_at locked_at sent_at completed_at
    log_id log_seller log_buyer log_amount log_title log_desc log_completed_at].
  by rewrite Hl.
Qed.

Lemma sim_buyer_problem (s : Store) (d : string) (u : Z) :
  (Js.buyer_problem (js_store s) d u).2 = js_store (buyer_problem s d u).2.
Proof.
  unfold Js.buyer_problem, buyer_problem. cbn [Js.deals js_store].
  rewrite lookup_fmap.
  destruct (deals s !! d) as [deal|]; cbn [fmap option_fmap option_map];
    [done | by destruct (proto_member d)].
Qed.

Lemma proto_member_proto (t : string) :
  proto_member t = false → String.eqb t "__proto__" = false.
Proof.
  intros H. destruct (String.eqb_spec t "__proto__") as [->|]; [|done].
  by vm_compute in H.
Qed.

Lemma sim_givebalance (owner : Z) (s : Store) (f : Z) (t : string)
    (a : Number) :
  small_store s = true → smallb a = true → proto_member t = false →
  (Js.givebalance owner (js_store s) f t (rnd a)).2
  = js_store (givebalance owner s f t (Some a)).2.
Proof.
  intros Hs (m & -> & Hm)%smallb_spec Ht. unfold Js.givebalance, givebalance.
  destruct (decide (f ≠ owner)) as [Hf|Hf]; [done|].
  fold (dec8 m). destruct (dec8_finite m Hm) as (v & Hv). rewrite Hv.
  cbn [Js.isNaN snd]. rewrite <- Hv. rewrite (proto_member_proto t Ht), Ht.
  cbn [Js.balances js_store]. rewrite lookup_fmap.
  destruct (sim_balance s t Hs) as (n & Hn & Hb & Hj).
  assert (match rnd <$> balances s !! t with
          | Some v0 => Js.or0 (Some v0)
          | None => PFinite 0%Qc
          end = dec8 n) as ->.
  { rewrite <- Hj. by destruct (balances s !! t). }
  unfold js_store, set_balances. cbn [_seq balances deals logs].
  by rewrite fmap_insert, (add_dec8 n m Hn Hm), Hb, grid_plus, toFixed8_grid.
Qed.

Lemma sim_step (owner : Z) (s : Store) (o : Op) :
  small_store s = true → small_op o = true →
  (Js.step owner (js_store s) (js_op o)).2 = js_store (step owner s o).2.
Proof.
  intros Hs Ho. destruct o as [u ty ti de p now| | | | |f t [a|]];
    cbn [js_op Js.step step small_op] in *.
  - by rewrite sim_createDeal.
  - by apply sim_buy.
  - apply sim_seller_sent.
  - by apply sim_buyer_received.
  - apply sim_buyer_problem.
  - apply andb_true_iff in Ho as [Ha Ht]. apply negb_true_iff in Ht.
    by apply sim_givebalance.
  - unfold Js.givebalance, givebalance. by destruct (decide (f ≠ owner)).
Qed.

(** The run of the machine from the caches that hold a ledger of
    amounts below the bound ends in the caches that hold the ledger the
    run in decimals ends in. *)
Lemma small_op_pristine (o : Op) :
  small_op o = true → Js.writes_prototype (js_op o) = false.
Proof.
  destruct o as [| | d u now | | |f t [a|]]; try done.
  cbn [small_op js_op Js.writes_prototype]. by intros ->%negb_true_iff.
Qed.

Lemma sim_run (owner : Z) (ops : list Op) :
  ∀ s, stays_small owner s ops = true →
       Js.run owner (js_store s) (js_op <$> ops)
       = Some (js_store (run owner s ops)).
Proof.
  induction ops as [|o ops IH]; intros s H; [done|].
  cbn [stays_small] in H.
  apply andb_true_iff in H as [[Hs Ho]%andb_true_iff H].
  cbn [fmap list_fmap Js.run run].
  rewrite (small_op_pristine o Ho), (sim_step owner s o Hs Ho).
  by apply IH.
Qed.

Lemma stays_small_start (owner : Z) (s : Store) (ops : list Op) :
  stays_small owner s ops = true → small_store s = true.
Proof. destruct ops; cbn; [done|]. by intros [[? _]%andb_true_iff _]%andb_true_iff. Qed.

Lemma stays_small_end (owner : Z) (ops : list Op) :
  ∀ s, stays_small owner s ops = true → small_store (run owner s ops) = true.
Proof.
  induction ops as [|o ops IH]; intros s H; [done|].
  cbn [stays_small] in H. apply andb_true_iff in H as [_ H]. by apply IH.
Qed.

(** *** The sums *)

Section SumsOfAmounts.
Local Open Scope Qc_scope.

Lemma msum_fmap {A B : Type} (f : A → B) (g : B → Number) (h : A → Number)
    (m : gmap string A) :
  (∀ k a, m !! k = Some a → g (f a) = h a) →
  map_fold (λ _ b acc, acc + g b) 0 (f <$> m)
  = map_fold (λ _ a acc, acc + h a) 0 m.
Proof.
  induction m as [|k a m Hk _ IH] using map_first_key_ind.
  - intros _. by rewrite fmap_empty, !map_fold_empty.
  - intros H. rewrite fmap_insert.
    rewrite (msum_insert_fresh g) by (by rewrite lookup_fmap, Hk).
    rewrite (msum_insert_fresh h) by done.
    rewrite IH, (H k a); [done | apply lookup_insert_eq |].
    intros k' a' Hk'. apply (H k'). rewrite lookup_insert_ne; [done|].
    intros <-. by rewrite Hk in Hk'.
Qed.

Lemma total_js_store (s : Store) :
  small_store s = true → Js.total (js_store s) = total s.
Proof.
  intros Hs. unfold Js.total, total, sum_balances, totalLocked.
  cbn [Js.balances Js.deals js_store]. f_equal.
  - apply (msum_fmap rnd Js.decimal (λ v, v)). intros k v Hk.
    destruct (smallb_spec v (small_store_balance s k v Hs Hk)) as (n & -> & Hn).
    by apply decimal_dec8.
  - apply (msum_fmap js_deal (λ d, Js.decimal (Js.locked d)) locked).
    intros k d Hk. cbn [Js.locked js_deal].
    destruct (small_store_deal s k d Hs Hk) as [_ (n & -> & Hn)%smallb_spec].
    by apply decimal_dec8.
Qed.
End SumsOfAmounts.

(** ** Buying, on the machine *)

Lemma js_buy_not_open (s : Js.Store) (dealId : string) (buyerId : Z)
    (now : Time) (deal : Js.Deal) :
  Js.deals s !! dealId = Some deal → Js.status deal ≠ "open" →
  Js.buy s dealId buyerId now = (InvalidState, s).
Proof.
  intros Hd Hst. unfold Js.buy. rewrite Hd.
  by destruct (decide (Js.status deal ≠ "open")).
Qed.

Lemma js_buy_insufficient (s : Js.Store) (dealId : string) (buyerId : Z)
    (now : Time) (deal : Js.Deal) :
  Js.deals s !! dealId = Some deal → Js.status deal = "open" →
  Js.lt (Js.or0 (Js.balances s !! key buyerId)) (Js.or0 (Some (Js.price deal)))
  = true →
  Js.buy s dealId buyerId now = (InsufficientFunds, s).
Proof.
  intros Hd Hst Hlt. unfold Js.buy. rewrite Hd.
  destruct (decide (Js.status deal ≠ "open")) as [?|_]; [done|].
  cbv zeta. by rewrite Hlt.
Qed.

Lemma js_buy_success (s : Js.Store) (dealId : string) (buyerId : Z)
    (now : Time) (deal : Js.Deal) :
  Js.deals s !! dealId = Some deal → Js.status deal = "open" →
  Js.lt (Js.or0 (Js.balances s !! key buyerId)) (Js.or0 (Some (Js.price deal)))
  = false →
  Js.buy s dealId buyerId now
  = (Ok,
     {| Js._seq := Js._seq s;
        Js.balances :=
          <[key buyerId :=
              Js.toFixed8 (Js.sub (Js.or0 (Js.balances s !! key buyerId))
                                  (Js.or0 (Some (Js.price deal))))]>
            (Js.balances s);
        Js.deals :=
          <[dealId :=
              {| Js.id := Js.id deal; Js.seller := Js.seller deal;
                 Js.buyer := Some buyerId; Js.title := Js.title deal;
                 Js.desc := Js.desc deal; Js.type := Js.type deal;
                 Js.price := Js.price deal; Js.status := "in_progress";
                 Js.locked := Js.or0 (Some (Js.price deal));
                 Js.created_at := Js.created_at deal;
                 Js.locked_at := Some now; Js.sent_at := Js.sent_at deal;
                 Js.completed_at := Js.completed_at deal |}]> (Js.deals s);
        Js.logs := Js.logs s |}).
Proof.
  intros Hd Hst Hlt. unfold Js.buy. rewrite Hd.
  destruct (decide (Js.status deal ≠ "open")) as [?|_]; [done|].
  cbv zeta. by rewrite Hlt.
Qed.

(** In amounts below the bound, the test and the debit of buy are those
    of the decimals. *)
Lemma js_buy_units (bal price_ : Parsed) (n m : Z) :
  bal = dec8 n → price_ = dec8 m → Z.abs n ≤ cap → Z.abs m ≤ cap →
  (Js.lt bal (Js.or0 (Some price_)) = false ↔ m ≤ n)
  ∧ Js.toFixed8 (Js.sub bal (Js.or0 (Some price_))) = dec8 (n - m)
  ∧ Js.or0 (Some price_) = dec8 m.
Proof.
  intros -> -> Hn Hm. rewrite (or0_dec8 m Hm), (lt_dec8 n m Hn Hm).
  split; [|by rewrite sub_dec8].
  rewrite bool_decide_eq_false. lia.
Qed.

(** C5 (as amended).  On a stored deal, buy answers InvalidState when
    the status is not open, and InsufficientFunds when it is open and
    the balance is below the price, changing nothing in either case; it
    succeeds exactly when the deal is open and the balance is not below
    the price, and then the buyer is recorded, the price is locked, the
    status is in_progress, and the balance is
    [Number((bal - price).toFixed(8))]: for amounts of 8 decimals up to
    2^49 units of 10^-8 that is the balance less the price, exactly. *)
Theorem buy_semantics (s : Js.Store) (dealId : string) (buyerId : Z)
    (now : Time) (deal : Js.Deal) :
  Js.deals s !! dealId = Some deal →
  let bal := Js.or0 (Js.balances s !! key buyerId) in
  let price_ := Js.or0 (Some (Js.price deal)) in
  let r := (Js.buy s dealId buyerId now).1 in
  let s' := (Js.buy s dealId buyerId now).2 in
  (r = Ok ↔ Js.status deal = "open" ∧ Js.lt bal price_ = false)
  ∧ (Js.status deal ≠ "open" → r = InvalidState ∧ s' = s)
  ∧ (Js.status deal = "open" → Js.lt bal price_ = true →
     r = InsufficientFunds ∧ s' = s)
  ∧ (r = Ok →
     Js.balances s' !! key buyerId = Some (Js.toFixed8 (Js.sub bal price_))
     ∧ (∀ k, k ≠ key buyerId → Js.balances s' !! k = Js.balances s !! k)
     ∧ (∃ deal', Js.deals s' !! dealId = Some deal'
                 ∧ Js.buyer deal' = Some buyerId
                 ∧ Js.locked deal' = price_
                 ∧ Js.status deal' = "in_progress"
                 ∧ Js.seller deal' = Js.seller deal
                 ∧ Js.price deal' = Js.price deal)
     ∧ (∀ k, k ≠ dealId → Js.deals s' !! k = Js.deals s !! k)
     ∧ Js.logs s' = Js.logs s)
  ∧ (∀ n m : Z,
       bal = dec8 n → Js.price deal = dec8 m → Z.abs n ≤ cap → Z.abs m ≤ cap →
       (Js.lt bal price_ = false ↔ m ≤ n)
       ∧ Js.toFixed8 (Js.sub bal price_) = dec8 (n - m)
       ∧ price_ = dec8 m).
Proof.
  intros Hdeal bal price_ r s'.
  assert (Hunits : ∀ n m : Z,
    bal = dec8 n → Js.price deal = dec8 m → Z.abs n ≤ cap → Z.abs m ≤ cap →
    (Js.lt bal price_ = false ↔ m ≤ n)
    ∧ Js.toFixed8 (Js.sub bal price_) = dec8 (n - m) ∧ price_ = dec8 m).
  { intros n m. apply js_buy_units. }
  destruct (decide (Js.status deal = "open")) as [Hst|Hst].
  - destruct (Js.lt bal price_) eqn:Hlt.
    + pose proof (js_buy_insufficient s dealId buyerId now deal
                    Hdeal Hst Hlt) as E.
      subst r s'. rewrite E. cbn [fst snd].
      split; [split; [done | by intros [_ ?]]|].
      split; [done|]. split; [done|]. split; done.
    + pose proof (js_buy_success s dealId buyerId now deal Hdeal Hst Hlt) as E.
      subst r s'. rewrite E. cbn [fst snd].
      split; [done|]. split; [done|]. split; [done|]. split; [|done].
      intros _. cbn [Js.balances Js.deals Js.logs].
      split; [by rewrite lookup_insert_eq|].
      split; [by intros k Hk; rewrite lookup_insert_ne|].
      split; [|split; [by intros k Hk; rewrite lookup_insert_ne | done]].
      eexists. rewrite lookup_insert_eq. by repeat split.
  - pose proof (js_buy_not_open s dealId buyerId now deal Hdeal Hst) as E.
    subst r s'. rewrite E. cbn [fst snd].
    split; [split; [done | by intros [? _]]|].
    split; [done|]. split; [done|]. split; done.
Qed.

Lemma buy_semantics_witness :
  (Js.buy (js_store st_open) "#A7342" 2 "2024-01-01T11:00:00.000Z").1 = Ok
  ∧ Js.balances
      (Js.buy (js_store st_open) "#A7342" 2 "2024-01-01T11:00:00.000Z").2
      !! key 2
    = Some (dec8 (2000000000 - 1250000000)).
Proof.
  destruct (buy_semantics (js_store st_open) "#A7342" 2
              "2024-01-01T11:00:00.000Z" (js_deal open_gift))
    as (Hok & _ & _ & Heff & Hu).
  - reflexivity.
  - assert (Hr : (Js.buy (js_store st_open) "#A7342" 2
                    "2024-01-01T11:00:00.000Z").1 = Ok).
    { apply Hok. split; compute_done. }
    split; [exact Hr|].
    destruct (Heff Hr) as (Hbal & _).
    destruct (Hu 2000000000 1250000000) as (_ & Hd & _);
      [compute_done..|].
    by rewrite Hbal, Hd.
Defined.

(** C5 (as stated, refuted).  The buyer holds 100000000 and buys a deal
    priced 0.00000002.  The difference is not a binary64 number: the
    balance left prints as 99999999.99999999, one unit of 10^-8 below
    what it was, not two, while 0.00000002 is locked; balance and
    locked amount now add up to 100000000.00000001. *)
Lemma buy_debit_inexact :
  let s0 := (Js.givebalance 1 Js.empty_store 1 "2"
               (rnd (of_decimal 100000000 0))).2 in
  let s := (Js.createDeal s0 3 None None None (rnd (of_decimal 2 8))
              "2024-01-01T10:00:00.000Z").2 in
  let r := Js.buy s "#A7342" 2 "2024-01-01T11:00:00.000Z" in
  Js.run 1 Js.empty_store
    [Js.AdminCredit 1 "2" (rnd (of_decimal 100000000 0));
     Js.CreateDeal 3 None None None (rnd (of_decimal 2 8))
       "2024-01-01T10:00:00.000Z"] = Some s
  ∧ (Js.decimal <$> Js.balances s !! key 2) = Some (of_decimal 100000000 0)
  ∧ (Js.price <$> Js.deals s !! "#A7342") = Some (dec8 2)
  ∧ (Js.status <$> Js.deals s !! "#A7342") = Some "open"
  ∧ Js.decimal (dec8 2) = of_decimal 2 8
  ∧ r.1 = Ok
  ∧ (Js.locked <$> Js.deals r.2 !! "#A7342") = Some (dec8 2)
  ∧ (Js.decimal <$> Js.balances r.2 !! key 2)
    = Some (of_decimal 9999999999999999 8)
  ∧ (Js.decimal <$> Js.balances r.2 !! key 2)
    ≠ Some (of_decimal 100000000 0 - of_decimal 2 8)%Qc
  ∧ Js.total s = of_decimal 100000000 0
  ∧ Js.total r.2 = of_decimal 10000000000000001 8.
Proof.
  intros s0 s r. subst s0 s r.
  split; [reflexivity|].
  repeat (split; [compute_done|]). compute_done.
Qed.



(** ** Confirming receipt, on the machine *)

Lemma js_truthy_buyer_Some (deal : Js.Deal) (b : Z) :
  Js.truthy_buyer deal = Some b ↔ Js.buyer deal = Some b ∧ b ≠ 0.
Proof.
  unfold Js.truthy_buyer. destruct (Js.buyer deal) as [b'|].
  - case_decide as Hz.
    + split; [done|]. intros [[= ->] Hb]. done.
    + split; [by intros [= ->]|]. by intros [[= ->] _].
  - split; [done|]. by intros [? _].
Qed.

Lemma js_buyer_received_no_buyer (s : Js.Store) (dealId : string) (actor : Z)
    (now : Time) (deal : Js.Deal) :
  Js.deals s !! dealId = Some deal → Js.truthy_buyer deal = None →
  Js.buyer_received s dealId actor now = (NoBuyer, s).
Proof. intros Hd Hb. unfold Js.buyer_received. by rewrite Hd, Hb. Qed.

Lemma js_buyer_received_success (s : Js.Store) (dealId : string) (actor : Z)
    (now : Time) (deal : Js.Deal) (b : Z) :
  Js.deals s !! dealId = Some deal → Js.truthy_buyer deal = Some b →
  Js.buyer_received s dealId actor now
  = (Ok,
     {| Js._seq := Js._seq s;
        Js.balances :=
          <[key (Js.seller deal) :=
              Js.toFixed8
                (Js.add (Js.or0 (Js.balances s !! key (Js.seller deal)))
                        (Js.or0 (Some (Js.locked deal))))]>
            (Js.balances s);
        Js.deals :=
          <[dealId :=
              {| Js.id := Js.id deal; Js.seller := Js.seller deal;
                 Js.buyer := Js.buyer deal; Js.title := Js.title deal;
                 Js.desc := Js.desc deal; Js.type := Js.type deal;
                 Js.price := Js.price deal; Js.status := "done";
                 Js.locked := PFinite 0%Qc;
                 Js.created_at := Js.created_at deal;
                 Js.locked_at := Js.locked_at deal;
                 Js.sent_at := Js.sent_at deal;
                 Js.completed_at := Some now |}]> (Js.deals s);
        Js.logs :=
          <[dealId :=
              {| Js.log_id := dealId; Js.log_seller := Js.seller deal;
                 Js.log_buyer := b;
                 Js.log_amount := Js.or0 (Some (Js.locked deal));
                 Js.log_title := Js.title deal; Js.log_desc := Js.desc deal;
                 Js.log_completed_at := now |}]> (Js.logs s) |}).
Proof. intros Hd Hb. unfold Js.buyer_received. by rewrite Hd, Hb. Qed.

(** In amounts below the bound, the credit of confirmReceived is that
    of the decimals. *)
Lemma js_settle_units (bal locked_ : Parsed) (n m : Z) :
  bal = dec8 n → locked_ = dec8 m → Z.abs n ≤ cap → Z.abs m ≤ cap →
  Js.toFixed8 (Js.add bal (Js.or0 (Some locked_))) = dec8 (n + m)
  ∧ Js.or0 (Some locked_) = dec8 m.
Proof.
  intros -> -> Hn Hm. rewrite (or0_dec8 m Hm). by rewrite add_dec8.
Qed.

(** C3 (as amended).  On a stored deal confirmReceived succeeds exactly
    when a buyer is recorded, whatever the status and whoever the
    actor; it then leaves the seller
    [Number((balance + locked).toFixed(8))], sets locked to 0 and the
    status to done, stamps completed_at and stores a completion record
    under the deal id; without a recorded buyer it answers NoBuyer and
    changes nothing.  For amounts of 8 decimals up to 2^49 units of
    10^-8 the seller is left the balance plus the locked amount,
    exactly. *)
Theorem buyer_received_semantics (s : Js.Store) (dealId : string) (actor : Z)
    (now : Time) (deal : Js.Deal) :
  Js.deals s !! dealId = Some deal →
  let bal := Js.or0 (Js.balances s !! key (Js.seller deal)) in
  let amount := Js.or0 (Some (Js.locked deal)) in
  let r := (Js.buyer_received s dealId actor now).1 in
  let s' := (Js.buyer_received s dealId actor now).2 in
  (r = Ok ↔ ∃ b, Js.buyer deal = Some b ∧ b ≠ 0)
  ∧ (r ≠ Ok → r = NoBuyer ∧ s' = s)
  ∧ (r = Ok →
     Js.balances s' !! key (Js.seller deal)
     = Some (Js.toFixed8 (Js.add bal amount))
     ∧ (∀ k, k ≠ key (Js.seller deal) →
             Js.balances s' !! k = Js.balances s !! k)
     ∧ Js.deals s' !! dealId
       = Some {| Js.id := Js.id deal; Js.seller := Js.seller deal;
                 Js.buyer := Js.buyer deal; Js.title := Js.title deal;
                 Js.desc := Js.desc deal; Js.type := Js.type deal;
                 Js.price := Js.price deal; Js.status := "done";
                 Js.locked := PFinite 0%Qc;
                 Js.created_at := Js.created_at deal;
                 Js.locked_at := Js.locked_at deal;
                 Js.sent_at := Js.sent_at deal;
                 Js.completed_at := Some now |}
     ∧ (∀ k, k ≠ dealId → Js.deals s' !! k = Js.deals s !! k)
     ∧ (∃ e, Js.logs s' !! dealId = Some e
             ∧ Js.log_seller e = Js.seller deal
             ∧ Js.buyer deal = Some (Js.log_buyer e)
             ∧ Js.log_amount e = amount
             ∧ Js.log_completed_at e = now)
     ∧ (∀ k, k ≠ dealId → Js.logs s' !! k = Js.logs s !! k))
  ∧ (∀ n m : Z,
       bal = dec8 n → Js.locked deal = dec8 m → Z.abs n ≤ cap → Z.abs m ≤ cap →
       Js.toFixed8 (Js.add bal amount) = dec8 (n + m) ∧ amount = dec8 m).
Proof.
  intros Hdeal bal amount r s'.
  assert (Hunits : ∀ n m : Z,
    bal = dec8 n → Js.locked deal = dec8 m → Z.abs n ≤ cap → Z.abs m ≤ cap →
    Js.toFixed8 (Js.add bal amount) = dec8 (n + m) ∧ amount = dec8 m).
  { intros n m. apply js_settle_units. }
  destruct (Js.truthy_buyer deal) as [b|] eqn:Hb.
  - pose proof (js_buyer_received_success s dealId actor now deal b Hdeal Hb) as E.
    apply js_truthy_buyer_Some in Hb as [Hb Hb0].
    subst r s'. rewrite E. cbn [fst snd Js.balances Js.deals Js.logs].
    split; [split; eauto|]. split; [done|]. split; [|done]. intros _.
    split; [by rewrite lookup_insert_eq|].
    split; [by intros k Hk; rewrite lookup_insert_ne|].
    split; [by rewrite lookup_insert_eq|].
    split; [by intros k Hk; rewrite lookup_insert_ne|].
    split; [|by intros k Hk; rewrite lookup_insert_ne].
    eexists. rewrite lookup_insert_eq. by repeat split.
  - pose proof (js_buyer_received_no_buyer s dealId actor now deal Hdeal Hb) as E.
    subst r s'. rewrite E. cbn [fst snd].
    split; [split; [done|]|].
    { intros [b Hb']. apply js_truthy_buyer_Some in Hb'. congruence. }
    split; [done|]. split; done.
Qed.

Lemma buyer_received_semantics_witness :
  (Js.buyer_received (js_store st_sent) "#A7342" 2
     "2024-01-01T13:00:00.000Z").1 = Ok
  ∧ Js.balances
      (Js.buyer_received (js_store st_sent) "#A7342" 2
         "2024-01-01T13:00:00.000Z").2 !! key 3
    = Some (dec8 (0 + 1250000000)).
Proof.
  destruct (buyer_received_semantics (js_store st_sent) "#A7342" 2
              "2024-01-01T13:00:00.000Z" (js_deal sent_gift))
    as (Hok & _ & Heff & Hu).
  - reflexivity.
  - assert (Hr : (Js.buyer_received (js_store st_sent) "#A7342" 2
                    "2024-01-01T13:00:00.000Z").1 = Ok).
    { apply Hok. exists 2. split; [reflexivity | discriminate]. }
    split; [exact Hr|]. destruct (Heff Hr) as (Hbal & _).
    destruct (Hu 0 1250000000) as (Hd & _); [compute_done..|].
    etrans; [exact Hbal | by rewrite Hd].
Defined.

(** C2 (as amended).  When confirmReceived succeeds on a deal, a second
    confirmReceived on that deal succeeds as well, by whichever actors:
    it credits the amount locked by then, which is 0, leaves the deal
    done with nothing locked, stamps completed_at again and replaces
    the completion record by one of amount 0.  For amounts of 8
    decimals up to 2^49 units of 10^-8, every balance after the second
    call is the balance after the first, and the seller has received
    the locked amount once. *)
Theorem confirm_twice_credits_once (s : Js.Store) (dealId : string)
    (actor1 actor2 : Z) (t1 t2 : Time) (deal : Js.Deal) :
  Js.deals s !! dealId = Some deal →
  (Js.buyer_received s dealId actor1 t1).1 = Ok →
  let s1 := (Js.buyer_received s dealId actor1 t1).2 in
  let s2 := (Js.buyer_received s1 dealId actor2 t2).2 in
  (Js.buyer_received s1 dealId actor2 t2).1 = Ok
  ∧ Js.balances s2
    = <[key (Js.seller deal) :=
          Js.toFixed8 (Js.add (Js.or0 (Js.balances s1 !! key (Js.seller deal)))
                              (PFinite 0%Qc))]> (Js.balances s1)
  ∧ Js.deals s1 !! dealId
    = Some {| Js.id := Js.id deal; Js.seller := Js.seller deal;
              Js.buyer := Js.buyer deal; Js.title := Js.title deal;
              Js.desc := Js.desc deal; Js.type := Js.type deal;
              Js.price := Js.price deal; Js.status := "done";
              Js.locked := PFinite 0%Qc;
              Js.created_at := Js.created_at deal;
              Js.locked_at := Js.locked_at deal;
              Js.sent_at := Js.sent_at deal;
              Js.completed_at := Some t1 |}
  ∧ Js.deals s2 !! dealId
    = Some {| Js.id := Js.id deal; Js.seller := Js.seller deal;
              Js.buyer := Js.buyer deal; Js.title := Js.title deal;
              Js.desc := Js.desc deal; Js.type := Js.type deal;
              Js.price := Js.price deal; Js.status := "done";
              Js.locked := PFinite 0%Qc;
              Js.created_at := Js.created_at deal;
              Js.locked_at := Js.locked_at deal;
              Js.sent_at := Js.sent_at deal;
              Js.completed_at := Some t2 |}
  ∧ (∀ k, k ≠ dealId → Js.deals s2 !! k = Js.deals s1 !! k)
  ∧ (Js.log_amount <$> Js.logs s2 !! dealId) = Some (PFinite 0%Qc)
  ∧ (∀ n m : Z,
       Js.or0 (Js.balances s !! key (Js.seller deal)) = dec8 n →
       Js.locked deal = dec8 m →
       Z.abs n ≤ cap → Z.abs m ≤ cap → Z.abs (n + m) ≤ cap →
       Js.balances s1 !! key (Js.seller deal) = Some (dec8 (n + m))
       ∧ Js.balances s2 = Js.balances s1).
Proof.
  intros Hdeal Hok1 s1 s2.
  destruct (Js.truthy_buyer deal) as [b|] eqn:Hb; cycle 1.
  { rewrite (js_buyer_received_no_buyer s dealId actor1 t1 deal Hdeal Hb) in Hok1.
    discriminate. }
  pose proof (js_buyer_received_success s dealId actor1 t1 deal b Hdeal Hb) as E1.
  set (d1 := {| Js.id := Js.id deal; Js.seller := Js.seller deal;
                Js.buyer := Js.buyer deal; Js.title := Js.title deal;
                Js.desc := Js.desc deal; Js.type := Js.type deal;
                Js.price := Js.price deal; Js.status := "done";
                Js.locked := PFinite 0%Qc;
                Js.created_at := Js.created_at deal;
                Js.locked_at := Js.locked_at deal;
                Js.sent_at := Js.sent_at deal;
                Js.completed_at := Some t1 |}) in *.
  assert (Hd1 : Js.deals s1 !! dealId = Some d1).
  { subst s1. rewrite E1. cbn [snd Js.deals]. apply lookup_insert_eq. }
  assert (Hb1 : Js.truthy_buyer d1 = Some b) by exact Hb.
  assert (Hbal1 : Js.balances s1 !! key (Js.seller deal)
                  = Some (Js.toFixed8
                            (Js.add (Js.or0 (Js.balances s !! key (Js.seller deal)))
                                    (Js.or0 (Some (Js.locked deal)))))).
  { subst s1. rewrite E1. cbn [snd Js.balances]. apply lookup_insert_eq. }
  pose proof (js_buyer_received_success s1 dealId actor2 t2 d1 b Hd1 Hb1) as E2.
  subst s2. rewrite E2. cbn [fst snd Js.balances Js.deals Js.logs].
  change (Js.seller d1) with (Js.seller deal).
  change (Js.or0 (Some (Js.locked d1))) with (PFinite 0%Qc).
  split; [done|]. split; [done|]. split; [exact Hd1|].
  split; [by rewrite lookup_insert_eq|].
  split; [by intros k Hk; rewrite lookup_insert_ne|].
  split; [by rewrite lookup_insert_eq|].
  intros n m Hn Hm Hcn Hcm Hcs.
  destruct (js_settle_units _ _ n m Hn Hm Hcn Hcm) as [Hsum _].
  rewrite Hsum in Hbal1. split; [exact Hbal1|].
  rewrite Hbal1, (or0_dec8 _ Hcs). rewrite <- dec8_0, add_dec8; [|done|].
  - rewrite Z.add_0_r. by apply insert_id.
  - change cap with 562949953421312. lia.
Qed.

Lemma confirm_twice_credits_once_witness :
  let s1 := (Js.buyer_received (js_store st_sent) "#A7342" 2
               "2024-01-01T13:00:00.000Z").2 in
  (Js.buyer_received s1 "#A7342" 2 "2024-01-01T14:00:00.000Z").1 = Ok
  ∧ Js.balances s1 !! key 3 = Some (dec8 (0 + 1250000000))
  ∧ Js.balances
      (Js.buyer_received s1 "#A7342" 2 "2024-01-01T14:00:00.000Z").2
    = Js.balances s1.
Proof.
  intros s1.
  destruct (confirm_twice_credits_once (js_store st_sent) "#A7342" 2 2
              "2024-01-01T13:00:00.000Z" "2024-01-01T14:00:00.000Z"
              (js_deal sent_gift))
    as (Hok & _ & _ & _ & _ & _ & Hu).
  - reflexivity.
  - reflexivity.
  - split; [exact Hok|]. apply (Hu 0 1250000000); compute_done.
Defined.

(** ** Reporting a problem, on the machine *)

Lemma js_status_step (owner : Z) (s : Js.Store) (o : Js.Op) :
  map_Forall (λ _ d, Js.status d
                     ∈ ["open"; "in_progress"; "sent_to_support"; "done"])
             (Js.deals s) →
  map_Forall (λ _ d, Js.status d
                     ∈ ["open"; "in_progress"; "sent_to_support"; "done"])
             (Js.deals (Js.step owner s o).2).
Proof.
  intros H. destruct o as [u ty ti de p now|d u now|d u now|d u now|d u|f t a];
    cbn [Js.step].
  - unfold Js.createDeal.
    destruct (Js.falsy p || Js.isNaN p || Js.le0 p); [done|].
    destruct (nextDealId (Js._seq s)) as [i c]. cbn [snd Js.deals].
    apply map_Forall_insert_2; [|done]. cbn [Js.status]. set_solver.
  - unfold Js.buy. destruct (Js.deals s !! d) as [deal|];
      [|by destruct (proto_member d)].
    destruct (decide (Js.status deal ≠ "open")); [done|]. cbv zeta.
    destruct (Js.lt _ _); [done|]. cbn [snd Js.deals].
    apply map_Forall_insert_2; [|done]. cbn [Js.status]. set_solver.
  - unfold Js.seller_sent. destruct (Js.deals s !! d) as [deal|];
      [|by destruct (proto_member d)].
    cbn [snd Js.deals]. apply map_Forall_insert_2; [|done].
    cbn [Js.status]. set_solver.
  - unfold Js.buyer_received. destruct (Js.deals s !! d) as [deal|];
      [|by destruct (proto_member d)].
    destruct (Js.truthy_buyer deal); [|done]. cbn [snd Js.deals].
    apply map_Forall_insert_2; [|done]. cbn [Js.status]. set_solver.
  - unfold Js.buyer_problem. destruct (Js.deals s !! d) as [deal|];
      [done | by destruct (proto_member d)].
  - unfold Js.givebalance. destruct (decide (f ≠ owner)); [done|].
    destruct (Js.isNaN a); [done|]. cbn [snd].
    by destruct (String.eqb t "__proto__").
Qed.

Lemma js_status_run (owner : Z) (ops : list Js.Op) :
  ∀ s s',
    Js.run owner s ops = Some s' →
    map_Forall (λ _ d, Js.status d
                       ∈ ["open"; "in_progress"; "sent_to_support"; "done"])
               (Js.deals s) →
    map_Forall (λ _ d, Js.status d
                       ∈ ["open"; "in_progress"; "sent_to_support"; "done"])
               (Js.deals s').
Proof.
  induction ops as [|o ops IH]; intros s s'; cbn [Js.run].
  - by intros [= <-].
  - destruct (Js.writes_prototype o); [done|]. intros Hr H.
    by apply (IH _ _ Hr), js_status_step.
Qed.

(** C6 (as amended).  reportProblem writes nothing: for every store,
    deal id and actor the caches afterwards are the caches before, so
    the status of every deal, every balance and every locked amount are
    unchanged; and no deal of an installation ever has the status
    disputed, whatever has been done to it. *)
Theorem buyer_problem_semantics (OWNER_ID : Z) (s : Js.Store) (dealId : string)
    (actor : Z) :
  (Js.buyer_problem s dealId actor).2 = s
  ∧ ∀ (ops : list Js.Op) (s' : Js.Store) (k : string) (d : Js.Deal),
      Js.run OWNER_ID Js.empty_store ops = Some s' →
      Js.deals s' !! k = Some d →
      Js.status d ∈ ["open"; "in_progress"; "sent_to_support"; "done"]
      ∧ Js.status d ≠ "disputed".
Proof.
  split.
  - unfold Js.buyer_problem. destruct (Js.deals s !! dealId) as [deal|];
      [done | by destruct (proto_member dealId)].
  - intros ops s' k d Hr Hd.
    assert (Js.status d ∈ ["open"; "in_progress"; "sent_to_support"; "done"])
      as Hst.
    { by apply (js_status_run OWNER_ID ops Js.empty_store s' Hr
                  (map_Forall_empty _) k d). }
    split; [done|]. intros E. rewrite E in Hst. revert Hst. compute_done.
Qed.

(** ** The rounding rule, on the machine *)

Section RoundingOnTheMachine.
Local Open Scope Q_scope.

(** [Number("0.123456789")] is within a 64th of a unit of 12345678.9
    units. *)
Lemma near_literal :
  near (rnd (of_decimal 123456789 9)) (123456789 # 10) (1 # 64).
Proof.
  destruct (rnd_err (of_decimal 123456789 9) 1) as (v & Hv & He).
  - by vm_compute.
  - by vm_compute.
  - exists v. split; [exact Hv|].
    assert (this (of_decimal 123456789 9) == 123456789 # 1000000000) as Hq
      by (by vm_compute).
    pose proof tiny_small as HT. pose proof tiny_pos as HT0.
    rewrite Hq in He. unfold ulp53 in He. set (w := this v) in *.
    clearbody w. clear -He HT HT0. lra.
Qed.

Lemma credit_literal (n : Z) :
  (Z.abs n <= cap)%Z →
  Js.toFixed8 (Js.add (dec8 n) (rnd (of_decimal 123456789 9)))
  = dec8 (n + 12345679).
Proof.
  intros Hn.
  pose proof (near_add _ _ _ _ _ _ (562949965766992 # 1)
                (near_dec8 n Hn) near_literal) as H.
  apply cap_bounds in Hn as Hn'.
  eapply near_toFixed8.
  - apply H; lra.
  - rewrite inject_Z_plus. change (inject_Z 12345679) with (12345679 # 1).
    unfold ulp53. lra.
  - rewrite inject_Z_plus. change (inject_Z 12345679) with (12345679 # 1).
    unfold ulp53. lra.
  - change cap with 562949953421312%Z in *.
    change (10 ^ 28)%Z with 10000000000000000000000000000%Z. lia.
Qed.
End RoundingOnTheMachine.

Lemma rounded_toFixed8 (y : Parsed) : Js.rounded (Js.toFixed8 y).
Proof. by exists y. Qed.

Lemma rounded_0 : Js.rounded (PFinite 0%Qc).
Proof. by exists (PFinite 0%Qc). Qed.

Lemma rounded_or0 (x : Parsed) : Js.rounded x → Js.rounded (Js.or0 (Some x)).
Proof.
  intros Hx. cbn [Js.or0]. destruct (Js.falsy x); [apply rounded_0 | done].
Qed.

Lemma rounded_cases (x : Parsed) :
  Js.rounded x →
  x = PNaN ∨ (∃ b, x = PInfinity b)
  ∨ (∃ v, x = PFinite v ∧ (inject_Z (10 ^ 21) <= Qabs (this v))%Q)
  ∨ ∃ k, x = dec8 k.
Proof.
  intros [[| b | v] ->]; cbn [Js.toFixed8]; [by left | right; left; by exists b |].
  destruct (Qle_bool (inject_Z (10 ^ 21)) (Qabs (this v))) eqn:E.
  - right. right. left. exists v. split; [done|]. by apply Qle_bool_imp_le.
  - right. right. right. by eexists.
Qed.

Lemma clean_step (owner : Z) (s : Js.Store) (o : Js.Op) :
  Js.clean s → Js.clean (Js.step owner s o).2.
Proof.
  intros [Hb Hd].
  destruct o as [u ty ti de p now|d u now|d u now|d u now|d u|f t a];
    cbn [Js.step].
  - unfold Js.createDeal.
    destruct (Js.falsy p || Js.isNaN p || Js.le0 p); [done|].
    destruct (nextDealId (Js._seq s)) as [i c]. split; [done|].
    cbn [snd Js.deals]. apply map_Forall_insert_2; [|done].
    cbn [Js.price Js.locked]. split; [apply rounded_toFixed8 | apply rounded_0].
  - unfold Js.buy. destruct (Js.deals s !! d) as [deal|] eqn:E;
      [|by destruct (proto_member d)].
    destruct (decide (Js.status deal ≠ "open")); [done|]. cbv zeta.
    destruct (Js.lt _ _); [done|]. destruct (Hd d deal E) as [Hp Hl].
    split; cbn [snd Js.balances Js.deals].
    + apply map_Forall_insert_2; [apply rounded_toFixed8 | done].
    + apply map_Forall_insert_2; [|done]. cbn [Js.price Js.locked].
      split; [done | by apply rounded_or0].
  - unfold Js.seller_sent. destruct (Js.deals s !! d) as [deal|] eqn:E;
      [|by destruct (proto_member d)].
    split; [done|]. cbn [snd Js.deals]. apply map_Forall_insert_2; [|done].
    apply (Hd d deal E).
  - unfold Js.buyer_received. destruct (Js.deals s !! d) as [deal|] eqn:E;
      [|by destruct (proto_member d)].
    destruct (Js.truthy_buyer deal); [|done]. destruct (Hd d deal E) as [Hp Hl].
    split; cbn [snd Js.balances Js.deals].
    + apply map_Forall_insert_2; [apply rounded_toFixed8 | done].
    + apply map_Forall_insert_2; [|done]. cbn [Js.price Js.locked].
      split; [done | apply rounded_0].
  - unfold Js.buyer_problem. destruct (Js.deals s !! d) as [deal|];
      [done | by destruct (proto_member d)].
  - unfold Js.givebalance. destruct (decide (f ≠ owner)); [done|].
    destruct (Js.isNaN a); [done|]. cbn [snd].
    destruct (String.eqb t "__proto__"); [done|].
    split; [|done]. cbn [Js.balances].
    apply map_Forall_insert_2; [apply rounded_toFixed8 | done].
Qed.

Lemma clean_run (owner : Z) (ops : list Js.Op) :
  ∀ s s', Js.run owner s ops = Some s' → Js.clean s → Js.clean s'.
Proof.
  induction ops as [|o ops IH]; intros s s'; cbn [Js.run].
  - by intros [= <-].
  - destruct (Js.writes_prototype o); [done|]. intros Hr H.
    by apply (IH _ _ Hr), clean_step.
Qed.

(** A deal entered at 0.123456789, bought and confirmed. *)
Lemma literal_deal (s : Js.Store) (seller_ buyer_ actor : Z)
    (ty ti de : option string) (t0 t1 t2 : Time) (n m : Z) :
  seller_ ≠ buyer_ → buyer_ ≠ 0 →
  Js.or0 (Js.balances s !! key buyer_) = dec8 n →
  Js.or0 (Js.balances s !! key seller_) = dec8 m →
  12345679 ≤ n ≤ cap → Z.abs m ≤ cap →
  let dealId := (nextDealId (Js._seq s)).1 in
  let s1 := (Js.createDeal s seller_ ty ti de
               (rnd (of_decimal 123456789 9)) t0).2 in
  let s2 := (Js.buy s1 dealId buyer_ t1).2 in
  let s3 := (Js.buyer_received s2 dealId actor t2).2 in
  (Js.price <$> Js.deals s1 !! dealId) = Some (dec8 12345679)
  ∧ Js.balances s2 !! key buyer_ = Some (dec8 (n - 12345679))
  ∧ (Js.locked <$> Js.deals s2 !! dealId) = Some (dec8 12345679)
  ∧ Js.balances s3 !! key seller_ = Some (dec8 (m + 12345679))
  ∧ (Js.locked <$> Js.deals s3 !! dealId) = Some (PFinite 0%Qc).
Proof.
  intros Hne Hb0 Hbn Hbm Hn Hm dealId s1 s2 s3.
  assert (Z.abs n ≤ cap) as Hn' by lia.
  assert (Z.abs 12345679 ≤ cap) as Hp by compute_done.
  assert (key seller_ ≠ key buyer_) as Hk.
  { unfold key. intros E. by apply (inj pretty) in E. }
  assert (Js.toFixed8 (rnd (of_decimal 123456789 9)) = dec8 12345679) as Hlist
    by compute_done.
  set (amt := rnd (of_decimal 123456789 9)) in *.
  assert (Js.falsy amt || Js.isNaN amt || Js.le0 amt = false) as Hg
    by compute_done.
  subst s3 s2 s1 dealId. unfold Js.createDeal. rewrite Hg.
  destruct (nextDealId (Js._seq s)) as [i c]. cbn [fst snd]. rewrite Hlist.
  match goal with
  | |- context [Js.buy ?st _ _ _] => set (s1 := st)
  end.
  match goal with
  | _ := {| Js.deals := <[_ := ?d]> _ |} |- _ => set (d1 := d) in *
  end.
  assert (Js.deals s1 !! i = Some d1) as Hd1 by apply lookup_insert_eq.
  destruct (js_buy_units (Js.or0 (Js.balances s1 !! key buyer_))
              (Js.price d1) n 12345679 Hbn eq_refl Hn' Hp)
    as (Hlt & Hdebit & Hlock).
  rewrite (js_buy_success s1 i buyer_ t1 d1 Hd1 eq_refl)
    by (apply Hlt; lia).
  cbn [snd]. rewrite Hdebit, Hlock.
  match goal with
  | |- context [Js.buyer_received ?st _ _ _] => set (s2 := st)
  end.
  match goal with
  | _ := {| Js.deals := <[_ := ?d]> (Js.deals s1) |} |- _ => set (d2 := d) in *
  end.
  assert (Js.deals s2 !! i = Some d2) as Hd2 by apply lookup_insert_eq.
  assert (Js.truthy_buyer d2 = Some buyer_) as Hb2.
  { apply js_truthy_buyer_Some. by split. }
  rewrite (js_buyer_received_success s2 i actor t2 d2 buyer_ Hd2 Hb2).
  cbn [snd Js.balances Js.deals]. change (Js.seller d2) with seller_.
  assert (Js.balances s2 !! key seller_ = Js.balances s !! key seller_) as Hbs.
  { subst s2. cbn [Js.balances]. by rewrite lookup_insert_ne. }
  rewrite Hbs.
  destruct (js_settle_units (Js.or0 (Js.balances s !! key seller_))
              (Js.locked d2) m 12345679 Hbm eq_refl Hm Hp) as (Hcredit & _).
  rewrite Hcredit.
  split; [by rewrite Hd1|]. split; [by subst s2; cbn; rewrite lookup_insert_eq|].
  split; [by rewrite Hd2|]. split; [by rewrite lookup_insert_eq|].
  by rewrite lookup_insert_eq.
Qed.

(** C9 (as amended).  Every balance, price and locked amount an
    installation ever holds is a [Number(y.toFixed(8))]: the number
    nearest to a decimal of 8 places (or NaN, an infinity, or a number
    of size 10^21 and more, which [toFixed] leaves as they are); and
    the amount 0.123456789 is taken as 0.12345679, the nearest decimal
    of 8 places, on every path: the owner's credit adds 0.12345679, a
    deal entered at 0.123456789 is listed at 0.12345679, and buying it
    debits and locks, and confirming it credits, 0.12345679, for
    balances of 8 decimals up to 2^49 units of 10^-8. *)
Theorem rounding_to_nearest (OWNER_ID : Z) :
  let amt := rnd (of_decimal 123456789 9) in
  (∀ ops s', Js.run OWNER_ID Js.empty_store ops = Some s' → Js.clean s')
  ∧ (∀ x, Js.rounded x →
          x = PNaN ∨ (∃ b, x = PInfinity b)
          ∨ (∃ v, x = PFinite v ∧ (inject_Z (10 ^ 21) <= Qabs (this v))%Q)
          ∨ ∃ k, x = dec8 k)
  ∧ Js.toFixed8 amt = dec8 12345679
  ∧ (∀ (s : Js.Store) (t : string) (n : Z),
       proto_member t = false →
       Js.or0 (Js.balances s !! t) = dec8 n → Z.abs n ≤ cap →
       Js.balances (Js.givebalance OWNER_ID s OWNER_ID t amt).2 !! t
       = Some (dec8 (n + 12345679)))
  ∧ (∀ (s : Js.Store) (seller_ buyer_ actor : Z) (ty ti de : option string)
       (t0 t1 t2 : Time) (n m : Z),
       seller_ ≠ buyer_ → buyer_ ≠ 0 →
       Js.or0 (Js.balances s !! key buyer_) = dec8 n →
       Js.or0 (Js.balances s !! key seller_) = dec8 m →
       12345679 ≤ n ≤ cap → Z.abs m ≤ cap →
       let dealId := (nextDealId (Js._seq s)).1 in
       let s1 := (Js.createDeal s seller_ ty ti de amt t0).2 in
       let s2 := (Js.buy s1 dealId buyer_ t1).2 in
       let s3 := (Js.buyer_received s2 dealId actor t2).2 in
       (Js.price <$> Js.deals s1 !! dealId) = Some (dec8 12345679)
       ∧ Js.balances s2 !! key buyer_ = Some (dec8 (n - 12345679))
       ∧ (Js.locked <$> Js.deals s2 !! dealId) = Some (dec8 12345679)
       ∧ Js.balances s3 !! key seller_ = Some (dec8 (m + 12345679))
       ∧ (Js.locked <$> Js.deals s3 !! dealId) = Some (PFinite 0%Qc)).
Proof.
  intros amt. split; [|split; [|split; [|split]]].
  - intros ops s' Hr. apply (clean_run OWNER_ID ops _ _ Hr).
    split; apply map_Forall_empty.
  - apply rounded_cases.
  - compute_done.
  - intros s t n Ht Hb Hn. unfold Js.givebalance.
    destruct (decide (OWNER_ID ≠ OWNER_ID)) as [?|_]; [done|].
    assert (Js.isNaN amt = false) as -> by compute_done.
    rewrite (proto_member_proto t Ht), Ht. cbn [snd Js.balances].
    rewrite lookup_insert_eq. f_equal.
    assert (match Js.balances s !! t with
            | Some v => Js.or0 (Some v)
            | None => PFinite 0%Qc
            end = dec8 n) as ->.
    { rewrite <- Hb. by destruct (Js.balances s !! t). }
    by apply credit_literal.
  - apply literal_deal.
Qed.

(** ** Conservation, on the machine *)



(** X6.  Only the owner's /givebalance adds funds: from caches that
    hold a well-formed ledger, no sequence of operations free of an
    accepted owner credit increases the sum of all balances and locked
    amounts, each as [toFixed(8)] prints it, all amounts being decimals
    of 8 places up to 2^49 units of 10^-8 throughout. *)
Theorem only_owner_credit_adds_funds (OWNER_ID : Z) (s : Store)
    (ops : list Op) :
  wf s →
  Forall (λ o, ¬ mints OWNER_ID o) ops →
  stays_small OWNER_ID s ops = true →
  Js.run OWNER_ID (js_store s) (js_op <$> ops)
  = Some (js_store (run OWNER_ID s ops))
  ∧ (Js.total (js_store (run OWNER_ID s ops)) ≤ Js.total (js_store s))%Qc.
Proof.
  intros Hwf Hops Hsm.
  rewrite (sim_run OWNER_ID ops s Hsm). split; [done|].
  rewrite !total_js_store;
    [| by apply (stays_small_start OWNER_ID s ops)
     | by apply stays_small_end].
  by apply total_not_increased.
Qed.

Lemma only_owner_credit_adds_funds_witness :
  let ops := [Buy "#A7342" 2 "2024-01-01T11:00:00.000Z";
              AdminCredit 7 "2" (Some (of_decimal 1000 0));
              ConfirmReceived "#A7342" 2 "2024-01-01T13:00:00.000Z";
              golden_gift] in
  Js.run 1 (js_store st_open) (js_op <$> ops)
  = Some (js_store (run 1 st_open ops))
  ∧ (Js.total (js_store (run 1 st_open ops)) ≤ Js.total (js_store st_open))%Qc.
Proof.
  intros ops. apply only_owner_credit_adds_funds.
  - apply wf_run, wf_empty.
  - repeat (apply List.Forall_cons; [cbn; try done; lia|]). apply List.Forall_nil.
  - vm_compute. reflexivity.
Defined.
